(** * A shallow embedding of the streaming relay of [main.py]

    The development follows the source file top-down: Python strings and
    their helpers, [split_text], [markdown_to_telegram_html], the quota
    ledger ([check_and_consume_limit]), and finally the message, photo and
    cancel handlers, run against a scripted outside world. *)

From Stdlib Require Import ZArith NArith Lia String Ascii DecimalString.
From stdpp Require Import gmap list.

Local Open Scope Z_scope.

(** ** Python strings

    A Python [str] is a sequence of Unicode code points; [len] counts code
    points and [s[i]] reads one.  A code point is a natural number. *)

Module Py.

Definition char := N.
Definition pystr := list char.

(** Literals are written as ASCII Rocq strings. *)
Definition str (s : string) : pystr :=
  List.map N_of_ascii (list_ascii_of_string s).

Definition len (s : pystr) : Z := Z.of_nat (length s).

(** [s[a:b]] and [s[a:]] for a non-negative [a]; as in Python an upper
    bound past the end is clamped and [b <= a] gives the empty string. *)
Definition slice (s : pystr) (a b : Z) : pystr :=
  take (Z.to_nat (b - a)) (drop (Z.to_nat a) s).

Definition slice_from (s : pystr) (a : Z) : pystr := drop (Z.to_nat a) s.

(** [s[i]] for a non-negative [i]; [None] stands for IndexError. *)
Definition index (s : pystr) (i : Z) : option char :=
  if i <? 0 then None else s !! Z.to_nat i.

Definition NL : char := 10%N.
Definition SP : char := 32%N.

Definition char_eqb (a b : char) : bool := N.eqb a b.

Fixpoint starts_with (p s : pystr) : bool :=
  match p, s with
  | [], _ => true
  | _ :: _, [] => false
  | a :: p', b :: s' => char_eqb a b && starts_with p' s'
  end.

End Py.

Import Py.

(** ** [split_text] (main.py, lines 729-761) *)

Definition TELEGRAM_MAX_LENGTH : Z := 4000.

Module Split.

(** The inner [for i in range(end - 1, start - 1, -1)] loop: [n] is the
    number of indices still to visit, [i] the current one.  The result is
    the value of [split_pos] after the loop, [-1] when no break was hit.
    The loop is entered with [0 <= start] and [end < len(text)], so that
    [text[i]] is always there. *)
Fixpoint find_break (text : pystr) (i : Z) (n : nat) : Z :=
  match n with
  | O => -1
  | S n' =>
      match index text i with
      | Some c =>
          if char_eqb c NL then i + 1
          else if char_eqb c SP then i + 1
          else find_break text (i - 1) n'
      | None => find_break text (i - 1) n'
      end
  end.

(** The [while start < len(text)] loop.  Every iteration is one unit of
    fuel; [None] means that the fuel ran out. *)
Fixpoint split_loop (fuel : nat) (text : pystr) (length : Z) (start : Z)
    (chunks : list pystr) : option (list pystr) :=
  match fuel with
  | O => None
  | S fuel' =>
      if start <? len text then
        let end_ := start + length in
        if end_ >=? len text then Some (chunks ++ [slice_from text start])
        else
          let split_pos := find_break text (end_ - 1) (Z.to_nat (end_ - start)) in
          if negb (split_pos =? -1) && (split_pos >? start) then
            split_loop fuel' text length split_pos
              (chunks ++ [slice text start split_pos])
          else
            split_loop fuel' text length end_ (chunks ++ [slice text start end_])
      else Some chunks
  end.

(** With a positive [length] the loop advances by at least one character
    per iteration, so [len(text) + 1] iterations are enough; with
    [length <= 0] and a longer text the Python loop never ends, and the
    model answers [None]. *)
Definition split_text (text : pystr) (length : Z) : option (list pystr) :=
  if len text <=? length then Some [text]
  else split_loop (S (List.length text)) text length 0 [].

Definition is_break (c : char) : Prop := c = NL \/ c = SP.

(** The cuts the source makes, stated declaratively: the text from [start]
    on is cut after the last character of the window
    [start .. start + length - 1] that is a newline or a space, whichever
    of the two comes last, and at [start + length] when the window holds
    neither; the rest that fits is the last chunk. *)
Inductive cut_sequence (text : pystr) (length : Z) : Z -> list pystr -> Prop :=
  | cut_last start :
      len text <= start + length ->
      cut_sequence text length start [slice_from text start]
  | cut_break start i c rest :
      start + length < len text ->
      start <= i < start + length ->
      index text i = Some c -> is_break c ->
      (forall j d, i < j < start + length -> index text j = Some d -> ~ is_break d) ->
      cut_sequence text length (i + 1) rest ->
      cut_sequence text length start (slice text start (i + 1) :: rest)
  | cut_hard start rest :
      start + length < len text ->
      (forall j d, start <= j < start + length -> index text j = Some d -> ~ is_break d) ->
      cut_sequence text length (start + length) rest ->
      cut_sequence text length start (slice text start (start + length) :: rest).

(** The boundary as the specification words it: the last newline of the
    window if there is one, else the last space, else the hard cut. *)
Fixpoint last_index_of (c : char) (text : pystr) (i : Z) (n : nat) : option Z :=
  match n with
  | O => None
  | S n' =>
      match index text i with
      | Some d => if char_eqb d c then Some i else last_index_of c text (i - 1) n'
      | None => last_index_of c text (i - 1) n'
      end
  end.

Definition newline_first_boundary (text : pystr) (start length : Z) : Z :=
  let e := start + length in
  match last_index_of NL text (e - 1) (Z.to_nat length) with
  | Some i => i + 1
  | None =>
      match last_index_of SP text (e - 1) (Z.to_nat length) with
      | Some i => i + 1
      | None => e
      end
  end.

End Split.

(** ** [markdown_to_telegram_html] (main.py, lines 654-726)

    Every [re.sub] of the source is written as the scanner that its
    pattern denotes: a matcher looks at the rest of the subject (and at the
    character before it, for [^] and the look-behinds) and answers the
    groups and the number of characters matched; [re_sub] walks the subject
    from left to right, replaces each match and resumes right after it.
    No pattern of the source matches the empty string. *)

Module Re.

Definition chr (a : ascii) : char := N_of_ascii a.
Arguments chr a%_char.
Arguments str s%_string.

(** Longest prefix whose characters satisfy [p], and what follows it. *)
Fixpoint span (p : char -> bool) (s : pystr) : pystr * pystr :=
  match s with
  | [] => ([], [])
  | c :: s' =>
      if p c then let '(run, rest) := span p s' in (c :: run, rest)
      else ([], s)
  end.

Definition is_char (c : char) : char -> bool := fun d => char_eqb d c.
Definition not_char (c : char) : char -> bool := fun d => negb (char_eqb d c).

Definition strip_prefix (p s : pystr) : option pystr :=
  if starts_with p s then Some (drop (length p) s) else None.

(** First occurrence of [pat] in [s]: the text before it and the text
    after it. *)
Fixpoint find_sub (pat s : pystr) : option (pystr * pystr) :=
  if starts_with pat s then Some ([], drop (length pat) s)
  else
    match s with
    | [] => None
    | c :: s' =>
        match find_sub pat s' with
        | Some (before, after) => Some (c :: before, after)
        | None => None
        end
    end.

(** [.*?] followed by [pat]: the shortest run of characters other than a
    newline after which [pat] stands. *)
Fixpoint lazy_until (pat s : pystr) : option pystr :=
  if starts_with pat s then Some []
  else
    match s with
    | [] => None
    | c :: s' =>
        if char_eqb c NL then None
        else match lazy_until pat s' with
             | Some g => Some (c :: g)
             | None => None
             end
    end.

(** [.+?] followed by [pat]. *)
Definition lazy_plus_until (pat s : pystr) : option pystr :=
  match s with
  | [] => None
  | c :: s' =>
      if char_eqb c NL then None
      else match lazy_until pat s' with
           | Some g => Some (c :: g)
           | None => None
           end
  end.

Definition matcher := option char -> pystr -> option (list pystr * nat).

Definition group (k : nat) (groups : list pystr) : pystr :=
  nth (k - 1) groups [].

(** [re.sub]: [skip] counts the characters of the current match that are
    still to be passed over, [prev] is the character of the subject just
    before the current position. *)
Fixpoint re_sub_scan {S : Type} (m : matcher) (repl : S -> list pystr -> S * pystr)
    (st : S) (prev : option char) (skip : nat) (rest : pystr) : S * pystr :=
  match rest with
  | [] => (st, [])
  | c :: rest' =>
      match skip with
      | Datatypes.S k => re_sub_scan m repl st (Some c) k rest'
      | O =>
          match m prev rest with
          | Some (groups, n) =>
              let '(st1, out) := repl st groups in
              let '(st2, tail) := re_sub_scan m repl st1 (Some c) (n - 1) rest' in
              (st2, out ++ tail)
          | None =>
              let '(st1, tail) := re_sub_scan m repl st (Some c) 0 rest' in
              (st1, c :: tail)
          end
      end
  end.

Definition re_sub_state {S : Type} (m : matcher)
    (repl : S -> list pystr -> S * pystr) (st : S) (text : pystr) : S * pystr :=
  re_sub_scan m repl st None 0 text.

Definition re_sub (m : matcher) (repl : list pystr -> pystr) (text : pystr) : pystr :=
  snd (re_sub_state m (fun (_ : unit) groups => (tt, repl groups)) tt text).

(** [str.replace(old, new)] for a non-empty [old]. *)
Definition replace (old new text : pystr) : pystr :=
  re_sub (fun _ rest => if starts_with old rest then Some ([], length old) else None)
         (fun _ => new) text.

(** [Py_UNICODE_ISSPACE]: what [\s] and [str.strip] take for white space. *)
Definition is_space (c : char) : bool :=
  ((9 <=? c) && (c <=? 13) || (28 <=? c) && (c <=? 32)
   || (c =? 133) || (c =? 160) || (c =? 5760)
   || (8192 <=? c) && (c <=? 8202)
   || (c =? 8232) || (c =? 8233) || (c =? 8239) || (c =? 8287)
   || (c =? 12288))%N.

Definition ascii_alnum (c : char) : bool :=
  ((48 <=? c) && (c <=? 57) || (65 <=? c) && (c <=? 90)
   || (97 <=? c) && (c <=? 122))%N.

(** [str.strip()] *)
Definition lstrip (s : pystr) : pystr := snd (span is_space s).
Definition strip (s : pystr) : pystr := reverse (lstrip (reverse (lstrip s))).

Definition DQUOTE : char := 34%N.

(** [html.escape(s, quote)] *)
Definition escape_char (quote : bool) (c : char) : pystr :=
  if char_eqb c (chr "&") then str "&amp;"
  else if char_eqb c (chr "<") then str "&lt;"
  else if char_eqb c (chr ">") then str "&gt;"
  else if quote && char_eqb c DQUOTE then str "&quot;"
  else if quote && char_eqb c (chr "'") then str "&#x27;"
  else [c].

Definition html_escape (s : pystr) (quote : bool) : pystr :=
  flat_map (escape_char quote) s.

(** Decimal digits of a counter, as the f-string prints it. *)
Definition decimal (n : nat) : pystr :=
  str (DecimalString.NilZero.string_of_uint (Nat.to_uint n)).

End Re.

Module Transcoder.
Import Re.

Section Transcode.

(** [\w] on a code point above ASCII asks the Unicode database of the
    Python runtime whether it is alphanumeric; that table is not part of
    the repository and is a parameter here. *)
Variable unicode_alnum : char -> bool.

Definition is_word (c : char) : bool :=
  if (c <? 128)%N then ascii_alnum c || char_eqb c (chr "_")
  else unicode_alnum c.

Definition fence : pystr := str "```".

(** Line 679, the fenced block: three backticks, an optional run of word
    characters (the language tag), a newline, then as little text as
    possible, of any kind, up to the next three backticks.  The tag is
    greedy, and giving word characters back can never expose the newline,
    so the longest run is the only candidate. *)
Definition code_block_re : matcher := fun _ rest =>
  match strip_prefix fence rest with
  | None => None
  | Some r1 =>
      let '(lang, r2) := span is_word r1 in
      match r2 with
      | c :: r3 =>
          if char_eqb c NL then
            match find_sub fence r3 with
            | Some (code, _) =>
                Some ([code], (3 + length lang + 1 + length code + 3)%nat)
            | None => None
            end
          else None
      | [] => None
      end
  end.

(** Line 681, inline code: a backtick, one or more characters other than
    a backtick, a backtick. *)
Definition inline_code_re : matcher := fun _ rest =>
  match rest with
  | c :: r1 =>
      if char_eqb c (chr "`") then
        let '(code, r2) := span (not_char (chr "`")) r1 in
        match code, r2 with
        | _ :: _, _ :: _ => Some ([code], (1 + length code + 1)%nat)
        | _, _ => None
        end
      else None
  | [] => None
  end.

(** Line 692, a link: an opening bracket, a non-empty label without a
    closing bracket, a closing bracket, an opening parenthesis, a
    non-empty address without a closing parenthesis, and that
    parenthesis. *)
Definition link_re : matcher := fun _ rest =>
  match rest with
  | c :: r1 =>
      if char_eqb c (chr "[") then
        let '(label, r2) := span (not_char (chr "]")) r1 in
        match label, r2 with
        | _ :: _, _ :: r3 =>
            match r3 with
            | d :: r4 =>
                if char_eqb d (chr "(") then
                  let '(url, r5) := span (not_char (chr ")")) r4 in
                  match url, r5 with
                  | _ :: _, _ :: _ =>
                      Some ([label; url],
                            (1 + length label + 2 + length url + 1)%nat)
                  | _, _ => None
                  end
                else None
            | [] => None
            end
        | _, _ => None
        end
      else None
  | [] => None
  end.

(** Line 695, a heading, with re.MULTILINE: at the start of a line, one
    to six hash marks, any white space, and the rest of the line.
    [heading_body] is that rest, which must not be empty. *)
Definition heading_body (r : pystr) : option pystr :=
  match r with
  | d :: _ => if char_eqb d NL then None else Some (fst (span (not_char NL) r))
  | [] => None
  end.

(** [\s*] is greedy and gives characters back one at a time: [w] white
    space characters are tried first, then [w - 1], down to none. *)
Fixpoint heading_space (r1 : pystr) (w : nat) : option (nat * pystr) :=
  match heading_body (drop w r1) with
  | Some body => Some (w, body)
  | None =>
      match w with
      | O => None
      | Datatypes.S w' => heading_space r1 w'
      end
  end.

(** [#{1,6}] is greedy too: [h] marks are tried first, then fewer, down
    to one. *)
Fixpoint heading_marks (rest : pystr) (h : nat) : option (list pystr * nat) :=
  match h with
  | O => None
  | Datatypes.S h' =>
      let r1 := drop h rest in
      match heading_space r1 (length (fst (span is_space r1))) with
      | Some (w, body) => Some ([take h rest; body], (h + w + length body)%nat)
      | None => heading_marks rest h'
      end
  end.

Definition heading_re : matcher := fun prev rest =>
  let at_line_start :=
    match prev with
    | None => true
    | Some p => char_eqb p NL
    end in
  if at_line_start then
    heading_marks rest (Nat.min 6 (length (fst (span (is_char (chr "#")) rest))))
  else None.

(** Lines 698 and 700, bold and underline: the mark twice, a non-empty
    run without the mark, the mark twice. *)
Definition doubled_re (mark : char) : matcher := fun _ rest =>
  match strip_prefix [mark; mark] rest with
  | None => None
  | Some r1 =>
      let '(body, r2) := span (not_char mark) r1 in
      match body with
      | _ :: _ =>
          if starts_with [mark; mark] r2 then
            Some ([body], (2 + length body + 2)%nat)
          else None
      | [] => None
      end
  end.

(** Lines 702 and 703, italic: one mark that no mark precedes, a
    non-empty run without the mark, and one mark that no mark follows. *)
Definition single_re (mark : char) : matcher := fun prev rest =>
  let behind :=
    match prev with
    | Some p => char_eqb p mark
    | None => false
    end in
  if behind then None
  else
    match rest with
    | c :: r1 =>
        if char_eqb c mark then
          let '(body, r2) := span (not_char mark) r1 in
          match body, r2 with
          | _ :: _, _ :: r3 =>
              if starts_with [mark] r3 then None
              else Some ([body], (1 + length body + 1)%nat)
          | _, _ => None
          end
        else None
    | [] => None
    end.

(** Lines 705 and 707, strike-through and spoiler: the mark twice, as few
    characters of the line as possible but at least one, the mark
    twice. *)
Definition lazy_pair_re (mark : char) : matcher := fun _ rest =>
  match strip_prefix [mark; mark] rest with
  | None => None
  | Some r1 =>
      match lazy_plus_until [mark; mark] r1 with
      | Some body => Some ([body], (2 + length body + 2)%nat)
      | None => None
      end
  end.

(** Line 719: three newlines or more. *)
Definition blank_lines_re : matcher := fun _ rest =>
  let run := fst (span (is_char NL) rest) in
  if (3 <=? length run)%nat then Some ([], length run) else None.

(** Line 724: one star, underscore or tilde. *)
Definition marker_re : matcher := fun _ rest =>
  match rest with
  | c :: _ =>
      if char_eqb c (chr "*") || char_eqb c (chr "_") || char_eqb c (chr "~")
      then Some ([], 1%nat) else None
  | [] => None
  end.

(** [code_blocks[placeholder] = code] on a dict that keeps insertion
    order. *)
Fixpoint dict_set (d : list (pystr * pystr)) (k v : pystr) : list (pystr * pystr) :=
  match d with
  | [] => [(k, v)]
  | (k', v') :: d' =>
      if decide (k' = k) then (k, v) :: d' else (k', v') :: dict_set d' k v
  end.

(** The two closures share [placeholder_counter] and [code_blocks]. *)
Definition extraction_state : Type := nat * list (pystr * pystr).

Definition extract_code_block (st : extraction_state) (groups : list pystr)
    : extraction_state * pystr :=
  let '(placeholder_counter, code_blocks) := st in
  let placeholder := str "@@CODEBLOCK_" ++ decimal placeholder_counter ++ str "@@" in
  ((Datatypes.S placeholder_counter, dict_set code_blocks placeholder (group 1 groups)),
   placeholder).

Definition extract_inline_code (st : extraction_state) (groups : list pystr)
    : extraction_state * pystr :=
  let '(placeholder_counter, code_blocks) := st in
  let placeholder := str "@@INLINECODE_" ++ decimal placeholder_counter ++ str "@@" in
  ((Datatypes.S placeholder_counter, dict_set code_blocks placeholder (group 1 groups)),
   placeholder).

Definition replace_link (groups : list pystr) : pystr :=
  let label := group 1 groups in
  let url := group 2 groups in
  let safe_url := html_escape url true in
  str "<a href=" ++ [DQUOTE] ++ safe_url ++ [DQUOTE] ++ str ">" ++ label ++ str "</a>".

(** The loop that puts the code back, over [code_blocks.items()]. *)
Fixpoint restore_code (code_blocks : list (pystr * pystr)) (text : pystr) : pystr :=
  match code_blocks with
  | [] => text
  | (placeholder, code) :: more =>
      let escaped := html_escape code false in
      let replacement :=
        if starts_with (str "@@CODEBLOCK_") placeholder
        then str "<pre>" ++ escaped ++ str "</pre>"
        else str "<code>" ++ escaped ++ str "</code>" in
      restore_code more (replace placeholder replacement text)
  end.

Definition WORD_JOINER : char := 8288%N.

Definition markdown_to_telegram_html (text : pystr) : pystr :=
  match text with
  | [] => []
  | _ :: _ =>
      let '(st1, text) := re_sub_state code_block_re extract_code_block (O, []) text in
      let '((_, code_blocks), text) := re_sub_state inline_code_re extract_inline_code st1 text in
      let text := html_escape text false in
      let text := re_sub link_re replace_link text in
      let text := re_sub heading_re
                    (fun g => str "<b>" ++ group 2 g ++ str "</b>" ++ [NL]) text in
      let text := re_sub (doubled_re (chr "*"))
                    (fun g => str "<b>" ++ group 1 g ++ str "</b>") text in
      let text := re_sub (doubled_re (chr "_"))
                    (fun g => str "<u>" ++ group 1 g ++ str "</u>") text in
      let text := re_sub (single_re (chr "*"))
                    (fun g => str "<i>" ++ group 1 g ++ str "</i>") text in
      let text := re_sub (single_re (chr "_"))
                    (fun g => str "<i>" ++ group 1 g ++ str "</i>") text in
      let text := re_sub (lazy_pair_re (chr "~"))
                    (fun g => [SP] ++ group 1 g ++ [WORD_JOINER; SP]) text in
      let text := re_sub (lazy_pair_re (chr "|"))
                    (fun g => str "<tg-spoiler>" ++ group 1 g ++ str "</tg-spoiler>") text in
      let text := restore_code code_blocks text in
      let text := re_sub blank_lines_re (fun _ => [NL; NL]) text in
      let text := strip text in
      let text := re_sub marker_re (fun _ => []) text in
      text
  end.

End Transcode.

End Transcoder.

(** ** The quota ledger (main.py, lines 500-600)

    The [users] table is a finite map from the user id to the row.  An
    instant is a number of microseconds since the epoch, in UTC; a date is
    a day number. *)

Module Quota.

(** [subscription_status], which the schema restricts to two texts. *)
Inductive status := active | inactive.

(** The value that [get_user] hands back for [subscription_expires]: an
    instance of [datetime.datetime] (a naive one is read as UTC by the
    caller), or anything else: [None] for NULL, or the text that SQLite
    keeps in a TIMESTAMP column. *)
Inductive expiry :=
  | expires_at (instant : Z)
  | expires_other.

(** The value of [last_free_reset_date]: a [datetime.date] (PostgreSQL),
    a text (SQLite), or neither (NULL). *)
Inductive reset_date :=
  | reset_on (day : Z)
  | reset_text (iso : pystr)
  | reset_missing.

Record user := {
  free_messages_today : Z;
  last_free_reset_date : reset_date;
  subscription_status : status;
  subscription_expires : expiry;
  is_admin : bool;
  last_active_date : Z;
}.

Definition MICROSECONDS_PER_DAY : Z := 86400000000.

(** [now.date()] *)
Definition date_of (now : Z) : Z := now / MICROSECONDS_PER_DAY.

Section Ledger.

(** [settings.USE_SQLITE], and the two conversions of [datetime.date] that
    the standard library provides: [isoformat] and [fromisoformat], the
    latter answering [None] where Python raises ValueError. *)
Variable USE_SQLITE : bool.
Variable isoformat : Z -> pystr.
Variable fromisoformat : pystr -> option Z.

(** How a date is written to the row: as text under SQLite. *)
Definition stored_date (day : Z) : reset_date :=
  if USE_SQLITE then reset_text (isoformat day) else reset_on day.

(** [update_user_limits]: an UPDATE of the row, if there is one; the date
    is written only when the caller passes it. *)
Definition update_user_limits (user_id : Z) (free : Z)
    (date : option Z) (users : gmap Z user) : gmap Z user :=
  alter (fun u =>
    {| free_messages_today := free;
       last_free_reset_date :=
         match date with
         | Some day => stored_date day
         | None => last_free_reset_date u
         end;
       subscription_status := subscription_status u;
       subscription_expires := subscription_expires u;
       is_admin := is_admin u;
       last_active_date := last_active_date u |}) user_id users.

(** [deactivate_subscription] *)
Definition deactivate_subscription (user_id : Z) (users : gmap Z user) : gmap Z user :=
  alter (fun u =>
    {| free_messages_today := free_messages_today u;
       last_free_reset_date := last_free_reset_date u;
       subscription_status := inactive;
       subscription_expires := expires_other;
       is_admin := is_admin u;
       last_active_date := last_active_date u |}) user_id users.

(** [check_and_consume_limit]: the answer and the table afterwards.
    [user_data] is the row as read at the start; the function does not
    read it again. *)
Definition check_and_consume_limit (now : Z) (user_id : Z)
    (users : gmap Z user) : bool * gmap Z user :=
  match users !! user_id with
  | None => (false, users)
  | Some user_data =>
      if is_admin user_data then (true, users)
      else
        let today := date_of now in
        let '(is_sub, users) :=
          match subscription_status user_data with
          | active =>
              match subscription_expires user_data with
              | expires_at sub_exp =>
                  if sub_exp >? now then (true, users)
                  else (false, deactivate_subscription user_id users)
              | expires_other => (false, users)
              end
          | inactive => (false, users)
          end in
        if is_sub then (true, users)
        else
          let raw_date := last_free_reset_date user_data in
          let last_date :=
            match raw_date with
            | reset_on day => Some day
            | reset_text iso =>
                match fromisoformat iso with
                | Some day => Some day
                | None => Some (today - 1)
                end
            | reset_missing => None
            end in
          let limit := free_messages_today user_data in
          let '(limit, users) :=
            if match last_date with
               | None => true
               | Some day => day <? today
               end
            then (7, update_user_limits user_id 7 (Some today) users)
            else (limit, users) in
          if limit >? 0
          then (true, update_user_limits user_id (limit - 1) None users)
          else (false, users)
  end.

(** The two conditions of the claim, on a row. *)
Definition subscribed (now : Z) (u : user) : bool :=
  match subscription_status u, subscription_expires u with
  | active, expires_at t => now <? t
  | _, _ => false
  end.

Definition expired (now : Z) (u : user) : bool :=
  match subscription_status u, subscription_expires u with
  | active, expires_at t => t <=? now
  | _, _ => false
  end.

(** The stored reset date is missing, does not parse, or lies before
    today. *)
Definition stale (now : Z) (u : user) : bool :=
  match last_free_reset_date u with
  | reset_on day => day <? date_of now
  | reset_text iso =>
      match fromisoformat iso with
      | Some day => day <? date_of now
      | None => true
      end
  | reset_missing => true
  end.

End Ledger.

End Quota.

(** ** The handlers and the world they run in

    A handler is a coroutine: it runs on its own between two [await]s and
    at each [await] the outside world answers.  The world is scripted:
    [script] lists the outcomes of the awaits to come (an await past the
    end of the script succeeds), [provider] what the generation provider
    will yield, [clock] the readings of [time.monotonic()] in
    milliseconds.  [calls] is the record of what was asked of the
    outside, with the outcome.  What a handler raises, returns early or
    falls through with is the [res] of running it. *)

Module Bot.
Import Quota.

(** The exceptions that the handlers tell apart.  [TelegramRetryAfter]
    is a subclass of [TelegramAPIError]; [message] is [str(e).lower()];
    [CancelledError] is not a subclass of [Exception]. *)
Inductive exn :=
  | TelegramRetryAfter (retry_after : Z)
  | TelegramAPIError (message : pystr)
  | OtherException
  | CancelledError.

Definition is_TelegramAPIError (e : exn) : bool :=
  match e with
  | TelegramRetryAfter _ | TelegramAPIError _ => true
  | OtherException | CancelledError => false
  end.

Definition is_Exception (e : exn) : bool :=
  match e with
  | CancelledError => false
  | _ => true
  end.

Inductive outcome :=
  | succeeds
  | fails (e : exn).

(** [parse_mode]: left out (the default of the bot), [None], or HTML. *)
Inductive parse_mode := mode_default | mode_none | mode_html.

Inductive reply_markup :=
  | no_markup
  | progress_keyboard (user_id : Z)
  | main_menu_keyboard
  | subscribe_button.

(** The fixed texts of the source, by name. *)
Inductive notice :=
  | hourglass | dots | salute
  | busy_notice | quota_notice | quota_notice_media | no_answer_notice
  | error_notice | error_notice_retry
  | internal_error (code : string)
  | image_prompt_error
  | analysing_notice | photo_error_notice | cannot_show_notice
  | cancel_parse_error | cancelled_notice.

(** What a message shows: a text computed from the answer, or a fixed
    one. *)
Inductive body :=
  | text (s : pystr)
  | fixed (n : notice).

Inductive role := role_user | role_assistant.

Record turn := { turn_user : Z; turn_role : role; turn_content : pystr }.

Definition task := nat.

Inductive query :=
  | q_get_user (user_id : Z)
  | q_update_user_last_active (user_id : Z)
  | q_add_user (user_id : Z)
  | q_add_message (user_id : Z) (r : role) (content : pystr)
  | q_get_last_messages (user_id : Z)
  | q_check_and_consume_limit (user_id : Z)
  | q_restore_limit (user_id : Z).

Inductive call :=
  | send_chat_action
  | message_answer (b : body) (mode : parse_mode) (markup : reply_markup)
  | message_reply (b : body) (markup : reply_markup)
  | message_reply_photo (markup : reply_markup)
  | edit_message_text (message_id : option positive) (b : body)
      (mode : parse_mode) (markup : reply_markup)
  | edit_message_reply_markup (message_id : option positive) (markup : reply_markup)
  | callback_answer (b : body) (show_alert : bool)
  | callback_edit_reply_markup (markup : reply_markup)
  | images_generate (prompt : pystr)
  | get_file
  | download_file
  | chat_completions_create (history : list (role * pystr))
  | asyncio_sleep (milliseconds : Z)
  | task_cancel (t : task)
  | database (q : query).

(** One item of the provider's stream: a fragment, or the exception that
    ends the stream. *)
Inductive fragment_event :=
  | fragment (chunk : pystr)
  | provider_raises (e : exn).

Record world := {
  active_requests : gmap Z task;
  pending_photo_prompts : gset Z;
  workflow_data : bool * bool;
  users : gmap Z user;
  conversations : list turn;
  last_edit : gmap Z Z;
  provider : list fragment_event;
  utc_now : Z;
  clock : list Z;
  script : list outcome;
  calls : list (call * outcome);
  next_message_id : positive;
  current_message_id : option positive;
}.

Definition set_active_requests (v : gmap Z task) (w : world) : world :=
  {| active_requests := v; pending_photo_prompts := pending_photo_prompts w;
     workflow_data := workflow_data w; users := users w;
     conversations := conversations w; last_edit := last_edit w;
     provider := provider w; utc_now := utc_now w; clock := clock w;
     script := script w; calls := calls w;
     next_message_id := next_message_id w;
     current_message_id := current_message_id w |}.

Definition set_pending_photo_prompts (v : gset Z) (w : world) : world :=
  {| active_requests := active_requests w; pending_photo_prompts := v;
     workflow_data := workflow_data w; users := users w;
     conversations := conversations w; last_edit := last_edit w;
     provider := provider w; utc_now := utc_now w; clock := clock w;
     script := script w; calls := calls w;
     next_message_id := next_message_id w;
     current_message_id := current_message_id w |}.

Definition set_users (v : gmap Z user) (w : world) : world :=
  {| active_requests := active_requests w;
     pending_photo_prompts := pending_photo_prompts w;
     workflow_data := workflow_data w; users := v;
     conversations := conversations w; last_edit := last_edit w;
     provider := provider w; utc_now := utc_now w; clock := clock w;
     script := script w; calls := calls w;
     next_message_id := next_message_id w;
     current_message_id := current_message_id w |}.

Definition set_conversations (v : list turn) (w : world) : world :=
  {| active_requests := active_requests w;
     pending_photo_prompts := pending_photo_prompts w;
     workflow_data := workflow_data w; users := users w;
     conversations := v; last_edit := last_edit w;
     provider := provider w; utc_now := utc_now w; clock := clock w;
     script := script w; calls := calls w;
     next_message_id := next_message_id w;
     current_message_id := current_message_id w |}.

Definition set_last_edit (v : gmap Z Z) (w : world) : world :=
  {| active_requests := active_requests w;
     pending_photo_prompts := pending_photo_prompts w;
     workflow_data := workflow_data w; users := users w;
     conversations := conversations w; last_edit := v;
     provider := provider w; utc_now := utc_now w; clock := clock w;
     script := script w; calls := calls w;
     next_message_id := next_message_id w;
     current_message_id := current_message_id w |}.

Definition set_clock (v : list Z) (w : world) : world :=
  {| active_requests := active_requests w;
     pending_photo_prompts := pending_photo_prompts w;
     workflow_data := workflow_data w; users := users w;
     conversations := conversations w; last_edit := last_edit w;
     provider := provider w; utc_now := utc_now w; clock := v;
     script := script w; calls := calls w;
     next_message_id := next_message_id w;
     current_message_id := current_message_id w |}.

(** One await answered: the call and its outcome go to the record and the
    script moves on. *)
Definition answered (c : call) (o : outcome) (w : world) : world :=
  {| active_requests := active_requests w;
     pending_photo_prompts := pending_photo_prompts w;
     workflow_data := workflow_data w; users := users w;
     conversations := conversations w; last_edit := last_edit w;
     provider := provider w; utc_now := utc_now w; clock := clock w;
     script := tail (script w); calls := calls w ++ [(c, o)];
     next_message_id := next_message_id w;
     current_message_id := current_message_id w |}.

Definition set_next_message_id (v : positive) (w : world) : world :=
  {| active_requests := active_requests w;
     pending_photo_prompts := pending_photo_prompts w;
     workflow_data := workflow_data w; users := users w;
     conversations := conversations w; last_edit := last_edit w;
     provider := provider w; utc_now := utc_now w; clock := clock w;
     script := script w; calls := calls w;
     next_message_id := v;
     current_message_id := current_message_id w |}.

Definition set_current_message_id (v : option positive) (w : world) : world :=
  {| active_requests := active_requests w;
     pending_photo_prompts := pending_photo_prompts w;
     workflow_data := workflow_data w; users := users w;
     conversations := conversations w; last_edit := last_edit w;
     provider := provider w; utc_now := utc_now w; clock := clock w;
     script := script w; calls := calls w;
     next_message_id := next_message_id w;
     current_message_id := v |}.

(** *** The coroutine monad *)

Inductive res (A : Type) :=
  | Val (a : A)
  | Return
  | Raise (e : exn).
Arguments Val {A} a.
Arguments Return {A}.
Arguments Raise {A} e.

Definition M (A : Type) : Type := world -> res A * world.

Definition ret {A} (a : A) : M A := fun w => (Val a, w).

Definition bind {A B} (c : M A) (k : A -> M B) : M B := fun w =>
  match c w with
  | (Val a, w') => k a w'
  | (Return, w') => (Return, w')
  | (Raise e, w') => (Raise e, w')
  end.

Declare Scope coroutine_scope.
Delimit Scope coroutine_scope with M.
Bind Scope coroutine_scope with M.
Notation "x <- c ; k" := (bind c (fun x => k))
  (at level 100, c at next level, right associativity) : coroutine_scope.
Notation "c ;; k" := (bind c (fun _ => k))
  (at level 100, right associativity) : coroutine_scope.
Local Open Scope coroutine_scope.

Definition gets {A} (f : world -> A) : M A := fun w => (Val (f w), w).
Definition modify (f : world -> world) : M unit := fun w => (Val tt, f w).
Definition raise {A} (e : exn) : M A := fun w => (Raise e, w).

(** [return] in the middle of a handler. *)
Definition early_return {A} : M A := fun w => (Return, w).

(** [await]: the head of the script decides; on success [effect] is what
    the awaited operation does and answers. *)
Definition await_with {A} (c : call) (effect : world -> A * world) : M A := fun w =>
  match script w with
  | fails e :: _ => (Raise e, answered c (fails e) w)
  | _ => let '(a, w') := effect (answered c succeeds w) in (Val a, w')
  end.

Definition await (c : call) : M unit := await_with c (fun w => (tt, w)).

(** Sending a message answers the message, whose id is fresh. *)
Definition send (c : call) : M positive :=
  await_with c (fun w =>
    (next_message_id w, set_next_message_id (Pos.succ (next_message_id w)) w)).

(** A call that is not awaited. *)
Definition perform (c : call) : M unit := fun w =>
  (Val tt, {| active_requests := active_requests w;
     pending_photo_prompts := pending_photo_prompts w;
     workflow_data := workflow_data w; users := users w;
     conversations := conversations w; last_edit := last_edit w;
     provider := provider w; utc_now := utc_now w; clock := clock w;
     script := script w; calls := calls w ++ [(c, succeeds)];
     next_message_id := next_message_id w;
     current_message_id := current_message_id w |}).

(** [time.monotonic()], in milliseconds. *)
Definition monotonic : M Z := fun w =>
  match clock w with
  | t :: later => (Val t, set_clock later w)
  | [] => (Val 0, w)
  end.

(** [try: body except ...: handler]: [handler e] is [None] when no clause
    matches [e]. *)
Definition try_except {A} (body : M A) (handler : exn -> option (M A)) : M A := fun w =>
  match body w with
  | (Raise e, w') =>
      match handler e with
      | Some h => h w'
      | None => (Raise e, w')
      end
  | r => r
  end.

(** [try: body finally: cleanup] *)
Definition try_finally {A} (body : M A) (cleanup : M unit) : M A := fun w =>
  let '(r, w1) := body w in
  match cleanup w1 with
  | (Val _, w2) => (r, w2)
  | (Return, w2) => (Return, w2)
  | (Raise e, w2) => (Raise e, w2)
  end.

Definition except_Exception {A} (h : M A) : exn -> option (M A) :=
  fun e => if is_Exception e then Some h else None.

Definition except_TelegramAPIError {A} (h : M A) : exn -> option (M A) :=
  fun e => if is_TelegramAPIError e then Some h else None.

(** *** The persistence collaborator *)

Definition CONVERSATION_HISTORY_LIMIT : nat := 5.

(** The clean-up that follows every INSERT: of the turns of [user_id]
    only the [n] most recent survive, the turns of the other users all
    do.  The list is walked from the newest turn on; insertion order
    stands for the order of the time stamps.  That is the order of the
    SQL (ORDER BY timestamp DESC, lines 314-323 and 366-375) as long as
    no two turns of a user carry the same time stamp; the time stamp has
    a resolution of one second under SQLite, and which of two tied rows
    the SQL puts first is not modelled. *)
Fixpoint keep_recent (user_id : Z) (n : nat) (newest_first : list turn) : list turn :=
  match newest_first with
  | [] => []
  | t :: older =>
      if turn_user t =? user_id then
        match n with
        | O => keep_recent user_id O older
        | S n' => t :: keep_recent user_id n' older
        end
      else t :: keep_recent user_id n older
  end.

Definition insert_message (user_id : Z) (r : role) (content : pystr)
    (turns : list turn) : list turn :=
  let t := {| turn_user := user_id; turn_role := r; turn_content := content |} in
  rev (keep_recent user_id CONVERSATION_HISTORY_LIMIT (rev (turns ++ [t]))).

(** SELECT ... ORDER BY timestamp DESC LIMIT, then reversed; in insertion
    order, with the same proviso about tied time stamps. *)
Definition last_messages (user_id : Z) (limit : nat) (turns : list turn)
    : list (role * pystr) :=
  rev (List.map (fun t => (turn_role t, turn_content t))
         (take limit (List.filter (fun t => turn_user t =? user_id) (rev turns)))).

Definition touch (now : Z) (u : user) : user :=
  {| free_messages_today := free_messages_today u;
     last_free_reset_date := last_free_reset_date u;
     subscription_status := subscription_status u;
     subscription_expires := subscription_expires u;
     is_admin := is_admin u;
     last_active_date := now |}.

Section Handlers.

Variable USE_SQLITE : bool.
Variable isoformat : Z -> pystr.
Variable fromisoformat : pystr -> option Z.

(** [markdown_to_telegram_html] as the handlers call it: [None] when the
    call raises. *)
Variable transcode : pystr -> option pystr.

(** The row that INSERT writes for a new user. *)
Definition new_user (now : Z) : user :=
  {| free_messages_today := 7;
     last_free_reset_date := stored_date USE_SQLITE isoformat (date_of now);
     subscription_status := inactive;
     subscription_expires := expires_other;
     is_admin := false;
     last_active_date := now |}.

Definition get_user (user_id : Z) : M (option user) :=
  await_with (database (q_get_user user_id)) (fun w => (users w !! user_id, w)).

Definition update_user_last_active (user_id : Z) : M unit :=
  try_except
    (await_with (database (q_update_user_last_active user_id))
       (fun w => (tt, set_users (alter (touch (utc_now w)) user_id (users w)) w)))
    (except_Exception (ret tt)).

(** [add_user_sqlite] and [add_user_postgres]: INSERT ... ON CONFLICT DO
    NOTHING, then the row is read back; a failure answers [None].  The
    clause of [add_user_sqlite] catches every [Exception]; that of
    [add_user_postgres] (line 477) catches [asyncpg.PostgresError], which
    is taken here for the only exception that the two statements raise
    under PostgreSQL. *)
Definition add_user (user_id : Z) : M (option user) :=
  try_except
    (await_with (database (q_add_user user_id))
       (fun w =>
          (tt, match users w !! user_id with
               | Some _ => w
               | None => set_users (<[user_id := new_user (utc_now w)]> (users w)) w
               end)) ;;
     get_user user_id)
    (except_Exception (ret None)).

Definition get_or_create_user (user_id : Z) : M (option user) :=
  user_data <- get_user user_id ;
  match user_data with
  | Some u => update_user_last_active user_id ;; ret (Some u)
  | None => add_user user_id
  end.

Definition add_message_to_db (user_id : Z) (r : role) (content : pystr) : M unit :=
  await_with (database (q_add_message user_id r content))
    (fun w => (tt, set_conversations (insert_message user_id r content (conversations w)) w)).

Definition get_last_messages (user_id : Z) : M (list (role * pystr)) :=
  try_except
    (await_with (database (q_get_last_messages user_id))
       (fun w => (last_messages user_id CONVERSATION_HISTORY_LIMIT (conversations w), w)))
    (except_Exception (ret [])).

(** [await check_and_consume_limit(db, settings, user_id)], as one
    step. *)
Definition await_check_and_consume_limit (user_id : Z) : M bool :=
  await_with (database (q_check_and_consume_limit user_id))
    (fun w =>
       let '(ok, users') :=
         Quota.check_and_consume_limit USE_SQLITE isoformat fromisoformat
           (utc_now w) user_id (users w) in
       (ok, set_users users' w)).

(** [active_requests.pop(user_id, None)] *)
Definition pop_active_request (user_id : Z) : M (option task) := fun w =>
  (Val (active_requests w !! user_id),
   set_active_requests (delete user_id (active_requests w)) w).

Definition has_workflow_data : M bool :=
  gets (fun w => fst (workflow_data w) && snd (workflow_data w)).

(** *** [message_handler] (main.py, lines 818-1107) *)

(** The local variables of the streaming part (lines 897-903).
    [current_message_id] is not among them: it is declared before the
    [try] so that the [except] clause sees the value it had when the
    exception was raised, and lives in the world.  [finalized] is not a
    variable of the source: it keeps the raw text that each unit held
    when the stream moved on to the next one, for the statements about
    segments. *)
Record loop_state := {
  full_raw_response : pystr;
  current_message_text : pystr;
  message_count : Z;
  last_edit_time : Z;
  formatting_failed : bool;
  finalized : list pystr;
}.

Definition set_full_raw_response (v : pystr) (st : loop_state) : loop_state :=
  {| full_raw_response := v; current_message_text := current_message_text st;
     message_count := message_count st; last_edit_time := last_edit_time st;
     formatting_failed := formatting_failed st; finalized := finalized st |}.

Definition set_current_message_text (v : pystr) (st : loop_state) : loop_state :=
  {| full_raw_response := full_raw_response st; current_message_text := v;
     message_count := message_count st; last_edit_time := last_edit_time st;
     formatting_failed := formatting_failed st; finalized := finalized st |}.

Definition set_last_edit_time (v : Z) (st : loop_state) : loop_state :=
  {| full_raw_response := full_raw_response st;
     current_message_text := current_message_text st;
     message_count := message_count st; last_edit_time := v;
     formatting_failed := formatting_failed st; finalized := finalized st |}.

Definition set_formatting_failed (v : bool) (st : loop_state) : loop_state :=
  {| full_raw_response := full_raw_response st;
     current_message_text := current_message_text st;
     message_count := message_count st; last_edit_time := last_edit_time st;
     formatting_failed := v; finalized := finalized st |}.

(** Lines 964-965, with the raw text of the unit left behind noted. *)
Definition start_next_message (chunk : pystr) (st : loop_state) : loop_state :=
  {| full_raw_response := full_raw_response st;
     current_message_text := chunk;
     message_count := message_count st + 1; last_edit_time := last_edit_time st;
     formatting_failed := formatting_failed st;
     finalized := finalized st ++ [current_message_text st] |}.

(** 1.5 seconds *)
Definition edit_interval : Z := 1500.

Definition ELLIPSIS : pystr := str "...".

(** [markdown_to_telegram_html(s) if not formatting_failed else s] *)
Definition render (st : loop_state) (s : pystr) : M pystr :=
  if formatting_failed st then ret s
  else match transcode s with
       | Some html => ret html
       | None => raise OtherException
       end.

(** [None if formatting_failed else ParseMode.HTML] *)
Definition mode_of (st : loop_state) : parse_mode :=
  if formatting_failed st then mode_none else mode_html.

Definition contains (needle haystack : pystr) : bool :=
  match Re.find_sub needle haystack with
  | Some _ => true
  | None => false
  end.

(** Line 1004 *)
Definition no_longer_editable (message : pystr) : bool :=
  contains (str "message to edit not found") message
  || contains (str "message can't be edited") message
  || contains (str "message is not modified") message.

Inductive step := continue (st : loop_state) | break (st : loop_state).

(** Lines 938-961: the unit that overflows is given its last text. *)
Definition finalize_overflowing (user_id : Z) (message_id : option positive)
    (st : loop_state) : M loop_state :=
  try_except
    (final_part_html <- render st (current_message_text st) ;
     match final_part_html with
     | [] => ret st
     | _ :: _ =>
         await (edit_message_text message_id (text final_part_html) (mode_of st)
                  (progress_keyboard user_id)) ;;
         ret st
     end)
    (except_TelegramAPIError
       (if negb (formatting_failed st) then
          let st := set_formatting_failed true st in
          try_except
            (match current_message_text st with
             | [] => ret st
             | _ :: _ =>
                 await (edit_message_text message_id (text (current_message_text st))
                          mode_none no_markup) ;;
                 ret st
             end)
            (except_TelegramAPIError
               (modify (set_current_message_id None) ;; ret st))
        else
          modify (set_current_message_id None) ;; ret st)).

(** Lines 964-977: the cancel button is taken off the old unit and the
    next unit is opened, in one [try]. *)
Definition open_next_message (user_id : Z) (chunk : pystr) (st : loop_state) : M step :=
  let st := start_next_message chunk st in
  try_except
    (message_id <- gets current_message_id ;
     await (edit_message_reply_markup message_id no_markup) ;;
     new_id <- send (message_answer (fixed dots) mode_default (progress_keyboard user_id)) ;
     modify (set_current_message_id (Some new_id)) ;;
     t <- monotonic ;
     ret (continue (set_last_edit_time t st)))
    (except_TelegramAPIError
       (modify (set_current_message_id None) ;; ret (break st))).

(** Lines 984-1013: the throttled edit of the unit that still has room. *)
Definition edit_in_place (user_id : Z) (message_id : option positive) (now : Z)
    (st : loop_state) : M loop_state :=
  if now - last_edit_time st >? edit_interval then
    try_except
      (html_to_send <- render st (current_message_text st) ;
       let text_to_show := html_to_send ++ ELLIPSIS in
       await (edit_message_text message_id (text text_to_show) (mode_of st)
                (progress_keyboard user_id)) ;;
       ret (set_last_edit_time now st))
      (fun e =>
         match e with
         | TelegramRetryAfter retry_after =>
             Some (await (asyncio_sleep (retry_after * 1000 + 100)) ;;
                   t <- monotonic ;
                   ret (set_last_edit_time t st))
         | TelegramAPIError message =>
             Some (if no_longer_editable message then
                     modify (set_current_message_id None) ;; ret st
                   else if negb (formatting_failed st) then
                     ret (set_formatting_failed true st)
                   else ret st)
         | OtherException => Some (ret st)
         | CancelledError => None
         end)
  else ret st.

(** The body of the [async for] (lines 916-1013) for one fragment. *)
Definition stream_body (user_id : Z) (chunk : pystr) (st : loop_state) : M step :=
  message_id <- gets current_message_id ;
  match message_id with
  | None => ret (break st)
  | Some _ =>
      let st := set_full_raw_response (full_raw_response st ++ chunk) st in
      now <- monotonic ;
      let tentative_next_text := current_message_text st ++ chunk in
      let '(html_to_check, st) :=
        match transcode tentative_next_text with
        | Some html => (html ++ ELLIPSIS, st)
        | None => (tentative_next_text ++ ELLIPSIS, set_formatting_failed true st)
        end in
      if len html_to_check >? TELEGRAM_MAX_LENGTH then
        st <- finalize_overflowing user_id message_id st ;
        open_next_message user_id chunk st
      else
        let st := set_current_message_text (current_message_text st ++ chunk) st in
        st <- edit_in_place user_id message_id now st ;
        ret (continue st)
  end.

Inductive loop_exit := exhausted | broke.

(** The [async for] over what the provider yields. *)
Fixpoint stream_loop (user_id : Z) (stream : list fragment_event) (st : loop_state)
    : M (loop_exit * loop_state) :=
  match stream with
  | [] => ret (exhausted, st)
  | provider_raises e :: _ => raise e
  | fragment chunk :: later =>
      s <- stream_body user_id chunk st ;
      match s with
      | continue st' => stream_loop user_id later st'
      | break st' => ret (broke, st')
      end
  end.

(** Lines 1017-1078: the last unit after the loop. *)
Definition finalize_last (st : loop_state) : M unit :=
  message_id <- gets current_message_id ;
  match message_id, current_message_text st with
  | Some _, _ :: _ =>
      try_except
        (final_html <- render st (current_message_text st) ;
         await (edit_message_text message_id (text final_html) (mode_of st) no_markup) ;;
         await (message_answer (fixed salute) mode_default main_menu_keyboard))
        (except_TelegramAPIError
           (try_except
              (await (edit_message_text message_id (text (current_message_text st))
                        mode_none no_markup))
              (except_TelegramAPIError
                 (try_except
                    (await (message_answer (text (current_message_text st))
                              mode_none main_menu_keyboard))
                    (except_Exception (ret tt))))))
  | Some _, [] =>
      match full_raw_response st with
      | [] =>
          if message_count st =? 1 then
            try_except
              (await (edit_message_text message_id (fixed no_answer_notice)
                        mode_default no_markup) ;;
               await (message_answer (fixed salute) mode_default main_menu_keyboard))
              (except_TelegramAPIError (ret tt))
          else ret tt
      | _ :: _ => ret tt
      end
  | None, _ => ret tt
  end.

(** Lines 1081-1086 *)
Definition persist_answer (user_id : Z) (st : loop_state) : M unit :=
  match full_raw_response st with
  | [] => ret tt
  | _ :: _ =>
      try_except (add_message_to_db user_id role_assistant (full_raw_response st))
        (except_Exception (ret tt))
  end.

(** Lines 915-1087: the stream from a given point on, the last unit and
    the persisted answer. *)
Definition stream_and_finish (user_id : Z) (stream : list fragment_event)
    (st : loop_state) : M unit :=
  r <- stream_loop user_id stream st ;
  finalize_last (snd r) ;;
  persist_answer user_id (snd r).

(** Lines 897-903, once the first placeholder is out at time [t]. *)
Definition initial_loop_state (t : Z) : loop_state :=
  {| full_raw_response := []; current_message_text := [];
     message_count := 1; last_edit_time := t;
     formatting_failed := false; finalized := [] |}.

(** The body of the outer [try] (lines 877-1087). *)
Definition generation (user_id : Z) (user_text : pystr) : M unit :=
  add_message_to_db user_id role_user user_text ;;
  history <- get_last_messages user_id ;
  is_allowed <- await_check_and_consume_limit user_id ;
  if negb is_allowed then
    await (message_reply (fixed quota_notice) subscribe_button) ;;
    early_return
  else
    placed <- try_except
      (new_id <- send (message_answer (fixed hourglass) mode_default
                         (progress_keyboard user_id)) ;
       modify (set_current_message_id (Some new_id)) ;;
       t <- monotonic ;
       ret (Some t))
      (except_TelegramAPIError (ret None)) ;
    match placed with
    | None => early_return
    | Some t =>
        await (chat_completions_create history) ;;
        stream <- gets provider ;
        stream_and_finish user_id stream (initial_loop_state t)
    end.

(** Lines 1089-1099 *)
Definition report_failure : M unit :=
  try_except
    (message_id <- gets current_message_id ;
     match message_id with
     | Some _ =>
         await (edit_message_text message_id (fixed error_notice) mode_default no_markup)
     | None =>
         await (message_answer (fixed error_notice_retry) mode_default no_markup)
     end)
    (except_TelegramAPIError (ret tt)).

(** Lines 820-833: the text is the prompt of a picture. *)
Definition photo_prompt (user_id : Z) (prompt : pystr) : M unit :=
  modify (fun w => set_pending_photo_prompts (pending_photo_prompts w ∖ {[user_id]}) w) ;;
  try_except
    (await (images_generate prompt) ;;
     await (message_reply_photo main_menu_keyboard))
    (except_Exception
       (await (message_reply (fixed image_prompt_error) main_menu_keyboard))) ;;
  early_return.

Definition message_handler (me : task) (user_id : Z) (user_text : pystr) : M unit :=
  pending <- gets (fun w => bool_decide (user_id ∈ pending_photo_prompts w)) ;
  if pending then photo_prompt user_id user_text
  else
    ready <- has_workflow_data ;
    if negb ready then
      await (message_answer (fixed (internal_error "1")) mode_default no_markup) ;;
      early_return
    else
      user_data <- get_or_create_user user_id ;
      match user_data with
      | None =>
          await (message_answer (fixed (internal_error "3")) mode_default no_markup) ;;
          early_return
      | Some _ =>
          busy <- gets (fun w => bool_decide (is_Some (active_requests w !! user_id))) ;
          if busy then
            try_except
              (await (message_reply (fixed busy_notice) (progress_keyboard user_id)))
              (except_TelegramAPIError (ret tt)) ;;
            early_return
          else
            modify (fun w => set_active_requests (<[user_id := me]> (active_requests w)) w) ;;
            await send_chat_action ;;
            modify (set_current_message_id None) ;;
            try_finally
              (try_except (generation user_id user_text)
                 (except_Exception report_failure))
              (pop_active_request user_id ;; ret tt)
      end.

(** *** [photo_handler] (main.py, lines 1288-1423) *)

(** "[Изображение]", what is stored for a photo without a caption. *)
Definition IMAGE_PLACEHOLDER : pystr :=
  [91; 1048; 1079; 1086; 1073; 1088; 1072; 1078; 1077; 1085; 1080; 1077; 93]%N.

(** [globals().get(f"last_edit_{user_id}", 0)] *)
Definition last_edit_of (user_id : Z) : M Z :=
  gets (fun w => default 0 (last_edit w !! user_id)).

Definition set_last_edit_of (user_id : Z) (t : Z) : M unit :=
  modify (fun w => set_last_edit (<[user_id := t]> (last_edit w)) w).

(** The throttled preview of lines 1371-1390; the answer is whether the
    loop is left. *)
Definition photo_preview (user_id : Z) (current_msg_id : positive)
    (now : Z) (full_response : pystr) : M bool :=
  try_except
    (preview_html <- match transcode (full_response ++ ELLIPSIS) with
                     | Some html => ret html
                     | None => raise OtherException
                     end ;
     await (edit_message_text (Some current_msg_id) (text preview_html) mode_html
              (progress_keyboard user_id)) ;;
     set_last_edit_of user_id now ;;
     ret false)
    (fun e =>
       match e with
       | TelegramRetryAfter retry_after =>
           Some (await (asyncio_sleep (retry_after * 1000 + 100)) ;;
                 t <- monotonic ;
                 set_last_edit_of user_id t ;;
                 ret false)
       | TelegramAPIError message =>
           Some (ret (contains (str "message to edit not found") message))
       | OtherException | CancelledError => None
       end).

Fixpoint photo_loop (user_id : Z) (current_msg_id : positive)
    (stream : list fragment_event) (full_response : pystr) : M pystr :=
  match stream with
  | [] => ret full_response
  | provider_raises e :: _ => raise e
  | fragment chunk :: later =>
      let full_response := full_response ++ chunk in
      now <- monotonic ;
      last_edit_time <- last_edit_of user_id ;
      if now - last_edit_time >? edit_interval then
        leave <- photo_preview user_id current_msg_id now full_response ;
        if leave then ret full_response
        else photo_loop user_id current_msg_id later full_response
      else photo_loop user_id current_msg_id later full_response
  end.

(** Lines 1393-1411 *)
Definition photo_finalize (current_msg_id : positive) (full_response : pystr) : M unit :=
  try_except
    (final_html <- match transcode full_response with
                   | Some html => ret html
                   | None => raise OtherException
                   end ;
     await (edit_message_text (Some current_msg_id) (text final_html) mode_html no_markup) ;;
     await (message_answer (fixed salute) mode_default main_menu_keyboard))
    (except_TelegramAPIError
       (try_except
          (await (edit_message_text (Some current_msg_id) (text full_response)
                    mode_default no_markup) ;;
           await (message_answer (fixed salute) mode_default main_menu_keyboard))
          (except_Exception
             (await (message_reply (fixed cannot_show_notice) no_markup))))).

(** The body of the [try] (lines 1321-1415). *)
Definition photo_generation (me : task) (user_id : Z) (caption : option pystr) : M unit :=
  busy <- gets (fun w => bool_decide (is_Some (active_requests w !! user_id))) ;
  if busy then
    await (message_reply (fixed busy_notice) (progress_keyboard user_id)) ;;
    early_return
  else
    await get_file ;;
    await download_file ;;
    history <- get_last_messages user_id ;
    add_message_to_db user_id role_user
      match caption with
      | Some (c :: s) => c :: s
      | Some [] | None => IMAGE_PLACEHOLDER
      end ;;
    modify (fun w => set_active_requests (<[user_id := me]> (active_requests w)) w) ;;
    current_msg_id <- send (message_reply (fixed analysing_notice)
                              (progress_keyboard user_id)) ;
    await (chat_completions_create history) ;;
    stream <- gets provider ;
    full_response <- photo_loop user_id current_msg_id stream [] ;
    photo_finalize current_msg_id full_response ;;
    match full_response with
    | [] => ret tt
    | _ :: _ => add_message_to_db user_id role_assistant full_response
    end.

Definition photo_handler (me : task) (user_id : Z) (caption : option pystr) : M unit :=
  ready <- has_workflow_data ;
  if negb ready then
    await (message_reply (fixed (internal_error "1p")) no_markup) ;;
    early_return
  else
    user_data <- get_or_create_user user_id ;
    match user_data with
    | None =>
        await (message_reply (fixed (internal_error "3p")) no_markup) ;;
        early_return
    | Some _ =>
        is_allowed <- await_check_and_consume_limit user_id ;
        if negb is_allowed then
          await (message_reply (fixed quota_notice_media) subscribe_button) ;;
          early_return
        else
          try_finally
            (try_except (photo_generation me user_id caption)
               (except_Exception
                  (await (message_reply (fixed photo_error_notice) no_markup))))
            (pop_active_request user_id ;;
             modify (fun w => set_last_edit (delete user_id (last_edit w)) w))
    end.

(** *** [cancel_generation_callback] (main.py, lines 1110-1161)

    [parsed] is the user id read off the callback data, [None] when
    [int] raises ValueError. *)

(** UPDATE users SET free_messages_today = free_messages_today + 1 *)
Definition restore_one (u : user) : user :=
  {| free_messages_today := free_messages_today u + 1;
     last_free_reset_date := last_free_reset_date u;
     subscription_status := subscription_status u;
     subscription_expires := subscription_expires u;
     is_admin := is_admin u;
     last_active_date := last_active_date u |}.

Definition restore_limit (user_id : Z) : M unit :=
  await_with (database (q_restore_limit user_id))
    (fun w => (tt, set_users (alter restore_one user_id (users w)) w)).

Definition cancel_generation_callback (parsed : option Z) : M unit :=
  match parsed with
  | None =>
      await (callback_answer (fixed cancel_parse_error) true) ;;
      early_return
  | Some user_id_to_cancel =>
      t <- pop_active_request user_id_to_cancel ;
      match t with
      | Some running =>
          perform (task_cancel running) ;;
          ready <- has_workflow_data ;
          if ready then
            try_except (restore_limit user_id_to_cancel) (except_Exception (ret tt))
          else ret tt
      | None => ret tt
      end ;;
      try_except (await (callback_edit_reply_markup no_markup))
        (except_TelegramAPIError (ret tt)) ;;
      await (callback_answer (fixed cancelled_notice) false) ;;
      await (message_answer (fixed salute) mode_default main_menu_keyboard)
  end.

End Handlers.

(** *** Statements about runs

    [emits P c]: whatever the world, every call that [c] adds to the
    record satisfies [P].  [yields Q c]: when [c] falls through with a
    value, the value satisfies [Q].  [keeps f c]: [c] leaves the
    component [f] of the world as it found it. *)

Definition emits {A} (P : call * outcome -> Prop) (c : M A) : Prop :=
  forall w, exists new, calls (snd (c w)) = calls w ++ new /\ Forall P new.

Definition yields {A} (Q : A -> Prop) (c : M A) : Prop :=
  forall w a w', c w = (Val a, w') -> Q a.

Definition keeps {A B} (f : world -> B) (c : M A) : Prop :=
  forall w, f (snd (c w)) = f w.

(** [db and settings_local] of the cancel callback. *)
Definition ready (w : world) : bool := fst (workflow_data w) && snd (workflow_data w).

(** The next await is not answered by an exception. *)
Definition next_await_succeeds (w : world) : bool :=
  match script w with
  | fails _ :: _ => false
  | _ => true
  end.

(** [logs L c]: whatever the world, what [c] adds to the record is a
    list in [L]. *)
Definition logs {A} (L : list (call * outcome) -> Prop) (c : M A) : Prop :=
  forall w, exists new, calls (snd (c w)) = calls w ++ new /\ L new.

(** The call that opens the next unit of a generation (line 970). *)
Definition opens_unit (ev : call * outcome) : Prop :=
  exists mode markup, fst ev = message_answer (fixed dots) mode markup.

(** Records in which every call that opens a next unit comes right after
    a removal of the reply markup that was granted. *)
Inductive removal_first : list (call * outcome) -> Prop :=
  | removal_first_nil : removal_first []
  | removal_first_other ev l :
      ~ opens_unit ev -> removal_first l -> removal_first (ev :: l)
  | removal_first_pair message_id mode markup o l :
      removal_first l ->
      removal_first ((edit_message_reply_markup message_id no_markup, succeeds)
                     :: (message_answer (fixed dots) mode markup, o) :: l).

(** The state that a step of the loop hands on. *)
Definition state_of (s : step) : loop_state :=
  match s with
  | continue st | break st => st
  end.

(** The raw texts of the segments, in order: the units left behind and
    the current one. *)
Definition segments (st : loop_state) : list pystr :=
  finalized st ++ [current_message_text st].

(** The segments add up to the answer so far. *)
Definition segments_add_up (st : loop_state) : Prop :=
  concat (segments st) = full_raw_response st.

(** Two loop states with the same texts. *)
Definition same_text (st st' : loop_state) : Prop :=
  full_raw_response st' = full_raw_response st /\
  current_message_text st' = current_message_text st /\
  finalized st' = finalized st.

(** The raw texts that the rest of a generation can show, from a unit
    holding [cur] and a stream to come: [cur] itself; the unit grown by
    the next fragment, with the ellipsis; and what the rest can show from
    the grown unit or from a fresh unit that starts with the fragment. *)
Fixpoint raw_texts (cur : pystr) (stream : list fragment_event) (s : pystr) : Prop :=
  s = cur \/
  match stream with
  | fragment chunk :: later =>
      s = (cur ++ chunk) ++ ELLIPSIS \/
      raw_texts (cur ++ chunk) later s \/
      raw_texts chunk later s
  | _ => False
  end.

(** A call that shows a computed text shows one of [texts], unparsed. *)
Definition shows_raw (texts : pystr -> Prop) (ev : call * outcome) : Prop :=
  match fst ev with
  | edit_message_text _ (text s) mode _ => mode = mode_none /\ texts s
  | message_answer (text s) mode _ => mode = mode_none /\ texts s
  | message_reply (text s) _ => False
  | _ => True
  end.

End Bot.

(** ** Sample worlds

    The inputs at which the statements below are evaluated. *)

Module Samples.
Import Re Quota Bot.

(** A window of five characters over this text holds a newline and,
    after it, a space. *)
Definition newline_then_space : pystr :=
  str "a" ++ [NL] ++ str "b cdefgh".

(** An inline code span, and a fenced block, with markers inside. *)
Definition code_span_with_markers : pystr := str "`*bold-looking*`".

Definition fenced_snake_case : pystr :=
  str "```py" ++ [NL] ++ str "snake_case = 1" ++ [NL] ++ str "```".

Definition two_code_spans : pystr := str "`a` and `b`".

(** The transcoder that the handlers call.  The samples are ASCII, so
    the Unicode table is never asked. *)
Definition html : pystr -> option pystr :=
  fun s => Some (Transcoder.markdown_to_telegram_html (fun _ => false) s).

(** A transcoder that raises on every text. *)
Definition html_raises : pystr -> option pystr := fun _ => None.

Definition iso (day : Z) : pystr := [].

(** Knows one date: 2024-05-01, day 19844 of the epoch. *)
Definition from_iso (s : pystr) : option Z :=
  if decide (s = str "2024-05-01") then Some 19844 else None.

Definition alice : Z := 7.

(** Noon of 2024-05-02. *)
Definition noon : Z := 19845 * MICROSECONDS_PER_DAY + 43200000000.

Definition free_user (left : Z) : user :=
  {| free_messages_today := left;
     last_free_reset_date := reset_on 19845;
     subscription_status := inactive;
     subscription_expires := expires_other;
     is_admin := false;
     last_active_date := 0 |}.

Definition yesterdays_user : user :=
  {| free_messages_today := 0;
     last_free_reset_date := reset_text (str "2024-05-01");
     subscription_status := active;
     subscription_expires := expires_at (noon - 1);
     is_admin := false;
     last_active_date := 0 |}.

Definition admin_user : user :=
  {| free_messages_today := 7;
     last_free_reset_date := reset_on 19845;
     subscription_status := inactive;
     subscription_expires := expires_other;
     is_admin := true;
     last_active_date := 0 |}.

(** A world in which nothing is going on and every await succeeds. *)
Definition quiet (u : user) : world :=
  {| active_requests := ∅;
     pending_photo_prompts := ∅;
     workflow_data := (true, true);
     users := {[ alice := u ]};
     conversations := [];
     last_edit := ∅;
     provider := [];
     utc_now := noon;
     clock := [];
     script := [];
     calls := [];
     next_message_id := 1%positive;
     current_message_id := None |}.

Definition with_script (outcomes : list outcome) (w : world) : world :=
  {| active_requests := active_requests w;
     pending_photo_prompts := pending_photo_prompts w;
     workflow_data := workflow_data w; users := users w;
     conversations := conversations w; last_edit := last_edit w;
     provider := provider w; utc_now := utc_now w; clock := clock w;
     script := outcomes; calls := calls w;
     next_message_id := next_message_id w;
     current_message_id := current_message_id w |}.

(** The generation of task 1 for [alice] is in flight: her slot is
    taken (line 871) and her first unit, message 1, is out. *)
Definition in_flight (u : user) : world :=
  set_current_message_id (Some 1%positive)
    (set_next_message_id 2%positive
       (set_active_requests {[ alice := 1%nat ]} (quiet u))).

(** Six hundred [<]: 2400 characters once escaped, so that one such
    fragment fits a unit and two do not. *)
Definition wide : pystr := repeat (chr "<") 600.
Definition wide_html : pystr := concat (repeat (str "&lt;") 600).

Definition not_modified : exn :=
  TelegramAPIError (str "telegram server says - bad request: message is not modified").

Definition bad_gateway : exn := TelegramAPIError (str "bad gateway").

(** The loop state after two [wide] fragments, read at time 0. *)
Definition two_units : loop_state :=
  {| full_raw_response := wide ++ wide;
     current_message_text := wide;
     message_count := 2;
     last_edit_time := 0;
     formatting_failed := false;
     finalized := [wide] |}.

Definition degraded : loop_state :=
  {| full_raw_response := str "a";
     current_message_text := str "a";
     message_count := 1;
     last_edit_time := 0;
     formatting_failed := true;
     finalized := [] |}.

End Samples.

(** ** Words for the statements about the transcoder *)

Module Plain.
Import Re.

(** The three characters that line 724 deletes. *)
Definition is_marker (c : char) : bool :=
  char_eqb c (chr "*") || char_eqb c (chr "_") || char_eqb c (chr "~").

(** The characters with which a construct of the markup can begin:
    backtick, bracket, hash, star, underscore, tilde, bar and newline. *)
Definition TRIGGERS : pystr := str "`[#*_~|" ++ [NL].

Definition markup_free (c : char) : bool := negb (existsb (char_eqb c) TRIGGERS).

(** No white space at either end. *)
Definition no_edge_space (s : pystr) : Prop :=
  (forall c, head s = Some c -> is_space c = false) /\
  (forall c, last s = Some c -> is_space c = false).

(** A matcher that cannot match at a character other than [t]. *)
Definition starts_only_at (t : char) (m : matcher) : Prop :=
  forall prev c r, c <> t -> m prev (c :: r) = None.

End Plain.

(** What a code span may hold for the statements below: any character but
    a backtick, a newline and the three markers. *)

Module Span.
Import Re.

Definition BACKTICK : char := chr "`".

Definition code_char (c : char) : bool :=
  negb (existsb (char_eqb c) (str "`*_~" ++ [NL])).

(** What the label and the address of a link may hold for the statement
    below: no character with which a construct of the markup can begin,
    no closing bracket or parenthesis, and no apostrophe. *)
Definition link_char (c : char) : bool :=
  Plain.markup_free c && negb (existsb (char_eqb c) (str "])'")).

End Span.

(** ** [escape_markdown_v2] (main.py, lines 763-769) *)

Module Escape.
Import Re.

Definition BACKSLASH : char := 92%N.

(** The characters of the class on line 768, with the backslashes of the
    class itself removed: eighteen characters, the backslash not among
    them. *)
Definition to_escape : pystr := str "_*[]()~`>#+-=|{}.!".

Definition is_reserved (c : char) : bool := existsb (char_eqb c) to_escape.

(** One character of the class, which is also group 1. *)
Definition to_escape_re : matcher := fun _ rest =>
  match rest with
  | c :: _ => if is_reserved c then Some ([[c]], 1%nat) else None
  | [] => None
  end.

Definition escape_markdown_v2 (text : pystr) : pystr :=
  match text with
  | [] => []
  | _ :: _ => re_sub to_escape_re (fun g => [BACKSLASH] ++ group 1 g) text
  end.

(** What the substitution makes of one character, for the statements. *)
Definition escape_one (c : char) : pystr :=
  if is_reserved c then [BACKSLASH; c] else [c].

End Escape.

(** ** Privileges (main.py, lines 3605-3644) and runs of requests *)

Module Grants.
Import Quota.

Section Grants.

Variable USE_SQLITE : bool.
Variable isoformat : Z -> pystr.
Variable fromisoformat : pystr -> option Z.

(** [update_user_admin]: UPDATE users SET is_admin = ... *)
Definition update_user_admin (target_user_id : Z) (make_admin : bool)
    (users : gmap Z user) : gmap Z user :=
  alter (fun u =>
    {| free_messages_today := free_messages_today u;
       last_free_reset_date := last_free_reset_date u;
       subscription_status := subscription_status u;
       subscription_expires := subscription_expires u;
       is_admin := make_admin;
       last_active_date := last_active_date u |}) target_user_id users.

(** [update_user_subscription], run at the instant [now].  PostgreSQL
    writes [NOW() + days * INTERVAL '1 day'] to a TIMESTAMPTZ column, which
    comes back as a [datetime].  SQLite writes the value of
    [date('now', '+N days')], a text of the form YYYY-MM-DD; [get_user]
    opens its connection without any type detection, so the column comes
    back as that text, which is not a [datetime]. *)
Definition update_user_subscription (now : Z) (target_user_id : Z) (days : Z)
    (users : gmap Z user) : gmap Z user :=
  alter (fun u =>
    {| free_messages_today := free_messages_today u;
       last_free_reset_date := last_free_reset_date u;
       subscription_status := active;
       subscription_expires :=
         if USE_SQLITE then expires_other
         else expires_at (now + days * MICROSECONDS_PER_DAY);
       is_admin := is_admin u;
       last_active_date := last_active_date u |}) target_user_id users.

(** The requests of one user, one call of [check_and_consume_limit] at
    each of the given instants: the answers and the table at the end. *)
Fixpoint serve (instants : list Z) (user_id : Z) (users : gmap Z user)
    : list bool * gmap Z user :=
  match instants with
  | [] => ([], users)
  | now :: later =>
      let '(ok, users) :=
        check_and_consume_limit USE_SQLITE isoformat fromisoformat now user_id users in
      let '(oks, users) := serve later user_id users in
      (ok :: oks, users)
  end.

End Grants.

(** How many of the answers are [True]. *)
Definition granted (answers : list bool) : Z :=
  Z.of_nat (length (List.filter (fun ok : bool => ok) answers)).

(** A calendar of two days, for the examples: 2024-05-01 and 2024-05-02,
    days 19844 and 19845 of the epoch. *)
Definition calendar_isoformat (day : Z) : pystr :=
  if decide (day = 19844) then str "2024-05-01"
  else if decide (day = 19845) then str "2024-05-02"
  else [].

Definition calendar_fromisoformat (s : pystr) : option Z :=
  if decide (s = str "2024-05-01") then Some 19844
  else if decide (s = str "2024-05-02") then Some 19845
  else None.

End Grants.

(** What the world holds of one user: the row, the slot, the stored
    turns, the pending picture prompt and the time of the last preview. *)

Module Per.
Import Quota Bot.

Definition foreign (other : Z) (w : world)
    : option user * option task * list turn * bool * option Z :=
  (users w !! other,
   active_requests w !! other,
   List.filter (fun t => turn_user t =? other) (conversations w),
   bool_decide (other ∈ pending_photo_prompts w),
   last_edit w !! other).

(** A call that is a query of the database or the notice of the
    exhausted quota. *)
Definition query_or_refusal (ev : call * outcome) : Prop :=
  (exists q, fst ev = database q) \/
  fst ev = message_reply (fixed quota_notice) subscribe_button.

End Per.

(** ** Runs and rows for the statements about failures *)

Module Cases.
Import Re Quota Bot Samples.

Definition not_found : exn :=
  TelegramAPIError (str "telegram server says - bad request: message to edit not found").

(** The provider has three fragments to give.  Every await succeeds but
    the ninth, the first edit of the placeholder (line 989), which
    Telegram refuses because the message is gone.  The clock reads 0 when
    the placeholder is out and 2 seconds at the first fragment. *)
Definition three_fragments : world :=
  {| active_requests := ∅;
     pending_photo_prompts := ∅;
     workflow_data := (true, true);
     users := {[ alice := free_user 3 ]};
     conversations := [];
     last_edit := ∅;
     provider := [fragment (str "a"); fragment (str "b"); fragment (str "c")];
     utc_now := noon;
     clock := [0; 2000];
     script := repeat succeeds 8 ++ [fails not_found];
     calls := [];
     next_message_id := 1%positive;
     current_message_id := None |}.

(** The same moment seen from the loop: the placeholder is out, and the
    next await is that edit. *)
Definition placeholder_gone : world :=
  with_script [fails not_found] (set_clock [2000] (in_flight (free_user 3))).

(** A row as [get_user] returns it under SQLite: the reset date is a
    text, and so is anything stored in [subscription_expires]. *)
Definition sqlite_row (left : Z) : user :=
  {| free_messages_today := left;
     last_free_reset_date := reset_text (str "2024-05-02");
     subscription_status := inactive;
     subscription_expires := expires_other;
     is_admin := false;
     last_active_date := 0 |}.

(** The unit holds [a] and the flag is down; the clock lets the next
    edit through, and Telegram answers it with an error that is not about
    the message being gone. *)
Definition one_unit : loop_state :=
  {| full_raw_response := str "a";
     current_message_text := str "a";
     message_count := 1;
     last_edit_time := 0;
     formatting_failed := false;
     finalized := [] |}.

Definition edit_refused : world :=
  with_script [fails bad_gateway] (set_clock [2000] (in_flight (free_user 3))).

End Cases.

(** ** The flag [formatting_failed] within one step

    [raises_cleanly P raw_in flag_in flag_out c] says of the step [c],
    whatever the world: of the calls that [c] adds to the record, all but
    the first satisfy [P], and all of them when [raw_in] holds; a flag
    that is up on entry ([flag_in]) is up in the state handed on
    ([flag_out]); and when the flag goes up in [c], either [raw_in] holds
    or the first call of [c] is one that failed.  So every call that
    comes after the flag was raised satisfies [P]. *)

Module Degrade.
Import Bot.

Definition raises_cleanly {A} (P : call * outcome -> Prop) (raw_in flag_in : bool)
    (flag_out : A -> bool) (c : M A) : Prop :=
  forall w, exists new,
    calls (snd (c w)) = calls w ++ new /\
    Forall P (tail new) /\
    (raw_in = true -> Forall P new) /\
    forall a, fst (c w) = Val a ->
      (flag_in = true -> flag_out a = true) /\
      (flag_in = false -> flag_out a = true ->
       raw_in = true \/ exists c0 e rest, new = (c0, fails e) :: rest).

End Degrade.

(* ------------------------------------------------------------------ *)
(** * Properties *)

Module PyFacts.

Lemma len_nonneg s : 0 <= len s.
Proof. unfold len. lia. Qed.

Lemma len_app s t : len (s ++ t) = len s + len t.
Proof. unfold len. rewrite length_app. lia. Qed.

Lemma starts_with_spec p s : starts_with p s = true <-> exists r, s = p ++ r.
Proof.
  revert s. induction p as [|a p IH]; intros s; simpl.
  - split; eauto.
  - destruct s as [|b s]; simpl.
    + split; [discriminate | intros [r Hr]; discriminate].
    + rewrite andb_true_iff, IH. unfold char_eqb. rewrite N.eqb_eq. split.
      * intros [-> [r ->]]. eauto.
      * intros [r Hr]. injection Hr as -> ->. eauto.
Qed.

End PyFacts.

(** ** [split_text] *)

Module SplitFacts.
Import Split PyFacts Samples.

Lemma slice_glue (s : pystr) (a b : Z) :
  0 <= a <= b -> slice s a b ++ slice_from s b = slice_from s a.
Proof.
  intros H. unfold slice, slice_from.
  replace (Z.to_nat b) with (Z.to_nat a + Z.to_nat (b - a))%nat by lia.
  rewrite <- drop_drop. apply take_drop.
Qed.

Lemma len_slice (s : pystr) (a b : Z) : a <= b -> len (slice s a b) <= b - a.
Proof.
  intros H. unfold slice, len. rewrite length_take. lia.
Qed.

Lemma len_slice_from (s : pystr) (a : Z) : 0 <= a -> len (slice_from s a) = Z.max 0 (len s - a).
Proof.
  intros H. unfold slice_from, len. rewrite length_drop. lia.
Qed.

(** What the backwards scan returns, for the window [start .. e - 1]. *)
Lemma find_break_spec (text : pystr) (n : nat) : forall e start,
  start = e - Z.of_nat n ->
  let r := find_break text (e - 1) n in
  (r = -1 /\
   forall j d, start <= j < e -> index text j = Some d -> ~ is_break d) \/
  (exists i c, r = i + 1 /\ start <= i < e /\ index text i = Some c /\ is_break c /\
     forall j d, i < j < e -> index text j = Some d -> ~ is_break d).
Proof.
  induction n as [|n IH]; intros e start Hs; simpl.
  - left. split; [reflexivity | intros; lia].
  - specialize (IH (e - 1) start ltac:(lia)). simpl in IH.
    assert (Hstep :
      (forall d, index text (e - 1) = Some d -> ~ is_break d) ->
      (find_break text (e - 1 - 1) n = -1 /\
        forall j d, start <= j < e -> index text j = Some d -> ~ is_break d) \/
      (exists i c, find_break text (e - 1 - 1) n = i + 1 /\ start <= i < e /\
        index text i = Some c /\ is_break c /\
        forall j d, i < j < e -> index text j = Some d -> ~ is_break d)).
    { intros Hlast. destruct IH as [[Hr Hall] | (i & c & Hr & Hi & Hc & Hb & Hall)].
      - left. split; [exact Hr |]. intros j d Hj Hd.
        destruct (Z.eq_dec j (e - 1)) as [-> | Hne]; [eauto | apply (Hall j d); [lia | done]].
      - right. exists i, c. repeat split; try done; try lia.
        intros j d Hj Hd.
        destruct (Z.eq_dec j (e - 1)) as [-> | Hne]; [eauto | apply (Hall j d); [lia | done]]. }
    destruct (index text (e - 1)) as [c|] eqn:Hc.
    + unfold char_eqb. destruct (N.eqb_spec c NL) as [-> | HnNL].
      * right. exists (e - 1), NL.
        split; [lia |]. split; [lia |]. split; [done |]. split; [by left |].
        intros; lia.
      * destruct (N.eqb_spec c SP) as [-> | HnSP].
        -- right. exists (e - 1), SP.
           split; [lia |]. split; [lia |]. split; [done |]. split; [by right |].
           intros; lia.
        -- apply Hstep. intros d [= <-] [? | ?]; done.
    + apply Hstep. intros d [=].
Qed.

(** The loop invariant: started inside the text with enough fuel, the
    loop returns; what it appends re-assembles the rest of the text, no
    appended chunk is longer than [length], and the cuts are those of
    [cut_sequence]. *)
Lemma split_loop_spec (text : pystr) (length : Z) :
  0 < length ->
  forall fuel start chunks,
    0 <= start < len text ->
    len text - start < Z.of_nat fuel ->
    exists rest,
      split_loop fuel text length start chunks = Some (chunks ++ rest) /\
      concat rest = slice_from text start /\
      Forall (fun c => len c <= length) rest /\
      cut_sequence text length start rest.
Proof.
  intros Hpos. induction fuel as [|fuel IH]; intros start chunks Hstart Hfuel.
  - lia.
  - simpl. destruct (Z.ltb_spec start (len text)) as [_ | ?]; [| lia].
    destruct (Z.geb_spec (start + length) (len text)) as [Hend | Hend].
    + exists [slice_from text start]. repeat split.
      * simpl. by rewrite app_nil_r.
      * constructor; [| constructor]. rewrite len_slice_from by lia. lia.
      * constructor. lia.
    + pose proof (find_break_spec text (Z.to_nat (start + length - start))
                    (start + length) start ltac:(lia)) as Hfb.
      simpl in Hfb.
      destruct Hfb as [[Hr Hall] | (i & c & Hr & Hi & Hc & Hb & Hall)]; rewrite Hr.
      * simpl.
        destruct (IH (start + length) (chunks ++ [slice text start (start + length)])
                    ltac:(lia) ltac:(lia)) as (rest & Heq & Hcat & Hlen & Hcuts).
        exists (slice text start (start + length) :: rest). repeat split.
        -- rewrite Heq. by rewrite <- app_assoc.
        -- simpl. rewrite Hcat. apply slice_glue. lia.
        -- constructor; [| done]. pose proof (len_slice text start (start + length)). lia.
        -- by apply cut_hard; [lia | |].
      * replace (negb (i + 1 =? -1) && (i + 1 >? start)) with true.
        2:{ symmetry. apply andb_true_iff. split.
            - apply negb_true_iff. apply Z.eqb_neq. lia.
            - apply Z.gtb_lt. lia. }
        destruct (IH (i + 1) (chunks ++ [slice text start (i + 1)])
                    ltac:(lia) ltac:(lia)) as (rest & Heq & Hcat & Hlen & Hcuts).
        exists (slice text start (i + 1) :: rest). repeat split.
        -- rewrite Heq. by rewrite <- app_assoc.
        -- simpl. rewrite Hcat. apply slice_glue. lia.
        -- constructor; [| done]. pose proof (len_slice text start (i + 1)). lia.
        -- by eapply cut_break; [lia | | | | |].
Qed.

Lemma split_text_long (text : pystr) (length : Z) :
  0 < length -> length < len text ->
  exists chunks,
    split_text text length = Some chunks /\
    concat chunks = text /\
    Forall (fun c => len c <= length) chunks /\
    cut_sequence text length 0 chunks.
Proof.
  intros Hpos Hlong. unfold split_text.
  destruct (Z.leb_spec (len text) length) as [? | _]; [lia |].
  destruct (split_loop_spec text length Hpos (S (List.length text)) 0 []
              ltac:(lia) ltac:(unfold len; lia)) as (rest & Heq & Hcat & Hlen & Hcuts).
  exists rest. repeat split; try done.
Qed.

(** C10: for a positive [length], [split_text] returns, and the chunks
    concatenated in order are the input text: nothing is dropped,
    duplicated or reordered. *)
Theorem split_text_concat (text : pystr) (length : Z) :
  0 < length ->
  exists chunks, split_text text length = Some chunks /\ concat chunks = text.
Proof.
  intros Hpos. destruct (Z.leb_spec (len text) length) as [Hshort | Hlong].
  - exists [text]. split.
    + unfold split_text. by destruct (Z.leb_spec (len text) length); [| lia].
    + simpl. apply app_nil_r.
  - destruct (split_text_long text length Hpos Hlong) as (chunks & ? & ? & _).
    eauto.
Qed.

Lemma split_text_concat_witness :
  0 < 5 /\
  exists chunks, split_text (str "one two three") 5 = Some chunks /\
                 concat chunks = str "one two three".
Proof. split; [lia | apply (split_text_concat (str "one two three") 5); lia]. Defined.

(** C6, as the code has it: a text that fits is returned as the single
    chunk; for a longer text and a positive [length] the function returns,
    no chunk is longer than [length], and every cut falls right after the
    last newline-or-space of the window (the later of the two, of either
    kind), or at exactly [length] characters when the window has neither. *)
Theorem split_text_chunks (text : pystr) (length : Z) :
  0 < length ->
  (len text <= length -> split_text text length = Some [text]) /\
  (length < len text ->
   exists chunks,
     split_text text length = Some chunks /\
     Forall (fun c => len c <= length) chunks /\
     cut_sequence text length 0 chunks).
Proof.
  intros Hpos. split.
  - intros Hshort. unfold split_text.
    by destruct (Z.leb_spec (len text) length); [| lia].
  - intros Hlong.
    destruct (split_text_long text length Hpos Hlong) as (chunks & ? & ? & ? & ?).
    eauto.
Qed.

Lemma split_text_chunks_witness :
  0 < 5 /\
  (len (str "one two three") <= 5 ->
   split_text (str "one two three") 5 = Some [str "one two three"]) /\
  (5 < len (str "one two three") ->
   exists chunks,
     split_text (str "one two three") 5 = Some chunks /\
     Forall (fun c => len c <= 5) chunks /\
     cut_sequence (str "one two three") 5 0 chunks).
Proof. split; [lia | apply (split_text_chunks (str "one two three") 5); lia]. Defined.

(** C6 as worded fails: with a window of five characters over
    [newline_then_space] the source cuts after the space (the last break
    of the window) and not after the newline that the window also
    holds. *)
Lemma split_text_prefers_last_break :
  split_text newline_then_space 5
    = Some [str "a" ++ [NL] ++ str "b "; str "cdefg"; str "h"] /\
  newline_first_boundary newline_then_space 0 5 = 2 /\
  ~ (exists chunks,
       split_text newline_then_space 5 = Some chunks /\
       head chunks
         = Some (slice newline_then_space 0
                   (newline_first_boundary newline_then_space 0 5))).
Proof.
  split; [reflexivity |]. split; [reflexivity |].
  intros (chunks & Hs & Hh).
  vm_compute in Hs. injection Hs as <-. vm_compute in Hh. discriminate.
Qed.

End SplitFacts.

(** ** [markdown_to_telegram_html] *)

Module TranscoderFacts.
Import Re Transcoder Samples.

(** C2 fails on the code: the pass that deletes the left-over markers
    (line 724) runs after the code spans have been put back (lines
    710-716), so the stars of an inline span and the underscore of a
    fenced block are deleted inside the code element.  And the
    placeholders themselves hold an underscore: with two spans in a text
    the italic pass of line 703 pairs the underscores of the two
    placeholders, neither placeholder is found again and no code element
    comes out at all. *)
Theorem code_span_markers_are_stripped (unicode_alnum : char -> bool) :
  markdown_to_telegram_html unicode_alnum code_span_with_markers
    = str "<code>bold-looking</code>" /\
  markdown_to_telegram_html unicode_alnum fenced_snake_case
    = str "<pre>snakecase = 1" ++ [NL] ++ str "</pre>" /\
  markdown_to_telegram_html unicode_alnum two_code_spans
    = str "@@INLINECODE<i>0@@ and @@INLINECODE</i>1@@".
Proof. repeat split; vm_compute; reflexivity. Qed.

End TranscoderFacts.

(** ** [check_and_consume_limit] *)

Module QuotaFacts.
Import Quota.

Section Ledger.

Variable USE_SQLITE : bool.
Variable isoformat : Z -> pystr.
Variable fromisoformat : pystr -> option Z.

Abbreviation check := (check_and_consume_limit USE_SQLITE isoformat fromisoformat).

Lemma lookup_update_user_limits user_id free date (users : gmap Z user) u :
  users !! user_id = Some u ->
  update_user_limits USE_SQLITE isoformat user_id free date users !! user_id
    = Some {| free_messages_today := free;
              last_free_reset_date :=
                match date with
                | Some day => stored_date USE_SQLITE isoformat day
                | None => last_free_reset_date u
                end;
              subscription_status := subscription_status u;
              subscription_expires := subscription_expires u;
              is_admin := is_admin u;
              last_active_date := last_active_date u |}.
Proof.
  intros H. unfold update_user_limits. rewrite lookup_alter_eq, H. reflexivity.
Qed.

Lemma lookup_deactivate user_id (users : gmap Z user) u :
  users !! user_id = Some u ->
  deactivate_subscription user_id users !! user_id
    = Some {| free_messages_today := free_messages_today u;
              last_free_reset_date := last_free_reset_date u;
              subscription_status := inactive;
              subscription_expires := expires_other;
              is_admin := is_admin u;
              last_active_date := last_active_date u |}.
Proof.
  intros H. unfold deactivate_subscription. rewrite lookup_alter_eq, H. reflexivity.
Qed.

Lemma lookup_update_user_limits_ne user_id other free date (users : gmap Z user) :
  other <> user_id ->
  update_user_limits USE_SQLITE isoformat user_id free date users !! other
    = users !! other.
Proof. intros H. unfold update_user_limits. by rewrite lookup_alter_ne. Qed.

Lemma lookup_deactivate_ne user_id other (users : gmap Z user) :
  other <> user_id -> deactivate_subscription user_id users !! other = users !! other.
Proof. intros H. unfold deactivate_subscription. by rewrite lookup_alter_ne. Qed.

(** The ledger on a row whose expiry is a [datetime], which is what
    PostgreSQL returns: an administrator, and a user whose subscription
    is active with an expiry instant still ahead, get [True] and the
    table is left as it was.  Anybody else: an active subscription whose
    instant has passed is deactivated; a reset date that is missing, does
    not parse or lies before today sets the counter to 7 and the date to
    today; then the answer is [True] exactly when that counter is
    positive, and the counter goes down by one in that case and stays put
    otherwise.  No other row changes.  An expiry that is not a
    [datetime], which is all that SQLite returns, counts as no
    subscription, see [sqlite_subscriber_pays_from_the_counter]. *)
Lemma check_and_consume_limit_cases (now user_id : Z) (users : gmap Z user) (u : user) :
  users !! user_id = Some u ->
  let ok := fst (check now user_id users) in
  let users' := snd (check now user_id users) in
  (is_admin u = true -> ok = true /\ users' = users) /\
  (is_admin u = false -> subscribed now u = true -> ok = true /\ users' = users) /\
  (is_admin u = false -> subscribed now u = false ->
     let is_stale := stale fromisoformat now u in
     let counter := if is_stale then 7 else free_messages_today u in
     ok = (0 <? counter) /\
     (forall other, other <> user_id -> users' !! other = users !! other) /\
     exists u',
       users' !! user_id = Some u' /\
       free_messages_today u' = (if ok then counter - 1 else counter) /\
       last_free_reset_date u'
         = (if is_stale then stored_date USE_SQLITE isoformat (date_of now)
            else last_free_reset_date u) /\
       subscription_status u'
         = (if expired now u then inactive else subscription_status u) /\
       subscription_expires u'
         = (if expired now u then expires_other else subscription_expires u) /\
       is_admin u' = false /\
       last_active_date u' = last_active_date u).
Proof.
  intros H. unfold check_and_consume_limit. rewrite H.
  destruct u as [free date st ex adm la]. simpl.
  destruct adm; simpl.
  { split; [done |]. split; intros; done. }
  split; [done |].
  unfold subscribed, expired, stale; simpl.
  assert (Hgt : forall a b, (a >? b) = (b <? a)) by (intros; apply Z.gtb_ltb).
  split.
  - intros _ Hsub. destruct st, ex; try done. rewrite Hgt, Hsub. done.
  - intros _ Hsub.
    destruct st, ex as [t|]; simpl in *; rewrite ?Hgt, ?Hsub; simpl;
      try (replace (t <=? now) with true by (symmetry; apply Z.leb_le; apply Z.ltb_ge; done));
      (destruct date as [day | iso |]; simpl;
       [ destruct (day <? date_of now) eqn:Hd
       | destruct (fromisoformat iso) as [day|] eqn:Hp;
         [ destruct (day <? date_of now) eqn:Hd
         | replace (date_of now - 1 <? date_of now) with true by (symmetry; apply Z.ltb_lt; lia) ]
       | ]); simpl; rewrite ?Hgt;
      try (destruct (0 <? free) eqn:Hf; simpl);
      (split; [done |]);
      (split;
         [ intros other Hne;
           by rewrite ?lookup_update_user_limits_ne, ?lookup_deactivate_ne by done
         | unfold update_user_limits, deactivate_subscription;
           rewrite ?lookup_alter_eq, H; simpl; eexists; split; [reflexivity | done] ]).
Qed.

End Ledger.

End QuotaFacts.

(** ** The handlers *)

Module BotFacts.
Import Quota Bot.
Local Open Scope coroutine_scope.

(** *** Rules for [yields] *)

Lemma yields_ret {A} (Q : A -> Prop) a : Q a -> yields Q (ret a).
Proof. intros H w a' w' [= <- _]. done. Qed.

Lemma yields_raise {A} (Q : A -> Prop) e : yields Q (raise e).
Proof. intros w a w' [=]. Qed.

Lemma yields_early_return {A} (Q : A -> Prop) : yields Q early_return.
Proof. intros w a w' [=]. Qed.

Lemma yields_bind {A B} (Q1 : A -> Prop) (Q : B -> Prop) (c : M A) (k : A -> M B) :
  yields Q1 c -> (forall a, Q1 a -> yields Q (k a)) -> yields Q (bind c k).
Proof.
  intros Hc Hk w b w'. unfold bind.
  destruct (c w) as [[a| |e] w1] eqn:E; try done.
  intros Hb. eapply Hk; [eapply Hc; exact E | exact Hb].
Qed.

Lemma yields_seq {A B} (Q : B -> Prop) (c : M A) (k : A -> M B) :
  (forall a, yields Q (k a)) -> yields Q (bind c k).
Proof.
  intros Hk. apply (yields_bind (fun _ => True)); [done | auto].
Qed.

Lemma yields_try_except {A} (Q : A -> Prop) (body : M A) handler :
  yields Q body ->
  (forall e h, handler e = Some h -> yields Q h) ->
  yields Q (try_except body handler).
Proof.
  intros Hb Hh w a w'. unfold try_except.
  destruct (body w) as [[a1| |e] w1] eqn:E.
  - intros [= <- <-]. eapply Hb, E.
  - done.
  - destruct (handler e) as [h|] eqn:Eh; [| done]. intros Hr. eapply Hh; eauto.
Qed.

Lemma yields_except_TelegramAPIError {A} (Q : A -> Prop) (h : M A) e h' :
  yields Q h -> except_TelegramAPIError h e = Some h' -> yields Q h'.
Proof.
  unfold except_TelegramAPIError. destruct (is_TelegramAPIError e); [| done].
  by intros ? [= <-].
Qed.

Lemma yields_except_Exception {A} (Q : A -> Prop) (h : M A) e h' :
  yields Q h -> except_Exception h e = Some h' -> yields Q h'.
Proof.
  unfold except_Exception. destruct (is_Exception e); [| done].
  by intros ? [= <-].
Qed.

Lemma yields_weaken {A} (Q Q' : A -> Prop) (c : M A) :
  yields Q c -> (forall a, Q a -> Q' a) -> yields Q' c.
Proof. intros H HQ w a w' E. eauto. Qed.

(** *** Rules for [emits] *)

Lemma emits_ret {A} P (a : A) : emits P (ret a).
Proof. intros w. exists []. by rewrite app_nil_r. Qed.

Lemma emits_raise {A} P e : emits P (@raise A e).
Proof. intros w. exists []. by rewrite app_nil_r. Qed.

Lemma emits_early_return {A} P : emits P (@early_return A).
Proof. intros w. exists []. by rewrite app_nil_r. Qed.

Lemma emits_gets {A} P (f : world -> A) : emits P (gets f).
Proof. intros w. exists []. by rewrite app_nil_r. Qed.

Lemma emits_modify P (f : world -> world) :
  (forall w, calls (f w) = calls w) -> emits P (modify f).
Proof. intros H w. exists []. simpl. by rewrite H, app_nil_r. Qed.

Lemma emits_monotonic P : emits P monotonic.
Proof.
  intros w. exists []. unfold monotonic. rewrite app_nil_r.
  by destruct (clock w).
Qed.

Lemma emits_pop_active_request P user_id : emits P (pop_active_request user_id).
Proof. intros w. exists []. by rewrite app_nil_r. Qed.

Lemma emits_await_with {A} P c (effect : world -> A * world) :
  (forall o, P (c, o)) ->
  (forall w, calls (snd (effect w)) = calls w) ->
  emits P (await_with c effect).
Proof.
  intros HP Heff w. unfold await_with.
  destruct (script w) as [|[|e] rest] eqn:E.
  - exists [(c, succeeds)].
    destruct (effect (answered c succeeds w)) as [a w'] eqn:E'. simpl.
    change w' with (snd (a, w')). rewrite <- E', Heff. split; [done | by constructor].
  - exists [(c, succeeds)].
    destruct (effect (answered c succeeds w)) as [a w'] eqn:E'. simpl.
    change w' with (snd (a, w')). rewrite <- E', Heff. split; [done | by constructor].
  - exists [(c, fails e)]. split; [done | by constructor].
Qed.

Lemma emits_await P c : (forall o, P (c, o)) -> emits P (await c).
Proof. intros H. by apply emits_await_with. Qed.

Lemma emits_send P c : (forall o, P (c, o)) -> emits P (send c).
Proof. intros H. by apply emits_await_with. Qed.

Lemma emits_perform P c : P (c, succeeds) -> emits P (perform c).
Proof. intros H w. exists [(c, succeeds)]. split; [done | by constructor]. Qed.

Lemma emits_bind_yields {A B} P (Q : A -> Prop) (c : M A) (k : A -> M B) :
  emits P c -> yields Q c -> (forall a, Q a -> emits P (k a)) -> emits P (bind c k).
Proof.
  intros Hc Hy Hk w. destruct (Hc w) as (n1 & H1 & F1). unfold bind.
  destruct (c w) as [[a| |e] w1] eqn:E; simpl in *; try by eauto.
  destruct (Hk a (Hy _ _ _ E) w1) as (n2 & H2 & F2).
  exists (n1 ++ n2). rewrite H2, H1, app_assoc. split; [done | by apply Forall_app].
Qed.

Lemma emits_bind {A B} P (c : M A) (k : A -> M B) :
  emits P c -> (forall a, emits P (k a)) -> emits P (bind c k).
Proof.
  intros Hc Hk. apply (emits_bind_yields P (fun _ => True)); [done | done | auto].
Qed.

Lemma emits_try_except {A} P (body : M A) handler :
  emits P body ->
  (forall e h, handler e = Some h -> emits P h) ->
  emits P (try_except body handler).
Proof.
  intros Hb Hh w. destruct (Hb w) as (n1 & H1 & F1). unfold try_except.
  destruct (body w) as [[a| |e] w1] eqn:E; simpl in *; try by eauto.
  destruct (handler e) as [h|] eqn:Eh; [| by eauto].
  destruct (Hh e h Eh w1) as (n2 & H2 & F2).
  exists (n1 ++ n2). rewrite H2, H1, app_assoc. split; [done | by apply Forall_app].
Qed.

Lemma emits_try_finally {A} P (body : M A) cleanup :
  emits P body -> emits P cleanup -> emits P (try_finally body cleanup).
Proof.
  intros Hb Hc w. destruct (Hb w) as (n1 & H1 & F1). unfold try_finally.
  destruct (body w) as [r w1] eqn:E; simpl in *.
  destruct (Hc w1) as (n2 & H2 & F2).
  exists (n1 ++ n2).
  destruct (cleanup w1) as [[a| |e] w2]; simpl in *;
    rewrite H2, H1, app_assoc; (split; [done | by apply Forall_app]).
Qed.

Lemma emits_except_TelegramAPIError {A} P (h : M A) e h' :
  emits P h -> except_TelegramAPIError h e = Some h' -> emits P h'.
Proof.
  unfold except_TelegramAPIError. destruct (is_TelegramAPIError e); [| done].
  by intros ? [= <-].
Qed.

Lemma emits_except_Exception {A} P (h : M A) e h' :
  emits P h -> except_Exception h e = Some h' -> emits P h'.
Proof.
  unfold except_Exception. destruct (is_Exception e); [| done].
  by intros ? [= <-].
Qed.

Lemma emits_weaken {A} (P P' : call * outcome -> Prop) (c : M A) :
  emits P c -> (forall ev, P ev -> P' ev) -> emits P' c.
Proof.
  intros H HP w. destruct (H w) as (n & Hn & F). exists n. split; [done |].
  eapply Forall_impl; eauto.
Qed.

Ltac emit_handler_case :=
  match goal with
  | H : except_TelegramAPIError ?x ?e = Some ?h |- emits _ ?h =>
      eapply (emits_except_TelegramAPIError _ x e h); [| exact H]; clear H
  | H : except_Exception ?x ?e = Some ?h |- emits _ ?h =>
      eapply (emits_except_Exception _ x e h); [| exact H]; clear H
  | H : match ?e with TelegramRetryAfter _ => _ | _ => _ end = Some ?h |- emits _ ?h =>
      destruct e; simplify_eq
  end.

Lemma emits_bind_ret {A B} P (a : A) (k : A -> M B) :
  emits P (k a) -> emits P (bind (ret a) k).
Proof. intros H w. apply H. Qed.

(** Walks a coroutine down to its awaits, whose calls [tac] settles. *)
Ltac emit_step tac :=
  match goal with
  | |- emits _ _ =>
    first
    [ apply emits_ret
    | apply emits_raise
    | apply emits_early_return
    | apply emits_gets
    | apply emits_monotonic
    | apply emits_pop_active_request
    | apply emits_modify; reflexivity
    | apply emits_await; intros ?; tac
    | apply emits_send; intros ?; tac
    | apply emits_await_with; [intros ?; tac | intros ?; simpl; try reflexivity]
    | apply emits_perform; tac
    | emit_handler_case
    | apply emits_try_except; [| intros ? ? ?]
    | apply emits_try_finally
    | apply emits_bind_ret
    | apply emits_bind; [| intros ?]
    | match goal with
      | |- emits _ (match ?x with _ => _ end) => destruct x eqn:?
      | |- emits _ (if ?b then _ else _) => destruct b eqn:?
      end ]
  end.

Ltac emit_with tac := repeat (emit_step tac).

Ltac handler_case :=
  match goal with
  | H : except_TelegramAPIError ?x ?e = Some ?h |- yields _ ?h =>
      eapply (yields_except_TelegramAPIError _ x e h); [| exact H]; clear H
  | H : except_Exception ?x ?e = Some ?h |- yields _ ?h =>
      eapply (yields_except_Exception _ x e h); [| exact H]; clear H
  | H : match ?e with TelegramRetryAfter _ => _ | _ => _ end = Some ?h |- yields _ ?h =>
      destruct e; simplify_eq
  end.

(** Walks a coroutine down to its [ret]s, which [tac] then settles. *)
Ltac yield_with tac :=
  repeat first
    [ apply yields_ret; tac
    | apply yields_raise
    | apply yields_early_return
    | handler_case
    | apply yields_try_except; [| intros ? ? ?]
    | apply yields_seq; intros ?
    | match goal with
      | |- yields _ (match ?x with _ => _ end) => destruct x eqn:?
      | |- yields _ (if ?b then _ else _) => destruct b eqn:?
      end ].

Section Streaming.

Variable transcode : Py.pystr -> option Py.pystr.
Variable user_id : Z.

(** *** The text that a generation accumulates *)

Lemma finalize_overflowing_text message_id st :
  yields (same_text st) (finalize_overflowing transcode user_id message_id st).
Proof.
  unfold finalize_overflowing, render.
  yield_with ltac:(by unfold same_text).
Qed.

Lemma edit_in_place_text message_id now st :
  yields (same_text st) (edit_in_place transcode user_id message_id now st).
Proof.
  unfold edit_in_place, render.
  yield_with ltac:(by unfold same_text).
Qed.

Lemma concat_snoc (l : list Py.pystr) (s : Py.pystr) : concat (l ++ [s]) = concat l ++ s.
Proof. rewrite concat_app. simpl. by rewrite app_nil_r. Qed.

(** One fragment: a step that goes on has taken the fragment in; a step
    that leaves the loop has taken it in or dropped it. *)
Lemma stream_body_text chunk st :
  segments_add_up st ->
  yields (fun s =>
            segments_add_up (state_of s) /\
            match s with
            | continue st' => full_raw_response st' = full_raw_response st ++ chunk
            | break st' =>
                full_raw_response st' = full_raw_response st \/
                full_raw_response st' = full_raw_response st ++ chunk
            end)
         (stream_body transcode user_id chunk st).
Proof.
  intros Hst. unfold stream_body.
  apply yields_seq. intros [message_id|]; [| apply yields_ret; auto].
  apply yields_seq. intros now.
  set (st1 := set_full_raw_response (full_raw_response st ++ chunk) st).
  destruct (transcode (current_message_text st1 ++ chunk)) as [html|];
    match goal with
    | |- yields _ (if ?b then _ else _) => destruct b
    end.
  - eapply yields_bind; [apply finalize_overflowing_text |].
    intros st3 (Hf & Hc & Hz). unfold open_next_message.
    yield_with ltac:(idtac).
    all: unfold segments_add_up, segments in *; simpl; rewrite ?Hf, ?Hc, ?Hz; simpl.
    all: rewrite ?concat_snoc; rewrite ?concat_snoc in Hst; rewrite ?Hst; auto.
  - eapply yields_bind; [apply edit_in_place_text |].
    intros st3 (Hf & Hc & Hz). apply yields_ret.
    unfold segments_add_up, segments in *; simpl in *. rewrite Hf, Hc, Hz; simpl.
    rewrite !concat_snoc in *. rewrite <- Hst. by rewrite app_assoc.
  - eapply yields_bind; [apply finalize_overflowing_text |].
    intros st3 (Hf & Hc & Hz). unfold open_next_message.
    yield_with ltac:(idtac).
    all: unfold segments_add_up, segments in *; simpl; rewrite ?Hf, ?Hc, ?Hz; simpl.
    all: rewrite ?concat_snoc; rewrite ?concat_snoc in Hst; rewrite ?Hst; auto.
  - eapply yields_bind; [apply edit_in_place_text |].
    intros st3 (Hf & Hc & Hz). apply yields_ret.
    unfold segments_add_up, segments in *; simpl in *. rewrite Hf, Hc, Hz; simpl.
    rewrite !concat_snoc in *. rewrite <- Hst. by rewrite app_assoc.
Qed.

Lemma stream_loop_text (frags : list Py.pystr) : forall st,
  segments_add_up st ->
  yields (fun r =>
            segments_add_up (snd r) /\
            (fst r = exhausted ->
             full_raw_response (snd r) = full_raw_response st ++ concat frags))
         (stream_loop transcode user_id (List.map fragment frags) st).
Proof.
  induction frags as [|chunk frags IH]; intros st Hst; simpl.
  - apply yields_ret. simpl. split; [done |]. intros _. by rewrite app_nil_r.
  - eapply yields_bind; [by apply stream_body_text |].
    intros [st' | st'] [Hseg Hfull]; simpl in *.
    + eapply yields_weaken; [by apply IH |].
      intros [e st2] [Hseg2 Hfull2]; simpl in *. split; [done |].
      intros He. rewrite (Hfull2 He), Hfull. by rewrite app_assoc.
    + apply yields_ret. simpl. split; [done | discriminate].
Qed.

(** However the loop is left, the raw texts of the segments add up to
    the full raw answer. *)
Lemma segments_add_up_on_every_exit (frags : list Py.pystr) (t : Z)
    (w w' : world) (exit : loop_exit) (st : loop_state) :
  stream_loop transcode user_id (List.map fragment frags)
    (initial_loop_state t) w = (Val (exit, st), w') ->
  concat (finalized st ++ [current_message_text st]) = full_raw_response st.
Proof.
  intros E.
  assert (Hinit : segments_add_up (initial_loop_state t)) by reflexivity.
  by destruct (stream_loop_text frags _ Hinit _ _ _ E) as [Hseg _].
Qed.

(** When the loop is left because the provider has nothing more to
    give, the full raw answer is the concatenation of the fragments in
    order, and so is the concatenation of the raw texts of the segments:
    those of the units left behind, in order, then that of the last
    one.  A loop that is left by [break] is another matter, see
    [yielded_fragment_is_dropped]. *)
Lemma full_answer_when_exhausted (frags : list Py.pystr) (t : Z)
    (w : world) (st : loop_state) :
  fst (stream_loop transcode user_id (List.map fragment frags)
         (initial_loop_state t) w) = Val (exhausted, st) ->
  full_raw_response st = concat frags /\
  concat (finalized st ++ [current_message_text st]) = concat frags.
Proof.
  intros Hrun.
  destruct (stream_loop transcode user_id (List.map fragment frags)
              (initial_loop_state t) w) as [r w'] eqn:E.
  simpl in Hrun. subst r.
  assert (Hinit : segments_add_up (initial_loop_state t)) by reflexivity.
  destruct (stream_loop_text frags _ Hinit _ _ _ E) as [Hseg Hfull]. simpl in *.
  specialize (Hfull eq_refl). split; [done |].
  unfold segments_add_up, segments in Hseg. by rewrite Hseg.
Qed.

(** *** Degraded formatting *)

Lemma finalize_overflowing_flag message_id st :
  formatting_failed st = true ->
  yields (fun st' => formatting_failed st' = true /\ same_text st st')
         (finalize_overflowing transcode user_id message_id st).
Proof.
  intros Hff. unfold finalize_overflowing, render.
  yield_with ltac:(by unfold same_text).
Qed.

Lemma edit_in_place_flag message_id now st :
  formatting_failed st = true ->
  yields (fun st' => formatting_failed st' = true /\ same_text st st')
         (edit_in_place transcode user_id message_id now st).
Proof.
  intros Hff. unfold edit_in_place, render.
  yield_with ltac:(by unfold same_text).
Qed.

(** One fragment, once the flag is up: the flag is still up afterwards,
    and the unit in hand holds the old text (the fragment was dropped),
    the old text grown by the fragment, or the fragment alone. *)
Lemma stream_body_flag chunk st :
  formatting_failed st = true ->
  yields (fun s =>
            formatting_failed (state_of s) = true /\
            match s with
            | continue st' =>
                current_message_text st' = current_message_text st ++ chunk \/
                current_message_text st' = chunk
            | break st' =>
                current_message_text st' = current_message_text st \/
                current_message_text st' = chunk
            end)
         (stream_body transcode user_id chunk st).
Proof.
  intros Hff. unfold stream_body.
  apply yields_seq. intros [message_id|]; [| apply yields_ret; auto].
  apply yields_seq. intros now.
  destruct (transcode _) as [html|];
    match goal with
    | |- yields _ (if ?b then _ else _) => destruct b
    end.
  1,3: eapply yields_bind; [by apply finalize_overflowing_flag |];
       intros st3 (Hf3 & _ & Hc & _); unfold open_next_message;
       yield_with ltac:(simpl; auto).
  all: eapply yields_bind; [by apply edit_in_place_flag |];
       intros st3 (Hf3 & _ & Hc & _); apply yields_ret; simpl in *; auto.
Qed.

Lemma stream_body_raw chunk st :
  formatting_failed st = true ->
  emits (shows_raw (fun s => s = current_message_text st \/
                             s = (current_message_text st ++ chunk) ++ ELLIPSIS))
        (stream_body transcode user_id chunk st).
Proof.
  intros Hff. unfold stream_body.
  apply emits_bind; [apply emits_gets |]. intros [message_id|]; [| apply emits_ret].
  apply emits_bind; [apply emits_monotonic |]. intros now.
  destruct (transcode _) as [html|];
    match goal with
    | |- emits _ (if ?b then _ else _) => destruct b
    end.
  1,3: apply emits_bind;
       [ unfold finalize_overflowing, render, mode_of; simpl; rewrite ?Hff; simpl;
         emit_with ltac:(unfold shows_raw; simpl; auto)
       | intros st3; unfold open_next_message;
         emit_with ltac:(unfold shows_raw; simpl; auto) ].
  all: apply emits_bind; [| intros st3; apply emits_ret];
       unfold edit_in_place, render, mode_of; simpl; rewrite ?Hff; simpl;
       emit_with ltac:(unfold shows_raw; simpl; auto).
Qed.

Lemma raw_texts_self cur stream : raw_texts cur stream cur.
Proof. destruct stream; by left. Qed.

Lemma stream_loop_flag (stream : list fragment_event) : forall st,
  formatting_failed st = true ->
  yields (fun r =>
            formatting_failed (snd r) = true /\
            raw_texts (current_message_text st) stream (current_message_text (snd r)))
         (stream_loop transcode user_id stream st).
Proof.
  induction stream as [|[chunk|e] later IH]; intros st Hff; simpl.
  - apply yields_ret. simpl. auto.
  - eapply yields_bind; [by apply stream_body_flag |].
    intros [st' | st'] [Hff' Hcur]; simpl in *.
    + eapply yields_weaken; [by apply IH |].
      intros [x st2] [Hff2 Hraw]; simpl in *. split; [done |]. right. right.
      destruct Hcur as [<- | <-]; auto.
    + apply yields_ret. simpl. split; [done |].
      destruct Hcur as [-> | ->]; [by left |].
      right. right. right. apply raw_texts_self.
  - apply yields_raise.
Qed.

Lemma stream_loop_raw (stream : list fragment_event) : forall st,
  formatting_failed st = true ->
  emits (shows_raw (raw_texts (current_message_text st) stream))
        (stream_loop transcode user_id stream st).
Proof.
  induction stream as [|[chunk|e] later IH]; intros st Hff; simpl.
  - apply emits_ret.
  - eapply emits_bind_yields.
    + eapply emits_weaken; [by apply stream_body_raw |].
      intros [c o]. unfold shows_raw. simpl.
      destruct c as [| [s|] ? ? | [s|] ? | | ? [s|] ? ? | | | | | | | | | |]; simpl; try done.
      all: intros [Hm [-> | ->]]; auto.
    + by apply stream_body_flag.
    + intros [st' | st'] [Hff' Hcur]; simpl in *; [| apply emits_ret].
      eapply emits_weaken; [by apply IH |].
      intros [c o]. unfold shows_raw. simpl.
      destruct c as [| [s|] ? ? | [s|] ? | | ? [s|] ? ? | | | | | | | | | |]; simpl; try done.
      all: intros [Hm Hraw]; split; [done |]; right; right;
           destruct Hcur as [<- | <-]; auto.
  - apply emits_raise.
Qed.

Lemma finalize_last_raw st :
  formatting_failed st = true ->
  emits (shows_raw (fun s => s = current_message_text st)) (finalize_last transcode st).
Proof.
  intros Hff. unfold finalize_last, render, mode_of. rewrite Hff.
  emit_with ltac:(unfold shows_raw; simpl; auto).
Qed.

Lemma persist_answer_raw P st :
  (forall q o, P (database q, o)) -> emits P (persist_answer user_id st).
Proof.
  intros HP. unfold persist_answer, add_message_to_db.
  emit_with ltac:(apply HP).
Qed.

(** From a point of the generation where [formatting_failed] is up,
    the flag is up when the loop is left, and every text of the answer
    that is shown from there on, in the loop and for the last unit, is
    shown with parse mode [None] and is the raw text of a unit, with the
    ellipsis while the unit is growing. *)
Lemma raw_once_degraded (stream : list fragment_event) (st : loop_state) :
  formatting_failed st = true ->
  (forall w exit st' w',
     stream_loop transcode user_id stream st w = (Val (exit, st'), w') ->
     formatting_failed st' = true) /\
  (forall w, exists new,
     calls (snd (stream_and_finish transcode user_id stream st w)) = calls w ++ new /\
     Forall (shows_raw (raw_texts (current_message_text st) stream)) new).
Proof.
  intros Hff. split.
  - intros w exit st' w' E.
    by destruct (stream_loop_flag stream st Hff _ _ _ E) as [H _].
  - change (emits (shows_raw (raw_texts (current_message_text st) stream))
              (stream_and_finish transcode user_id stream st)).
    unfold stream_and_finish.
    eapply emits_bind_yields;
      [by apply stream_loop_raw | by apply stream_loop_flag |].
    intros [exit st'] [Hff' Hraw]; simpl in *.
    apply emits_bind.
    + eapply emits_weaken; [by apply finalize_last_raw |].
      intros [c o]. unfold shows_raw. simpl.
      destruct c as [| [s|] ? ? | [s|] ? | | ? [s|] ? ? | | | | | | | | | |]; simpl; try done.
      all: by intros [Hm ->].
    + intros _. apply persist_answer_raw. done.
Qed.

End Streaming.

Import Samples.

(** C9 fails on the code: the removal of the cancel button and the
    opening of the next unit share one [try] (lines 966-977).  Here the
    second fragment overflows the first unit, the unit gets its last
    text, and the removal of its button is refused: no next unit is
    opened, the loop is left, the third fragment is never taken from the
    provider and the second one is shown nowhere. *)
Theorem failed_removal_ends_the_stream :
  let w := with_script [succeeds; fails not_modified] (in_flight (free_user 3)) in
  let stream := [fragment wide; fragment wide; fragment (Py.str "tail")] in
  let run := stream_and_finish html alice stream (initial_loop_state 0) w in
  (exists st,
     fst (stream_loop html alice stream (initial_loop_state 0) w) = Val (broke, st) /\
     full_raw_response st = wide ++ wide) /\
  calls (snd run) =
    [ (edit_message_text (Some 1%positive) (text wide_html) mode_html
         (progress_keyboard alice), succeeds);
      (edit_message_reply_markup (Some 1%positive) no_markup, fails not_modified);
      (database (q_add_message alice role_assistant (wide ++ wide)), succeeds) ] /\
  current_message_id (snd run) = None.
Proof.
  cbv zeta. split; [| split].
  - eexists. split; vm_compute; reflexivity.
  - vm_compute. reflexivity.
  - vm_compute. reflexivity.
Qed.

(** *** The order of removal and creation *)

Lemma removal_first_app l1 l2 :
  removal_first l1 -> removal_first l2 -> removal_first (l1 ++ l2).
Proof.
  induction 1; intros H2; simpl; [done | |].
  - apply removal_first_other; auto.
  - apply removal_first_pair; auto.
Qed.

Lemma removal_first_Forall l :
  Forall (fun ev => ~ opens_unit ev) l -> removal_first l.
Proof.
  induction 1; [constructor | by apply removal_first_other].
Qed.

Lemma logs_of_emits {A} (c : M A) :
  emits (fun ev => ~ opens_unit ev) c -> logs removal_first c.
Proof.
  intros H w. destruct (H w) as (new & Hn & F). exists new. split; [done |].
  by apply removal_first_Forall.
Qed.

Lemma logs_bind {A B} (c : M A) (k : A -> M B) :
  logs removal_first c -> (forall a, logs removal_first (k a)) ->
  logs removal_first (bind c k).
Proof.
  intros Hc Hk w. destruct (Hc w) as (n1 & H1 & F1). unfold bind.
  destruct (c w) as [[a| |e] w1] eqn:E; simpl in *; try by eauto.
  destruct (Hk a w1) as (n2 & H2 & F2).
  exists (n1 ++ n2). rewrite H2, H1, app_assoc. split; [done |].
  by apply removal_first_app.
Qed.

Ltac not_opening :=
  let H := fresh in
  intros (? & ? & H); simpl in H; discriminate H.

Section Rotation.

Variable transcode : Py.pystr -> option Py.pystr.
Variable user_id : Z.

Lemma open_next_message_order chunk st :
  logs removal_first (open_next_message user_id chunk st).
Proof.
  intros w.
  destruct w as [requests pending flags table turns edits stream now ticks outcomes
                   record next current].
  unfold open_next_message, try_except, bind, gets, await, send, await_with,
    modify, monotonic, except_TelegramAPIError, ret.
  simpl.
  destruct outcomes as [|[|e1] [|[|e2] rest]]; simpl;
    repeat match goal with
           | |- context [is_TelegramAPIError ?e] => destruct (is_TelegramAPIError e); simpl
           | |- context [match ?l with [] => _ | _ :: _ => _ end] => destruct l; simpl
           end;
    eexists; (split; [rewrite <- ?app_assoc; reflexivity |]); simpl;
    repeat first
      [ apply removal_first_nil
      | apply removal_first_pair
      | apply removal_first_other; [not_opening |] ].
Qed.

Lemma stream_body_order chunk st :
  logs removal_first (stream_body transcode user_id chunk st).
Proof.
  unfold stream_body.
  apply logs_bind; [apply logs_of_emits, emits_gets |].
  intros [message_id|]; [| apply logs_of_emits, emits_ret].
  apply logs_bind; [apply logs_of_emits, emits_monotonic |]. intros now.
  destruct (transcode _) as [html|];
    match goal with
    | |- logs _ (if ?b then _ else _) => destruct b
    end.
  1,3: apply logs_bind; [| intros; apply open_next_message_order];
       apply logs_of_emits; unfold finalize_overflowing, render;
       emit_with ltac:(not_opening).
  all: apply logs_bind; [| intros; apply logs_of_emits, emits_ret];
       apply logs_of_emits; unfold edit_in_place, render;
       emit_with ltac:(not_opening).
Qed.

(** In every run of the loop, a next unit is opened only right after the
    removal of the cancel button of the unit before it was granted. *)
Lemma next_unit_only_after_removal (stream : list fragment_event) : forall st,
  logs removal_first (stream_loop transcode user_id stream st).
Proof.
  induction stream as [|[chunk|e] later IH]; intros st; simpl.
  - apply logs_of_emits, emits_ret.
  - apply logs_bind; [apply stream_body_order |].
    intros [st' | st']; [apply IH | apply logs_of_emits, emits_ret].
  - apply logs_of_emits, emits_raise.
Qed.

End Rotation.

(** *** Rules for [keeps] *)

Lemma keeps_ret {A B} (f : world -> B) (a : A) : keeps f (ret a).
Proof. done. Qed.

Lemma keeps_await {B} (f : world -> B) c :
  (forall c o w, f (answered c o w) = f w) -> keeps f (await c).
Proof.
  intros H w. unfold await, await_with.
  destruct (script w) as [|[|e] rest]; simpl; apply H.
Qed.

Lemma keeps_bind {A B C} (f : world -> C) (c : M A) (k : A -> M B) :
  keeps f c -> (forall a, keeps f (k a)) -> keeps f (bind c k).
Proof.
  intros Hc Hk w. unfold bind. specialize (Hc w).
  destruct (c w) as [[a| |e] w1]; simpl in *; try done.
  by rewrite Hk.
Qed.

Lemma keeps_try_except {A C} (f : world -> C) (body : M A) handler :
  keeps f body -> (forall e h, handler e = Some h -> keeps f h) ->
  keeps f (try_except body handler).
Proof.
  intros Hb Hh w. unfold try_except. specialize (Hb w).
  destruct (body w) as [[a| |e] w1]; simpl in *; try done.
  destruct (handler e) as [h|] eqn:E; [| done]. by rewrite (Hh e h E).
Qed.

(** What follows a step that is kept cannot be told from the step. *)
Lemma keeps_after {A B C} (f : world -> C) (c : M A) (k : A -> M B) w :
  (forall a, keeps f (k a)) -> f (snd (bind c k w)) = f (snd (c w)).
Proof.
  intros Hk. unfold bind. destruct (c w) as [[a| |e] w1]; simpl; try done.
  apply Hk.
Qed.

(** *** [cancel_generation_callback] *)

(** Lines 1148-1161 touch neither table. *)
Lemma cancel_notices_keep {C} (f : world -> C) :
  (forall c o w, f (answered c o w) = f w) ->
  keeps f
    (try_except (await (callback_edit_reply_markup no_markup))
       (except_TelegramAPIError (ret tt)) ;;
     await (callback_answer (fixed cancelled_notice) false) ;;
     await (message_answer (fixed salute) mode_default main_menu_keyboard)).
Proof.
  intros H. apply keeps_bind; [| intros _; apply keeps_bind; [| intros _]].
  - apply keeps_try_except; [by apply keeps_await |].
    intros e h. unfold except_TelegramAPIError.
    destruct (is_TelegramAPIError e); [| done]. intros [= <-]. apply keeps_ret.
  - by apply keeps_await.
  - by apply keeps_await.
Qed.

(** C4, as the code has it: the callback adds one to the user's counter
    exactly when it finds a task for the user in [active_requests], the
    database and the settings are there and the UPDATE does not fail,
    whether or not that generation had consumed anything; the entry is
    gone afterwards, so that a second cancellation finds no task and
    leaves every counter alone. *)
Theorem cancel_restores_when_task_found (user_id : Z) (w : world) :
  let w' := snd (cancel_generation_callback (Some user_id) w) in
  let restored :=
    bool_decide (is_Some (active_requests w !! user_id))
    && ready w && next_await_succeeds w in
  users w' = (if restored then alter restore_one user_id (users w) else users w) /\
  active_requests w' = delete user_id (active_requests w) /\
  users (snd (cancel_generation_callback (Some user_id) w')) = users w'.
Proof.
  assert (Hgen : forall w0,
    users (snd (cancel_generation_callback (Some user_id) w0))
      = (if bool_decide (is_Some (active_requests w0 !! user_id))
            && ready w0 && next_await_succeeds w0
         then alter restore_one user_id (users w0) else users w0) /\
    active_requests (snd (cancel_generation_callback (Some user_id) w0))
      = delete user_id (active_requests w0)).
  { intros w0. unfold ready, next_await_succeeds.
    split; unfold cancel_generation_callback;
      unfold bind at 1; unfold pop_active_request at 1;
      rewrite keeps_after by (intros; by apply cancel_notices_keep);
      (destruct (active_requests w0 !! user_id) as [running|] eqn:E; simpl; [| done]);
      unfold bind, perform, has_workflow_data, gets, try_except, restore_limit,
        await_with; simpl;
      (destruct (workflow_data w0) as [[] []]; simpl; try done);
      (destruct (script w0) as [|[|e] rest]; simpl; try done);
      unfold except_Exception; by destruct (is_Exception e). }
  cbv zeta. destruct (Hgen w) as [Hu Ha]. split; [exact Hu |]. split; [exact Ha |].
  destruct (Hgen (snd (cancel_generation_callback (Some user_id) w))) as [Hu2 _].
  rewrite Hu2, Ha, lookup_delete_eq. reflexivity.
Qed.

(** *** Admission *)

(** The text handler turns a busy user away without touching the slot,
    any counter or any conversation. *)
Lemma message_handler_leaves_busy_user_alone USE_SQLITE isoformat fromisoformat
    transcode (me : task) (user_id : Z) (user_text : Py.pystr) (w : world) (u : user) :
  is_Some (active_requests w !! user_id) ->
  users w !! user_id = Some u ->
  let w' := snd (message_handler USE_SQLITE isoformat fromisoformat transcode
                   me user_id user_text w) in
  active_requests w' = active_requests w /\
  conversations w' = conversations w /\
  forall other,
    free_messages_today <$> users w' !! other = free_messages_today <$> users w !! other.
Proof.
  intros Hbusy Hu.
  destruct w as [requests pending flags table turns edits stream now ticks outcomes
                   record next current].
  simpl in *.
  assert (Htouch : forall t other,
    free_messages_today <$> alter (touch t) user_id table !! other
      = free_messages_today <$> table !! other).
  { intros t other. rewrite lookup_alter. case_decide; [| done].
    subst other. rewrite Hu. done. }
  unfold message_handler, photo_prompt, get_or_create_user, get_user,
    update_user_last_active, add_user, has_workflow_data, bind, gets, modify,
    await, await_with, try_except, early_return, ret,
    except_Exception, except_TelegramAPIError.
  simpl.
  destruct (bool_decide (user_id ∈ pending)); simpl.
  - destruct outcomes as [|[|e1] [|[|e2] [|[|e3] rest]]]; simpl;
      repeat match goal with
             | |- context [is_Exception ?e] => destruct e; simpl
             end; done.
  - destruct flags as [[] []]; simpl.
    2-4: destruct outcomes as [|[|e1] rest]; by simpl.
    rewrite Hu.
    destruct outcomes as [|[|e1] [|[|e2] [|[|e3] rest]]]; simpl;
      repeat match goal with
             | |- context [is_Exception ?e] => destruct e; simpl
             end;
      rewrite ?(bool_decide_eq_true_2 _ Hbusy); simpl;
      repeat match goal with
             | |- context [is_TelegramAPIError ?e] => destruct e; simpl
             end;
      try (split; [done | split; [done | try done; intros; apply Htouch]]).
Qed.

(** C3 fails on the code for a photo: [photo_handler] asks the ledger
    before it looks at [active_requests] (line 1307 against line 1321),
    and its busy check sits inside the [try] whose [finally] clears the
    slot (line 1422).  Here the text generation of task 1 is in flight
    when a photo of the same user comes in: the user is turned away, but
    a unit of quota is gone and so is the slot of the generation in
    flight.  [message_handler], at the same input, changes neither. *)
Theorem photo_while_busy_changes_state :
  let w := in_flight (free_user 3) in
  let after_photo := snd (photo_handler false iso from_iso html 2%nat alice None w) in
  let after_text :=
    snd (message_handler false iso from_iso html 2%nat alice (Py.str "hi") w) in
  (active_requests w !! alice = Some 1%nat /\
   free_messages_today <$> users w !! alice = Some 3) /\
  (last (calls after_photo)
     = Some (message_reply (fixed busy_notice) (progress_keyboard alice), succeeds) /\
   free_messages_today <$> users after_photo !! alice = Some 2 /\
   active_requests after_photo !! alice = None /\
   conversations after_photo = conversations w) /\
  (last (calls after_text)
     = Some (message_reply (fixed busy_notice) (progress_keyboard alice), succeeds) /\
   free_messages_today <$> users after_text !! alice = Some 3 /\
   active_requests after_text !! alice = Some 1%nat /\
   conversations after_text = conversations w).
Proof. vm_compute. repeat split; reflexivity. Qed.

(** *** Release of the slot *)

(** Whatever the body of the [try] does, the [finally] of both handlers
    leaves no entry for the user. *)
Lemma finally_releases_slot {A} (body : M A) (user_id : Z) (cleanup : M unit) (w : world) :
  keeps active_requests cleanup ->
  active_requests
    (snd (try_finally body (pop_active_request user_id ;; cleanup) w)) !! user_id = None.
Proof.
  intros Hk. unfold try_finally. destruct (body w) as [r w1].
  unfold bind at 1. unfold pop_active_request. specialize (Hk (set_active_requests (delete user_id (active_requests w1)) w1)).
  destruct (cleanup _) as [[a| |e] w2]; simpl in *; rewrite Hk; apply lookup_delete_eq.
Qed.

(** C8 fails on the code for [message_handler]: the slot is taken on
    line 871, and [send_chat_action] is awaited on line 873, before the
    [try] of line 876 whose [finally] releases the slot.  Here that await
    raises: the handler ends with the exception and the user stays in
    [active_requests], so that the next message is turned away although
    nothing is being generated. *)
Theorem failed_chat_action_leaves_slot_taken :
  let w := with_script [succeeds; succeeds; fails bad_gateway] (quiet (free_user 3)) in
  let run := message_handler false iso from_iso html 1%nat alice (Py.str "hi") w in
  let next := message_handler false iso from_iso html 2%nat alice (Py.str "again")
                (with_script [] (snd run)) in
  active_requests w !! alice = None /\
  fst run = Raise bad_gateway /\
  last (calls (snd run)) = Some (send_chat_action, fails bad_gateway) /\
  active_requests (snd run) !! alice = Some 1%nat /\
  last (calls (snd next))
    = Some (message_reply (fixed busy_notice) (progress_keyboard alice), succeeds) /\
  active_requests (snd next) !! alice = Some 1%nat.
Proof. vm_compute. repeat split; reflexivity. Qed.

(** The administrator's generation is in flight and has consumed
    nothing (the quota step answers [True] and leaves the counter at 7);
    the callback finds the task and the counter goes to 8.  So C4 as
    worded fails: a unit is restored although none was consumed. *)
Lemma cancel_restores_without_consumption :
  let w := in_flight admin_user in
  let quota_step :=
    await_check_and_consume_limit false iso from_iso alice (quiet admin_user) in
  fst quota_step = Val true /\
  users (snd quota_step) = users (quiet admin_user) /\
  active_requests w !! alice = Some 1%nat /\
  free_messages_today <$> users w !! alice = Some 7 /\
  free_messages_today
    <$> users (snd (cancel_generation_callback (Some alice) w)) !! alice = Some 8.
Proof. vm_compute. repeat split; reflexivity. Qed.

End BotFacts.

(** ** More about [split_text] *)

Module SplitMore.
Import Split PyFacts SplitFacts.

Lemma len_slice_inside (s : pystr) (a b : Z) :
  0 <= a <= b -> b <= len s -> len (slice s a b) = b - a.
Proof.
  intros H Hb. unfold slice, len in *. rewrite length_take, length_drop. lia.
Qed.

Lemma nonempty_of_len (s : pystr) : 0 < len s -> s <> [].
Proof. intros H ->. unfold len in H. simpl in H. lia. Qed.

(** The loop never appends an empty chunk. *)
Lemma split_loop_nonempty (text : pystr) (length : Z) :
  0 < length ->
  forall fuel start chunks,
    0 <= start < len text ->
    len text - start < Z.of_nat fuel ->
    exists rest,
      split_loop fuel text length start chunks = Some (chunks ++ rest) /\
      Forall (fun c => c <> []) rest.
Proof.
  intros Hpos. induction fuel as [|fuel IH]; intros start chunks Hstart Hfuel.
  - lia.
  - simpl. destruct (Z.ltb_spec start (len text)) as [_ | ?]; [| lia].
    destruct (Z.geb_spec (start + length) (len text)) as [Hend | Hend].
    + exists [slice_from text start]. split; [done |].
      constructor; [| constructor]. apply nonempty_of_len.
      rewrite len_slice_from by lia. lia.
    + pose proof (find_break_spec text (Z.to_nat (start + length - start))
                    (start + length) start ltac:(lia)) as Hfb.
      simpl in Hfb.
      destruct Hfb as [[Hr Hall] | (i & c & Hr & Hi & Hc & Hb & Hall)]; rewrite Hr.
      * simpl.
        destruct (IH (start + length) (chunks ++ [slice text start (start + length)])
                    ltac:(lia) ltac:(lia)) as (rest & Heq & Hne).
        exists (slice text start (start + length) :: rest). split.
        -- rewrite Heq. by rewrite <- app_assoc.
        -- constructor; [| done]. apply nonempty_of_len.
           rewrite len_slice_inside by lia. lia.
      * replace (negb (i + 1 =? -1) && (i + 1 >? start)) with true.
        2:{ symmetry. apply andb_true_iff. split.
            - apply negb_true_iff. apply Z.eqb_neq. lia.
            - apply Z.gtb_lt. lia. }
        destruct (IH (i + 1) (chunks ++ [slice text start (i + 1)])
                    ltac:(lia) ltac:(lia)) as (rest & Heq & Hne).
        exists (slice text start (i + 1) :: rest). split.
        -- rewrite Heq. by rewrite <- app_assoc.
        -- constructor; [| done]. apply nonempty_of_len.
           rewrite len_slice_inside by lia. lia.
Qed.

Lemma len_concat_upper (chunks : list pystr) (bound : Z) :
  Forall (fun c => len c <= bound) chunks ->
  len (concat chunks) <= bound * Z.of_nat (List.length chunks).
Proof.
  induction 1 as [|c l Hc _ IH]; simpl.
  - unfold len. simpl. lia.
  - rewrite len_app. lia.
Qed.

Lemma len_concat_lower (chunks : list pystr) :
  Forall (fun c => c <> []) chunks ->
  Z.of_nat (List.length chunks) <= len (concat chunks).
Proof.
  induction 1 as [|c l Hc _ IH]; simpl.
  - unfold len. simpl. lia.
  - rewrite len_app. destruct c; [done |]. unfold len in *. simpl. lia.
Qed.

(** X1: for a text that is not empty and a positive [length], no chunk
    that [split_text] returns is empty, and the number [n] of chunks lies
    between the two obvious bounds: [len(text) <= length * n] and
    [n <= len(text)]. *)
Theorem split_text_chunks_nonempty (text : pystr) (length : Z) :
  0 < length -> text <> [] ->
  exists chunks,
    split_text text length = Some chunks /\
    Forall (fun c => c <> []) chunks /\
    len text <= length * Z.of_nat (List.length chunks) /\
    Z.of_nat (List.length chunks) <= len text.
Proof.
  intros Hpos Hne.
  destruct (Z.leb_spec (len text) length) as [Hshort | Hlong].
  - exists [text]. unfold split_text.
    destruct (Z.leb_spec (len text) length); [| lia].
    split; [done |]. split; [by repeat constructor |].
    destruct text; [done |]. unfold len in *. simpl in *. lia.
  - destruct (split_text_long text length Hpos Hlong)
      as (chunks & Hs & Hcat & Hlen & _).
    assert (Hne' : Forall (fun c => c <> []) chunks).
    { unfold split_text in Hs.
      destruct (Z.leb_spec (len text) length); [lia |].
      destruct (split_loop_nonempty text length Hpos (S (List.length text)) 0 []
                  ltac:(lia) ltac:(unfold len; lia)) as (rest & Heq & Hn).
      rewrite Heq in Hs. by injection Hs as <-. }
    exists chunks. split; [done |]. split; [done |].
    pose proof (len_concat_upper chunks length Hlen).
    pose proof (len_concat_lower chunks Hne'). rewrite Hcat in *. lia.
Qed.

Lemma split_text_chunks_nonempty_witness :
  0 < 5 /\ str "one two three" <> [] /\
  exists chunks,
    split_text (str "one two three") 5 = Some chunks /\
    Forall (fun c => c <> []) chunks /\
    len (str "one two three") <= 5 * Z.of_nat (List.length chunks) /\
    Z.of_nat (List.length chunks) <= len (str "one two three").
Proof.
  split; [lia |]. split; [discriminate |].
  apply (split_text_chunks_nonempty (str "one two three") 5); [lia | discriminate].
Defined.

(** With [length <= 0] the loop never moves forward. *)
Lemma split_loop_stuck (text : pystr) (length : Z) :
  length <= 0 -> 0 < len text ->
  forall fuel start chunks,
    start <= 0 -> split_loop fuel text length start chunks = None.
Proof.
  intros Hlen Htext. induction fuel as [|fuel IH]; intros start chunks Hstart.
  - reflexivity.
  - simpl. destruct (Z.ltb_spec start (len text)) as [_ | ?]; [| lia].
    destruct (Z.geb_spec (start + length) (len text)) as [? | _]; [lia |].
    replace (Z.to_nat (start + length - start)) with O by lia. simpl.
    apply IH. lia.
Qed.

(** X2: with [length <= 0] and a text that is not empty, the [while] loop
    of [split_text] never ends: the empty slice is appended for ever.  In
    the model no amount of fuel gives a result. *)
Theorem split_text_never_returns (text : pystr) (length : Z) :
  length <= 0 -> text <> [] ->
  (forall fuel, split_loop fuel text length 0 [] = None) /\
  split_text text length = None.
Proof.
  intros Hlen Hne.
  assert (Htext : 0 < len text).
  { destruct text; [done |]. unfold len. simpl. lia. }
  split.
  - intros fuel. by apply split_loop_stuck.
  - unfold split_text. destruct (Z.leb_spec (len text) length); [lia |].
    by apply split_loop_stuck.
Qed.

Lemma split_text_never_returns_witness :
  0 <= 0 /\ str "abc" <> [] /\
  (forall fuel, split_loop fuel (str "abc") 0 0 [] = None) /\
  split_text (str "abc") 0 = None.
Proof.
  split; [lia |]. split; [discriminate |].
  apply (split_text_never_returns (str "abc") 0); [lia | discriminate].
Defined.

End SplitMore.

(** ** More about [markdown_to_telegram_html] *)

Module TranscoderMore.
Import Re Transcoder Plain.

Lemma char_eqb_neq (a b : char) : a <> b -> char_eqb a b = false.
Proof. intros H. unfold char_eqb. by apply N.eqb_neq. Qed.

Lemma char_eqb_eq (a b : char) : char_eqb a b = true -> a = b.
Proof. unfold char_eqb. apply N.eqb_eq. Qed.

(** *** Passes that find nothing *)

Lemma re_sub_scan_quiet {S : Type} (m : matcher) (repl : S -> list pystr -> S * pystr)
    (P : char -> Prop) (t1 : pystr) :
  (forall prev c r, P c -> m prev (c :: r) = None) ->
  Forall P t1 ->
  forall st prev, re_sub_scan m repl st prev 0 t1 = (st, t1).
Proof.
  intros Hm. induction 1 as [|c t Hc _ IH]; intros st prev; simpl; [done |].
  rewrite (Hm prev c t Hc). by rewrite IH.
Qed.

Lemma re_sub_quiet (m : matcher) (repl : list pystr -> pystr) (P : char -> Prop)
    (t1 : pystr) :
  (forall prev c r, P c -> m prev (c :: r) = None) ->
  Forall P t1 -> re_sub m repl t1 = t1.
Proof.
  intros Hm Ht. unfold re_sub, re_sub_state.
  by rewrite (re_sub_scan_quiet m _ P t1 Hm Ht).
Qed.

Section Quiet.

Variable unicode_alnum : char -> bool.

Lemma strip_prefix_neq (p0 : char) (p : pystr) (c : char) (r : pystr) :
  c <> p0 -> strip_prefix (p0 :: p) (c :: r) = None.
Proof.
  intros Hc. unfold strip_prefix. cbn [starts_with].
  rewrite (char_eqb_neq p0 c) by congruence. done.
Qed.

Lemma code_block_re_start : starts_only_at (chr "`") (code_block_re unicode_alnum).
Proof.
  intros prev c r Hc. unfold code_block_re.
  change fence with (chr "`" :: str "``"). by rewrite strip_prefix_neq.
Qed.

Lemma inline_code_re_start : starts_only_at (chr "`") inline_code_re.
Proof.
  intros prev c r Hc. unfold inline_code_re. by rewrite char_eqb_neq.
Qed.

Lemma link_re_start : starts_only_at (chr "[") link_re.
Proof.
  intros prev c r Hc. unfold link_re. by rewrite char_eqb_neq.
Qed.

Lemma heading_re_start : starts_only_at (chr "#") heading_re.
Proof.
  intros prev c r Hc. unfold heading_re. cbn [span]. unfold is_char.
  rewrite char_eqb_neq by done. cbn [fst length Nat.min heading_marks].
  by destruct prev as [p|]; [destruct (char_eqb p NL) |].
Qed.

Lemma doubled_re_start mark : starts_only_at mark (doubled_re mark).
Proof.
  intros prev c r Hc. unfold doubled_re. by rewrite strip_prefix_neq.
Qed.

Lemma single_re_start mark : starts_only_at mark (single_re mark).
Proof.
  intros prev c r Hc. unfold single_re. rewrite (char_eqb_neq c mark) by done.
  by destruct prev as [p|]; [destruct (char_eqb p mark) |].
Qed.

Lemma lazy_pair_re_start mark : starts_only_at mark (lazy_pair_re mark).
Proof.
  intros prev c r Hc. unfold lazy_pair_re. by rewrite strip_prefix_neq.
Qed.

Lemma blank_lines_re_start : starts_only_at NL blank_lines_re.
Proof.
  intros prev c r Hc. unfold blank_lines_re. cbn [span]. unfold is_char.
  by rewrite char_eqb_neq.
Qed.

End Quiet.

(** *** The last pass *)

Lemma marker_scan (t1 : pystr) (prev : option char) :
  re_sub_scan marker_re (fun (_ : unit) groups => (tt, (fun _ => []) groups)) tt prev 0 t1
  = (tt, List.filter (fun c => negb (is_marker c)) t1).
Proof.
  revert prev. induction t1 as [|c t IH]; intros prev; [done |].
  cbn [re_sub_scan marker_re List.filter]. unfold is_marker.
  destruct (char_eqb c (chr "*") || char_eqb c (chr "_") || char_eqb c (chr "~"));
    cbn [negb Nat.sub]; rewrite IH; done.
Qed.

Lemma marker_pass (t1 : pystr) :
  re_sub marker_re (fun _ => []) t1 = List.filter (fun c => negb (is_marker c)) t1.
Proof. unfold re_sub, re_sub_state. by rewrite marker_scan. Qed.

(** X3: whatever the input, the text that [markdown_to_telegram_html]
    returns holds no star, no underscore and no tilde. *)
Theorem output_has_no_markers (unicode_alnum : char -> bool) (text : pystr) :
  Forall (fun c => is_marker c = false) (markdown_to_telegram_html unicode_alnum text).
Proof.
  unfold markdown_to_telegram_html. destruct text as [|c0 text]; [constructor |].
  destruct (re_sub_state _ _ _ _) as [st1 t1].
  destruct (re_sub_state _ _ _ _) as [[n blocks] t2].
  rewrite marker_pass. apply List.Forall_forall. intros c Hc.
  apply List.filter_In in Hc as [_ Hc]. by apply negb_true_iff.
Qed.

(** *** Text without markup *)

Lemma markup_free_neq (c t : char) :
  markup_free c = true -> List.In t TRIGGERS -> c <> t.
Proof.
  unfold markup_free. intros H Hin ->. apply negb_true_iff in H.
  assert (existsb (char_eqb t) TRIGGERS = true); [| congruence].
  apply List.existsb_exists. exists t. split; [done |]. apply N.eqb_refl.
Qed.

Ltac trigger := vm_compute; tauto.

Lemma escape_char_markup_free (c : char) :
  markup_free c = true -> Forall (fun d => markup_free d = true) (escape_char false c).
Proof.
  intros H. unfold escape_char. simpl.
  repeat match goal with
         | |- context [char_eqb c ?x] => destruct (char_eqb c x)
         end;
    repeat constructor; done.
Qed.

Lemma html_escape_markup_free (s : pystr) :
  Forall (fun c => markup_free c = true) s ->
  Forall (fun c => markup_free c = true) (html_escape s false).
Proof.
  induction 1 as [|c t Hc _ IH]; simpl; [constructor |].
  apply Forall_app. split; [by apply escape_char_markup_free | done].
Qed.

Lemma escape_char_head (q : bool) (c d : char) :
  is_space c = false -> head (escape_char q c) = Some d -> is_space d = false.
Proof.
  intros Hc. unfold escape_char.
  repeat match goal with
         | |- context [if ?b then _ else _] => destruct b
         end; simpl; intros [= <-]; done.
Qed.

Lemma escape_char_last (q : bool) (c d : char) :
  is_space c = false -> last (escape_char q c) = Some d -> is_space d = false.
Proof.
  intros Hc. unfold escape_char.
  repeat match goal with
         | |- context [if ?b then _ else _] => destruct b
         end; simpl; intros [= <-]; done.
Qed.

Lemma escape_char_nonempty (q : bool) (c : char) : escape_char q c <> [].
Proof.
  unfold escape_char.
  repeat match goal with
         | |- context [if ?b then _ else _] => destruct b
         end; done.
Qed.

Lemma html_escape_snoc (s : pystr) (c : char) (q : bool) :
  html_escape (s ++ [c]) q = html_escape s q ++ escape_char q c.
Proof.
  unfold html_escape. rewrite flat_map_app. simpl. by rewrite app_nil_r.
Qed.

Lemma last_app_nonempty (l1 l2 : pystr) : l2 <> [] -> last (l1 ++ l2) = last l2.
Proof.
  intros H. destruct l2 as [|x l2] using rev_ind; [done |].
  by rewrite app_assoc, !last_snoc.
Qed.

Lemma html_escape_no_edge_space (s : pystr) (q : bool) :
  no_edge_space s -> no_edge_space (html_escape s q).
Proof.
  intros [Hh Hl]. split.
  - destruct s as [|c s]; [done |]. simpl. intros d Hd.
    pose proof (escape_char_nonempty q c) as Hne.
    destruct (escape_char q c) as [|e es] eqn:E; [done |]. simpl in Hd.
    apply (escape_char_head q c d); [by apply Hh |]. by rewrite E.
  - destruct s as [|c s] using rev_ind; [done |].
    rewrite html_escape_snoc. intros d.
    rewrite last_app_nonempty by apply escape_char_nonempty.
    apply escape_char_last. apply Hl. by rewrite last_snoc.
Qed.

Lemma lstrip_id (s : pystr) :
  (forall c, head s = Some c -> is_space c = false) -> lstrip s = s.
Proof.
  intros H. unfold lstrip. destruct s as [|c s]; [done |]. simpl.
  by rewrite (H c eq_refl).
Qed.

Lemma strip_id (s : pystr) : no_edge_space s -> strip s = s.
Proof.
  intros [Hh Hl]. unfold strip. rewrite (lstrip_id s Hh).
  rewrite lstrip_id; [apply reverse_involutive |].
  intros c. rewrite head_reverse. apply Hl.
Qed.

(** X4: a text in which no construct of the markup can begin (no
    backtick, bracket, hash, star, underscore, tilde, bar or newline) and
    that has no white space at its ends comes out as it went in, but for
    the HTML escaping of [&], [<] and [>]. *)
Theorem plain_text_is_only_escaped (unicode_alnum : char -> bool) (text : pystr) :
  Forall (fun c => markup_free c = true) text ->
  no_edge_space text ->
  markdown_to_telegram_html unicode_alnum text = html_escape text false.
Proof.
  intros Hfree Hedge.
  assert (Hoff : forall t, List.In t TRIGGERS -> Forall (fun c => c <> t) text).
  { intros t Ht. eapply Forall_impl; [exact Hfree |]. intros c Hc.
    by apply markup_free_neq. }
  assert (Hoff' : forall t, List.In t TRIGGERS ->
            Forall (fun c => c <> t) (html_escape text false)).
  { intros t Ht. eapply Forall_impl; [by apply html_escape_markup_free |].
    intros c Hc. by apply markup_free_neq. }
  unfold markdown_to_telegram_html. destruct text as [|c0 text]; [done |].
  unfold re_sub_state.
  rewrite (re_sub_scan_quiet _ _ _ _ (code_block_re_start unicode_alnum)
             (Hoff (chr "`") ltac:(trigger))).
  rewrite (re_sub_scan_quiet _ _ _ _ inline_code_re_start
             (Hoff (chr "`") ltac:(trigger))).
  set (escaped := html_escape (c0 :: text) false) in *.
  rewrite (re_sub_quiet _ _ _ escaped link_re_start (Hoff' (chr "[") ltac:(trigger))).
  rewrite (re_sub_quiet _ _ _ escaped heading_re_start (Hoff' (chr "#") ltac:(trigger))).
  rewrite (re_sub_quiet _ _ _ escaped (doubled_re_start _)
             (Hoff' (chr "*") ltac:(trigger))).
  rewrite (re_sub_quiet _ _ _ escaped (doubled_re_start _)
             (Hoff' (chr "_") ltac:(trigger))).
  rewrite (re_sub_quiet _ _ _ escaped (single_re_start _)
             (Hoff' (chr "*") ltac:(trigger))).
  rewrite (re_sub_quiet _ _ _ escaped (single_re_start _)
             (Hoff' (chr "_") ltac:(trigger))).
  rewrite (re_sub_quiet _ _ _ escaped (lazy_pair_re_start _)
             (Hoff' (chr "~") ltac:(trigger))).
  rewrite (re_sub_quiet _ _ _ escaped (lazy_pair_re_start _)
             (Hoff' (chr "|") ltac:(trigger))).
  simpl restore_code.
  rewrite (re_sub_quiet _ _ _ escaped blank_lines_re_start (Hoff' NL ltac:(trigger))).
  rewrite strip_id by (by apply html_escape_no_edge_space).
  rewrite marker_pass.
  apply List.forallb_filter_id. apply List.forallb_forall. intros c Hc.
  apply negb_true_iff. unfold is_marker.
  pose proof (proj1 (List.Forall_forall _ _) (Hoff' (chr "*") ltac:(trigger)) c Hc).
  pose proof (proj1 (List.Forall_forall _ _) (Hoff' (chr "_") ltac:(trigger)) c Hc).
  pose proof (proj1 (List.Forall_forall _ _) (Hoff' (chr "~") ltac:(trigger)) c Hc).
  by rewrite !char_eqb_neq.
Qed.

Lemma plain_text_is_only_escaped_witness :
  Forall (fun c => markup_free c = true) (str "1 < 2 & 3 > 2") /\
  no_edge_space (str "1 < 2 & 3 > 2") /\
  markdown_to_telegram_html (fun _ => false) (str "1 < 2 & 3 > 2")
    = html_escape (str "1 < 2 & 3 > 2") false.
Proof.
  assert (H1 : Forall (fun c => markup_free c = true) (str "1 < 2 & 3 > 2"))
    by (repeat constructor).
  assert (H2 : no_edge_space (str "1 < 2 & 3 > 2"))
    by (split; intros c [= <-]; reflexivity).
  split; [exact H1 |]. split; [exact H2 |].
  exact (plain_text_is_only_escaped (fun _ => false) (str "1 < 2 & 3 > 2") H1 H2).
Defined.

End TranscoderMore.

(** ** Code spans, white space and links *)

Module TranscoderSpans.
Import Re Transcoder Plain Span TranscoderMore.

Lemma span_all (p : char -> bool) (s : pystr) :
  Forall (fun c => p c = true) s -> span p s = (s, []).
Proof.
  induction 1 as [|c t Hc _ IH]; [done |]. cbn [span]. by rewrite Hc, IH.
Qed.

Lemma span_until (p : char -> bool) (s : pystr) (d : char) (r : pystr) :
  Forall (fun c => p c = true) s -> p d = false -> span p (s ++ d :: r) = (s, d :: r).
Proof.
  intros Hs Hd. induction Hs as [|c t Hc _ IH]; cbn [span app].
  - by rewrite Hd.
  - by rewrite Hc, IH.
Qed.

Lemma re_sub_scan_skip_all {S : Type} (m : matcher)
    (repl : S -> list pystr -> S * pystr) (rest : pystr) :
  forall st prev skip,
    (length rest <= skip)%nat -> re_sub_scan m repl st prev skip rest = (st, []).
Proof.
  induction rest as [|c t IH]; intros st prev skip Hlen; [done |].
  cbn [re_sub_scan]. destruct skip as [|k]; [simpl in Hlen; lia |].
  apply IH. simpl in Hlen. lia.
Qed.

Lemma re_sub_scan_miss {S : Type} (m : matcher)
    (repl : S -> list pystr -> S * pystr) st prev (c : char) (r : pystr) :
  m prev (c :: r) = None ->
  re_sub_scan m repl st prev 0 (c :: r)
  = (fst (re_sub_scan m repl st (Some c) 0 r),
     c :: snd (re_sub_scan m repl st (Some c) 0 r)).
Proof.
  intros Hm. cbn [re_sub_scan]. rewrite Hm.
  by destruct (re_sub_scan m repl st (Some c) 0 r).
Qed.

Lemma re_sub_scan_hit {S : Type} (m : matcher)
    (repl : S -> list pystr -> S * pystr) st prev (c : char) (r : pystr)
    (groups : list pystr) (n : nat) :
  m prev (c :: r) = Some (groups, n) ->
  re_sub_scan m repl st prev 0 (c :: r)
  = (fst (re_sub_scan m repl (fst (repl st groups)) (Some c) (n - 1) r),
     snd (repl st groups)
       ++ snd (re_sub_scan m repl (fst (repl st groups)) (Some c) (n - 1) r)).
Proof.
  intros Hm. cbn [re_sub_scan]. rewrite Hm.
  destruct (repl st groups) as [st1 out]. simpl.
  by destruct (re_sub_scan m repl st1 (Some c) (n - 1) r).
Qed.

Lemma re_sub_scan_quiet_prefix {S : Type} (m : matcher)
    (repl : S -> list pystr -> S * pystr) (P : char -> Prop) (t1 t2 : pystr) :
  (forall prev c r, P c -> m prev (c :: r) = None) ->
  Forall P t1 ->
  forall st prev, exists prev',
    re_sub_scan m repl st prev 0 (t1 ++ t2)
    = (fst (re_sub_scan m repl st prev' 0 t2),
       t1 ++ snd (re_sub_scan m repl st prev' 0 t2)).
Proof.
  intros Hm. induction 1 as [|c t Hc _ IH]; intros st prev.
  - exists prev. simpl. by destruct (re_sub_scan m repl st prev 0 t2).
  - cbn [app re_sub_scan]. rewrite (Hm prev c (t ++ t2) Hc).
    destruct (IH st (Some c)) as [prev' ->]. by exists prev'.
Qed.

Lemma re_sub_Forall (m : matcher) (repl : list pystr -> pystr) (P : char -> Prop) :
  (forall groups, Forall P (repl groups)) ->
  forall t1, Forall P t1 -> Forall P (re_sub m repl t1).
Proof.
  intros Hrepl t1 Ht. unfold re_sub, re_sub_state.
  generalize (@None char) O. induction Ht as [|c t Hc _ IH]; intros prev skip.
  - constructor.
  - cbn [re_sub_scan]. destruct skip as [|k]; [| apply IH].
    destruct (m prev (c :: t)) as [[groups n]|].
    + specialize (IH (Some c) (n - 1)%nat).
      destruct (re_sub_scan m _ tt (Some c) (n - 1) t) as [u out]. simpl in *.
      apply Forall_app. split; [apply Hrepl | done].
    + specialize (IH (Some c) O).
      destruct (re_sub_scan m _ tt (Some c) 0 t) as [u out]. simpl in *.
      by constructor.
Qed.

Lemma starts_with_refl (s : pystr) : starts_with s s = true.
Proof.
  induction s as [|c s IH]; [done |]. cbn [starts_with].
  unfold char_eqb. by rewrite N.eqb_refl, IH.
Qed.

Lemma replace_whole (old new : pystr) : old <> [] -> replace old new old = new.
Proof.
  intros Hne. destruct old as [|c o]; [done |].
  unfold replace, re_sub, re_sub_state. cbn [re_sub_scan].
  rewrite starts_with_refl.
  rewrite re_sub_scan_skip_all by (simpl; lia). simpl. apply app_nil_r.
Qed.

Lemma html_escape_Forall (P : char -> Prop) (q : bool) (s : pystr) :
  (forall c, P c -> Forall P (escape_char q c)) ->
  Forall P s -> Forall P (html_escape s q).
Proof.
  intros He. induction 1 as [|c t Hc _ IH]; simpl; [constructor |].
  apply Forall_app. split; [by apply He | done].
Qed.

Lemma html_escape_id (s : pystr) (q : bool) :
  Forall (fun c => escape_char q c = [c]) s -> html_escape s q = s.
Proof.
  induction 1 as [|c t Hc _ IH]; [done |]. unfold html_escape in *. simpl.
  by rewrite Hc, IH.
Qed.

(** *** White space *)

Lemma is_space_neq (c t : char) : is_space c = true -> is_space t = false -> c <> t.
Proof. intros H1 H2 ->. congruence. Qed.

Lemma is_space_escape (c : char) : is_space c = true -> escape_char false c = [c].
Proof.
  intros H. unfold escape_char.
  rewrite (char_eqb_neq c (chr "&")), (char_eqb_neq c (chr "<")),
    (char_eqb_neq c (chr ">")) by (by apply is_space_neq).
  done.
Qed.

(** X5: a text of white space only (blanks, tabs, newlines, ...) gives the
    empty string. *)
Theorem white_space_gives_nothing (unicode_alnum : char -> bool) (text : pystr) :
  Forall (fun c => is_space c = true) text ->
  markdown_to_telegram_html unicode_alnum text = [].
Proof.
  intros Hsp.
  assert (Hoff : forall t, is_space t = false -> Forall (fun c => c <> t) text).
  { intros t Ht. eapply Forall_impl; [exact Hsp |]. intros c Hc.
    by apply is_space_neq. }
  unfold markdown_to_telegram_html. destruct text as [|c0 text]; [done |].
  unfold re_sub_state.
  rewrite (re_sub_scan_quiet _ _ _ _ (code_block_re_start unicode_alnum)
             (Hoff (chr "`") eq_refl)).
  rewrite (re_sub_scan_quiet _ _ _ _ inline_code_re_start (Hoff (chr "`") eq_refl)).
  rewrite html_escape_id
    by (eapply Forall_impl; [exact Hsp | apply is_space_escape]).
  set (t0 := c0 :: text) in *.
  rewrite (re_sub_quiet _ _ _ t0 link_re_start (Hoff (chr "[") eq_refl)).
  rewrite (re_sub_quiet _ _ _ t0 heading_re_start (Hoff (chr "#") eq_refl)).
  rewrite (re_sub_quiet _ _ _ t0 (doubled_re_start _) (Hoff (chr "*") eq_refl)).
  rewrite (re_sub_quiet _ _ _ t0 (doubled_re_start _) (Hoff (chr "_") eq_refl)).
  rewrite (re_sub_quiet _ _ _ t0 (single_re_start _) (Hoff (chr "*") eq_refl)).
  rewrite (re_sub_quiet _ _ _ t0 (single_re_start _) (Hoff (chr "_") eq_refl)).
  rewrite (re_sub_quiet _ _ _ t0 (lazy_pair_re_start _) (Hoff (chr "~") eq_refl)).
  rewrite (re_sub_quiet _ _ _ t0 (lazy_pair_re_start _) (Hoff (chr "|") eq_refl)).
  simpl restore_code.
  assert (Hblank : Forall (fun c => is_space c = true)
                     (re_sub blank_lines_re (fun _ => [NL; NL]) t0)).
  { apply re_sub_Forall; [| exact Hsp]. intros _. by repeat constructor. }
  unfold strip at 1. unfold lstrip at 2. rewrite (span_all _ _ Hblank). done.
Qed.

Lemma white_space_gives_nothing_witness :
  Forall (fun c => is_space c = true) ([SP; NL; NL; NL; NL; SP]) /\
  markdown_to_telegram_html (fun _ => false) [SP; NL; NL; NL; NL; SP] = [].
Proof.
  assert (H : Forall (fun c => is_space c = true) ([SP; NL; NL; NL; NL; SP]))
    by (repeat constructor).
  split; [exact H |].
  exact (white_space_gives_nothing (fun _ => false) _ H).
Defined.

(** *** One code span *)

Lemma code_char_neq (c t : char) :
  code_char c = true -> List.In t (str "`*_~" ++ [NL]) -> c <> t.
Proof.
  unfold code_char. intros H Hin ->. apply negb_true_iff in H.
  assert (existsb (char_eqb t) (str "`*_~" ++ [NL]) = true); [| congruence].
  apply List.existsb_exists. exists t. split; [done |]. apply N.eqb_refl.
Qed.

Lemma escape_char_code_char (c : char) :
  code_char c = true -> Forall (fun d => code_char d = true) (escape_char false c).
Proof.
  intros H. unfold escape_char. simpl.
  repeat match goal with
         | |- context [char_eqb c ?x] => destruct (char_eqb c x)
         end;
    repeat constructor; done.
Qed.

Lemma code_block_re_needs_fence (unicode_alnum : char -> bool) (prev : option char)
    (c : char) (r : pystr) :
  c <> BACKTICK -> code_block_re unicode_alnum prev (BACKTICK :: c :: r) = None.
Proof.
  intros Hc. unfold code_block_re, strip_prefix.
  change fence with [BACKTICK; BACKTICK; BACKTICK]. cbn [starts_with].
  rewrite (char_eqb_neq BACKTICK c) by congruence.
  by rewrite andb_false_l, andb_false_r.
Qed.

Lemma code_block_pass (unicode_alnum : char -> bool) (code : pystr) :
  code <> [] -> Forall (fun c => c <> BACKTICK) code ->
  re_sub_state (code_block_re unicode_alnum) extract_code_block (O, [])
    (BACKTICK :: code ++ [BACKTICK])
  = ((O, []), BACKTICK :: code ++ [BACKTICK]).
Proof.
  intros Hne Hcode. destruct code as [|c1 code]; [done |].
  unfold re_sub_state.
  rewrite re_sub_scan_miss
    by (apply code_block_re_needs_fence; by inversion Hcode).
  destruct (re_sub_scan_quiet_prefix _ extract_code_block _ _ [BACKTICK]
              (code_block_re_start unicode_alnum) Hcode (O, []) (Some BACKTICK))
    as [prev' ->].
  done.
Qed.

Lemma inline_code_pass (code : pystr) :
  code <> [] -> Forall (fun c => c <> BACKTICK) code ->
  re_sub_state inline_code_re extract_inline_code (O, [])
    (BACKTICK :: code ++ [BACKTICK])
  = ((1%nat, [(str "@@INLINECODE_0@@", code)]), str "@@INLINECODE_0@@").
Proof.
  intros Hne Hcode. unfold re_sub_state.
  assert (Hm : inline_code_re None (BACKTICK :: code ++ [BACKTICK])
               = Some ([code], (1 + length code + 1)%nat)).
  { unfold inline_code_re. change (char_eqb BACKTICK (chr "`")) with true. cbv iota.
    rewrite span_until.
    - by destruct code.
    - eapply Forall_impl; [exact Hcode |]. intros c Hc. unfold not_char.
      by rewrite char_eqb_neq.
    - done. }
  rewrite (re_sub_scan_hit _ _ _ _ _ _ _ _ Hm).
  rewrite re_sub_scan_skip_all by (rewrite length_app; simpl; lia). done.
Qed.

(** X6: a single code span, [`code`], whose content is not empty and has no
    backtick, newline, star, underscore or tilde, becomes
    [<code>...</code>] around the HTML-escaped content. *)
Theorem code_span_is_kept (unicode_alnum : char -> bool) (code : pystr) :
  code <> [] ->
  Forall (fun c => code_char c = true) code ->
  markdown_to_telegram_html unicode_alnum ([BACKTICK] ++ code ++ [BACKTICK])
  = str "<code>" ++ html_escape code false ++ str "</code>".
Proof.
  intros Hne Hcode.
  assert (Hbt : Forall (fun c => c <> BACKTICK) code).
  { eapply Forall_impl; [exact Hcode |]. intros c Hc.
    apply code_char_neq; [done | vm_compute; tauto]. }
  assert (Hesc : Forall (fun c => code_char c = true) (html_escape code false)).
  { apply html_escape_Forall; [apply escape_char_code_char | done]. }
  set (out := str "<code>" ++ html_escape code false ++ str "</code>").
  assert (Hout : Forall (fun c => code_char c = true) out).
  { unfold out. rewrite !Forall_app. split; [by repeat constructor |].
    split; [done | by repeat constructor]. }
  unfold markdown_to_telegram_html. cbn [app].
  rewrite code_block_pass by done. rewrite inline_code_pass by done.
  match goal with
  | |- context [restore_code _ ?t] =>
      assert (Hmid : t = str "@@INLINECODE_0@@") by (vm_compute; reflexivity);
      rewrite Hmid
  end.
  cbn [restore_code]. rewrite replace_whole by done.
  change (if starts_with (str "@@CODEBLOCK_") (str "@@INLINECODE_0@@")
          then str "<pre>" ++ html_escape code false ++ str "</pre>"
          else str "<code>" ++ html_escape code false ++ str "</code>") with out.
  rewrite (re_sub_quiet _ _ (fun c => c <> NL) out blank_lines_re_start).
  2:{ eapply Forall_impl; [exact Hout |]. intros c Hc.
      apply code_char_neq; [done | vm_compute; tauto]. }
  rewrite strip_id.
  2:{ split.
      - unfold out. simpl. by intros c [= <-].
      - unfold out. rewrite app_assoc, last_app_nonempty by done. simpl.
        by intros c [= <-]. }
  rewrite marker_pass.
  apply List.forallb_filter_id. apply List.forallb_forall. intros c Hc.
  apply negb_true_iff. unfold is_marker.
  pose proof (proj1 (List.Forall_forall _ _) Hout c Hc) as Hcc.
  rewrite (char_eqb_neq c (chr "*")), (char_eqb_neq c (chr "_")),
    (char_eqb_neq c (chr "~"))
    by (apply code_char_neq; [done | vm_compute; tauto]).
  done.
Qed.

Lemma code_span_is_kept_witness :
  str "a<b" <> [] /\
  Forall (fun c => code_char c = true) (str "a<b") /\
  markdown_to_telegram_html (fun _ => false) ([BACKTICK] ++ str "a<b" ++ [BACKTICK])
  = str "<code>" ++ html_escape (str "a<b") false ++ str "</code>".
Proof.
  assert (H1 : str "a<b" <> []) by discriminate.
  assert (H2 : Forall (fun c => code_char c = true) (str "a<b"))
    by (repeat constructor).
  split; [exact H1 |]. split; [exact H2 |].
  exact (code_span_is_kept (fun _ => false) (str "a<b") H1 H2).
Defined.

End TranscoderSpans.

(** ** [escape_markdown_v2] *)

Module EscapeFacts.
Import Re Escape.

Lemma escape_scan (t1 : pystr) (prev : option char) :
  re_sub_scan to_escape_re
    (fun (_ : unit) groups => (tt, (fun g => [BACKSLASH] ++ group 1 g) groups))
    tt prev 0 t1
  = (tt, flat_map escape_one t1).
Proof.
  revert prev. induction t1 as [|c t IH]; intros prev; [done |].
  cbn [re_sub_scan to_escape_re flat_map]. unfold escape_one at 1.
  destruct (is_reserved c); cbn [Nat.sub]; rewrite IH; done.
Qed.

Lemma escape_markdown_v2_flat_map (text : pystr) :
  escape_markdown_v2 text = flat_map escape_one text.
Proof.
  unfold escape_markdown_v2. destruct text as [|c t]; [done |].
  unfold re_sub, re_sub_state. by rewrite escape_scan.
Qed.

Lemma escape_head_not_reserved (t1 : pystr) (d : char) (r : pystr) :
  flat_map escape_one t1 = d :: r -> is_reserved d = false.
Proof.
  destruct t1 as [|c t]; [done |]. simpl. unfold escape_one.
  destruct (is_reserved c) eqn:E; simpl; intros [= <- _]; done.
Qed.

(** X8: in the text that [escape_markdown_v2] returns, every character of
    the reserved class stands right after a backslash. *)
Theorem reserved_characters_are_escaped (text : pystr) (i : nat) (c : char) :
  escape_markdown_v2 text !! i = Some c ->
  is_reserved c = true ->
  exists j, i = S j /\ escape_markdown_v2 text !! j = Some BACKSLASH.
Proof.
  rewrite escape_markdown_v2_flat_map. revert i.
  induction text as [|a t IH]; intros i Hi Hc; [done |].
  simpl in *. unfold escape_one in *. destruct (is_reserved a) eqn:Ea.
  - destruct i as [|[|i]]; simpl in *.
    + injection Hi as <-. done.
    + by exists O.
    + destruct (IH i Hi Hc) as (j & -> & Hj). by exists (S (S j)).
  - destruct i as [|i]; simpl in *.
    + injection Hi as <-. congruence.
    + destruct (IH i Hi Hc) as (j & -> & Hj). by exists (S j).
Qed.

Lemma reserved_characters_are_escaped_witness :
  escape_markdown_v2 (str "a_b") !! 2%nat = Some (chr "_") /\
  is_reserved (chr "_") = true /\
  exists j, 2%nat = S j /\ escape_markdown_v2 (str "a_b") !! j = Some BACKSLASH.
Proof.
  assert (H1 : escape_markdown_v2 (str "a_b") !! 2%nat = Some (chr "_"))
    by reflexivity.
  assert (H2 : is_reserved (chr "_") = true) by reflexivity.
  split; [exact H1 |]. split; [exact H2 |].
  exact (reserved_characters_are_escaped (str "a_b") 2 (chr "_") H1 H2).
Defined.

(** X9: [escape_markdown_v2] loses nothing: two texts with the same escaped
    form are the same text (although the backslash itself is not
    escaped). *)
Theorem escape_markdown_v2_injective (s1 s2 : pystr) :
  escape_markdown_v2 s1 = escape_markdown_v2 s2 -> s1 = s2.
Proof.
  rewrite !escape_markdown_v2_flat_map. revert s2.
  induction s1 as [|a s1 IH]; intros s2 H.
  - destruct s2 as [|b s2]; [done |]. simpl in H. unfold escape_one in H.
    by destruct (is_reserved b).
  - destruct s2 as [|b s2].
    + simpl in H. unfold escape_one in H. by destruct (is_reserved a).
    + simpl in H. unfold escape_one in H.
      destruct (is_reserved a) eqn:Ea, (is_reserved b) eqn:Eb; simpl in H.
      * injection H as <- H. f_equal. by apply IH.
      * injection H as <- H. symmetry in H.
        apply escape_head_not_reserved in H. congruence.
      * injection H as -> H.
        apply escape_head_not_reserved in H. congruence.
      * injection H as <- H. f_equal. by apply IH.
Qed.

Lemma escape_markdown_v2_injective_witness :
  escape_markdown_v2 (str "1.5*x") = escape_markdown_v2 (str "1.5*x") /\
  str "1.5*x" = str "1.5*x".
Proof.
  split; [reflexivity |].
  exact (escape_markdown_v2_injective (str "1.5*x") (str "1.5*x") eq_refl).
Defined.

End EscapeFacts.

(** ** Runs of requests against the quota *)

Module QuotaMore.
Import Quota Grants.

Section Ledger.

Variable USE_SQLITE : bool.
Variable isoformat : Z -> pystr.
Variable fromisoformat : pystr -> option Z.

Abbreviation check_limit := (check_and_consume_limit USE_SQLITE isoformat fromisoformat).
Abbreviation serve_all := (serve USE_SQLITE isoformat fromisoformat).

Lemma check_privileged now user_id (users : gmap Z user) u :
  users !! user_id = Some u ->
  is_admin u || subscribed now u = true ->
  check_limit now user_id users = (true, users).
Proof.
  intros H Hp. unfold check_and_consume_limit. rewrite H.
  destruct (is_admin u); [done |]. simpl in Hp. unfold subscribed in Hp.
  destruct (subscription_status u), (subscription_expires u); try done.
  by rewrite Z.gtb_ltb, Hp.
Qed.

Lemma serve_privileged user_id (instants : list Z) (users : gmap Z user) u :
  users !! user_id = Some u ->
  Forall (fun t => is_admin u || subscribed t u = true) instants ->
  serve_all instants user_id users = (replicate (length instants) true, users).
Proof.
  intros H. induction 1 as [|t more Ht _ IH]; [done |].
  cbn [serve]. rewrite (check_privileged t user_id users u H Ht), IH. done.
Qed.

Lemma check_unsubscribed now user_id (users : gmap Z user) u :
  users !! user_id = Some u ->
  is_admin u = false ->
  subscribed now u = false ->
  let counter := if stale fromisoformat now u then 7 else free_messages_today u in
  fst (check_limit now user_id users) = (0 <? counter) /\
  exists u',
    snd (check_limit now user_id users) !! user_id = Some u' /\
    free_messages_today u' = (if 0 <? counter then counter - 1 else counter) /\
    last_free_reset_date u'
      = (if stale fromisoformat now u
         then stored_date USE_SQLITE isoformat (date_of now)
         else last_free_reset_date u) /\
    is_admin u' = false /\
    (forall t, subscribed t u = false -> subscribed t u' = false).
Proof.
  intros H Hadm Hsub. unfold check_and_consume_limit. rewrite H.
  destruct u as [free date st ex adm la]. simpl in *. subst adm. simpl.
  unfold subscribed, stale in *; simpl in *.
  assert (Hgt : forall a b, (a >? b) = (b <? a)) by (intros; apply Z.gtb_ltb).
  destruct st, ex as [t0|]; simpl in *; rewrite ?Hgt, ?Hsub; simpl;
    (destruct date as [day | iso |]; simpl;
     [ destruct (day <? date_of now) eqn:Hd
     | destruct (fromisoformat iso) as [day|] eqn:Hp;
       [ destruct (day <? date_of now) eqn:Hd
       | replace (date_of now - 1 <? date_of now) with true
           by (symmetry; apply Z.ltb_lt; lia) ]
     | ]); simpl; rewrite ?Hgt;
    try (destruct (0 <? free) eqn:Hf; simpl);
    (split; [done |]);
    unfold update_user_limits, deactivate_subscription;
    rewrite ?lookup_alter_eq, H; simpl; eexists; (split; [reflexivity |]); simpl;
    repeat split; try done.
Qed.

Lemma granted_cons (ok : bool) (oks : list bool) :
  granted (ok :: oks) = (if ok then 1 else 0) + granted oks.
Proof. unfold granted. destruct ok; simpl; lia. Qed.

Lemma serve_cons_shape t more user_id (users users1 : gmap Z user) (c : Z) :
  check_limit t user_id users = (0 <? c, users1) ->
  fst (serve_all more user_id users1)
    = List.map (fun k => Z.of_nat k <? (if 0 <? c then c - 1 else c))
        (seq 0 (length more)) ->
  fst (serve_all (t :: more) user_id users)
    = List.map (fun k => Z.of_nat k <? c) (seq 0 (S (length more))) /\
  snd (serve_all (t :: more) user_id users) = snd (serve_all more user_id users1) /\
  granted (fst (serve_all (t :: more) user_id users))
    = (if 0 <? c then 1 else 0) + granted (fst (serve_all more user_id users1)).
Proof.
  intros Hcheck Hrest. cbn [serve]. rewrite Hcheck.
  destruct (serve_all more user_id users1) as [oks users2]. simpl in *.
  split; [| split; [done | apply granted_cons]].
  rewrite Hrest, <- seq_shift, List.map_map. f_equal.
  apply List.map_ext. intros k.
  destruct (Z.ltb_spec 0 c); destruct (Z.ltb_spec (Z.of_nat (S k)) c);
    destruct (Z.ltb_spec (Z.of_nat k) (c - 1)); destruct (Z.ltb_spec (Z.of_nat k) c);
    try done; lia.
Qed.

Lemma serve_fresh user_id (instants : list Z) :
  forall (users : gmap Z user) u,
    users !! user_id = Some u ->
    is_admin u = false ->
    Forall (fun t => subscribed t u = false /\ stale fromisoformat t u = false)
      instants ->
    fst (serve_all instants user_id users)
      = List.map (fun k => Z.of_nat k <? free_messages_today u)
          (seq 0 (length instants)) /\
    exists u',
      snd (serve_all instants user_id users) !! user_id = Some u' /\
      free_messages_today u'
        = free_messages_today u - granted (fst (serve_all instants user_id users)).
Proof.
  induction instants as [|t more IH]; intros users u H Hadm Hall.
  - split; [done |]. exists u. split; [done |]. unfold granted. simpl. lia.
  - inversion Hall as [|? ? [Hsub Hst] Hmore]; subst.
    destruct (check_unsubscribed t user_id users u H Hadm Hsub)
      as (Hok & u' & Hu' & Hfree & Hdate & Hadm' & Hkeep).
    rewrite Hst in *.
    destruct (check_limit t user_id users) as [ok users1] eqn:E. simpl in Hok, Hu'.
    subst ok.
    destruct (IH users1 u' Hu' Hadm') as (Hoks & u'' & Hu'' & Hfree'').
    { eapply Forall_impl; [exact Hmore |]. intros t' [Hs' Hst']. split; [auto |].
      unfold stale in *. by rewrite Hdate. }
    rewrite Hfree in Hoks.
    destruct (serve_cons_shape t more user_id users users1 _ E Hoks)
      as (Hans & Htab & Hgr).
    split; [exact Hans |]. exists u''. rewrite Htab, Hgr. split; [done |].
    rewrite Hfree'', Hfree. destruct (0 <? free_messages_today u); lia.
Qed.

Lemma stale_same_day t now u :
  date_of t = date_of now -> stale fromisoformat t u = stale fromisoformat now u.
Proof. intros H. unfold stale. by rewrite H. Qed.

(** X10: the daily allowance.  A user who is no administrator and has no
    running subscription makes requests at instants of one and the same
    day.  The budget of that day is 7 when the stored reset date is stale
    and the stored counter otherwise; request number [k] (from 0) is
    accepted exactly when [k] is below the budget, and at the end the
    counter is the budget less the number of accepted requests.  Under
    SQLite this needs that the text written for today reads back as
    today. *)
Theorem daily_budget (now : Z) (later : list Z) (user_id : Z)
    (users : gmap Z user) (u : user) :
  users !! user_id = Some u ->
  is_admin u = false ->
  Forall (fun t => date_of t = date_of now /\ subscribed t u = false) (now :: later) ->
  (USE_SQLITE = true -> fromisoformat (isoformat (date_of now)) = Some (date_of now)) ->
  let budget := if stale fromisoformat now u then 7 else free_messages_today u in
  let answers := fst (serve_all (now :: later) user_id users) in
  answers = List.map (fun k => Z.of_nat k <? budget) (seq 0 (S (length later))) /\
  exists u',
    snd (serve_all (now :: later) user_id users) !! user_id = Some u' /\
    free_messages_today u' = budget - granted answers.
Proof.
  intros H Hadm Hall Hround. cbv zeta.
  destruct (stale fromisoformat now u) eqn:Hstale.
  - inversion Hall as [|? ? [_ Hsub] Hlater]; subst.
    destruct (check_unsubscribed now user_id users u H Hadm Hsub)
      as (Hok & u' & Hu' & Hfree & Hdate & Hadm' & Hkeep).
    rewrite Hstale in *.
    destruct (check_limit now user_id users) as [ok users1] eqn:E. simpl in Hok, Hu'.
    subst ok.
    destruct (serve_fresh user_id later users1 u' Hu' Hadm') as (Hoks & u'' & Hu'' & Hfree'').
    { eapply Forall_impl; [exact Hlater |]. intros t [Hday Hs]. split; [auto |].
      unfold stale. rewrite Hdate, Hday. unfold stored_date.
      destruct USE_SQLITE.
      - rewrite Hround by done. apply Z.ltb_irrefl.
      - apply Z.ltb_irrefl. }
    rewrite Hfree in Hoks.
    destruct (serve_cons_shape now later user_id users users1 7 E Hoks)
      as (Hans & Htab & Hgr).
    split; [exact Hans |]. exists u''. rewrite Htab, Hgr. split; [done |].
    rewrite Hfree'', Hfree. simpl. lia.
  - apply serve_fresh; [done | done |].
    eapply Forall_impl; [exact Hall |]. intros t [Hday Hs]. split; [done |].
    by rewrite (stale_same_day t now u Hday).
Qed.

End Ledger.

(** X12: under PostgreSQL a subscription granted at [now] for [days] days
    covers every request made before [now + days] days: all are accepted
    and nothing but the grant itself is written. *)
Theorem subscription_covers_its_period isoformat fromisoformat
    (now days : Z) (instants : list Z) (user_id : Z) (users : gmap Z user) (u : user) :
  users !! user_id = Some u ->
  Forall (fun t => t < now + days * MICROSECONDS_PER_DAY) instants ->
  serve false isoformat fromisoformat instants user_id
    (update_user_subscription false now user_id days users)
  = (replicate (length instants) true,
     update_user_subscription false now user_id days users).
Proof.
  intros H Hall. eapply serve_privileged.
  - unfold update_user_subscription. rewrite lookup_alter_eq, H. reflexivity.
  - eapply Forall_impl; [exact Hall |]. intros t Ht. simpl.
    unfold subscribed. simpl. apply orb_true_iff. right. by apply Z.ltb_lt.
Qed.

(** X13: under SQLite a granted subscription is never honoured.  The
    grant stores a text where [check_and_consume_limit] wants a
    [datetime], so a user who is no administrator is answered from the
    free allowance alone, at any instant and for any number of days. *)
Theorem sqlite_subscription_is_not_honoured isoformat fromisoformat
    (granted_at days now : Z) (user_id : Z) (users : gmap Z user) (u : user) :
  users !! user_id = Some u ->
  is_admin u = false ->
  fst (check_and_consume_limit true isoformat fromisoformat now user_id
         (update_user_subscription true granted_at user_id days users))
  = (0 <? (if stale fromisoformat now u then 7 else free_messages_today u)).
Proof.
  intros H Hadm.
  set (users' := update_user_subscription true granted_at user_id days users).
  assert (H' : users' !! user_id
               = Some {| free_messages_today := free_messages_today u;
                         last_free_reset_date := last_free_reset_date u;
                         subscription_status := active;
                         subscription_expires := expires_other;
                         is_admin := is_admin u;
                         last_active_date := last_active_date u |}).
  { unfold users', update_user_subscription. by rewrite lookup_alter_eq, H. }
  destruct (check_unsubscribed true isoformat fromisoformat now user_id users' _ H')
    as (Hok & _); [done | done |].
  exact Hok.
Qed.

Lemma daily_budget_witness :
  let users : gmap Z user := {[ Samples.alice := Samples.yesterdays_user ]} in
  let now := Samples.noon in
  let later := [now + 1; now + 2; now + 3; now + 4; now + 5; now + 6; now + 7; now + 8] in
  users !! Samples.alice = Some Samples.yesterdays_user /\
  is_admin Samples.yesterdays_user = false /\
  Forall (fun t => date_of t = date_of now /\ subscribed t Samples.yesterdays_user = false)
    (now :: later) /\
  (true = true ->
   calendar_fromisoformat (calendar_isoformat (date_of now)) = Some (date_of now)) /\
  let budget :=
    if stale calendar_fromisoformat now Samples.yesterdays_user then 7
    else free_messages_today Samples.yesterdays_user in
  let answers :=
    fst (serve true calendar_isoformat calendar_fromisoformat (now :: later)
           Samples.alice users) in
  answers = List.map (fun k => Z.of_nat k <? budget) (seq 0 (S (length later))) /\
  exists u',
    snd (serve true calendar_isoformat calendar_fromisoformat (now :: later)
           Samples.alice users) !! Samples.alice = Some u' /\
    free_messages_today u' = budget - granted answers.
Proof.
  cbv zeta.
  assert (H1 : ({[ Samples.alice := Samples.yesterdays_user ]} : gmap Z user)
                 !! Samples.alice = Some Samples.yesterdays_user) by reflexivity.
  assert (H2 : is_admin Samples.yesterdays_user = false) by reflexivity.
  assert (H3 : Forall (fun t => date_of t = date_of Samples.noon /\
                                subscribed t Samples.yesterdays_user = false)
                 (Samples.noon ::
                    [Samples.noon + 1; Samples.noon + 2; Samples.noon + 3;
                     Samples.noon + 4; Samples.noon + 5; Samples.noon + 6;
                     Samples.noon + 7; Samples.noon + 8]))
    by (repeat constructor).
  assert (H4 : true = true ->
               calendar_fromisoformat (calendar_isoformat (date_of Samples.noon))
               = Some (date_of Samples.noon)) by (intros _; reflexivity).
  split; [exact H1 |]. split; [exact H2 |]. split; [exact H3 |]. split; [exact H4 |].
  exact (daily_budget true calendar_isoformat calendar_fromisoformat Samples.noon _
           Samples.alice _ Samples.yesterdays_user H1 H2 H3 H4).
Defined.

Lemma subscription_covers_its_period_witness :
  let users : gmap Z user := {[ Samples.alice := Samples.free_user 0 ]} in
  let now := Samples.noon in
  users !! Samples.alice = Some (Samples.free_user 0) /\
  Forall (fun t => t < now + 7 * MICROSECONDS_PER_DAY)
    [now; now + 6 * MICROSECONDS_PER_DAY] /\
  serve false Samples.iso Samples.from_iso [now; now + 6 * MICROSECONDS_PER_DAY]
    Samples.alice (update_user_subscription false now Samples.alice 7 users)
  = (replicate 2 true, update_user_subscription false now Samples.alice 7 users).
Proof.
  cbv zeta.
  assert (H1 : ({[ Samples.alice := Samples.free_user 0 ]} : gmap Z user)
                 !! Samples.alice = Some (Samples.free_user 0)) by reflexivity.
  assert (H2 : Forall (fun t => t < Samples.noon + 7 * MICROSECONDS_PER_DAY)
                 [Samples.noon; Samples.noon + 6 * MICROSECONDS_PER_DAY])
    by (repeat constructor).
  split; [exact H1 |]. split; [exact H2 |].
  exact (subscription_covers_its_period Samples.iso Samples.from_iso Samples.noon 7 _
           Samples.alice _ (Samples.free_user 0) H1 H2).
Defined.

Lemma sqlite_subscription_is_not_honoured_witness :
  let users : gmap Z user := {[ Samples.alice := Samples.free_user 0 ]} in
  users !! Samples.alice = Some (Samples.free_user 0) /\
  is_admin (Samples.free_user 0) = false /\
  fst (check_and_consume_limit true Samples.iso Samples.from_iso Samples.noon
         Samples.alice
         (update_user_subscription true (Samples.noon - 1) Samples.alice 30 users))
  = (0 <? (if stale Samples.from_iso Samples.noon (Samples.free_user 0) then 7
           else free_messages_today (Samples.free_user 0))).
Proof.
  cbv zeta.
  assert (H1 : ({[ Samples.alice := Samples.free_user 0 ]} : gmap Z user)
                 !! Samples.alice = Some (Samples.free_user 0)) by reflexivity.
  assert (H2 : is_admin (Samples.free_user 0) = false) by reflexivity.
  split; [exact H1 |]. split; [exact H2 |].
  exact (sqlite_subscription_is_not_honoured Samples.iso Samples.from_iso
           (Samples.noon - 1) 30 Samples.noon Samples.alice _ (Samples.free_user 0) H1 H2).
Defined.

End QuotaMore.

(** ** The stored conversation *)

Module HistoryFacts.
Import Bot.
Local Open Scope Z_scope.

Lemma keep_recent_own (user_id : Z) (n : nat) (l : list turn) :
  List.filter (fun t => turn_user t =? user_id) (keep_recent user_id n l)
  = take n (List.filter (fun t => turn_user t =? user_id) l).
Proof.
  revert n. induction l as [|t l IH]; intros n; simpl.
  - by destruct n.
  - destruct (turn_user t =? user_id) eqn:E.
    + destruct n as [|n]; simpl.
      * rewrite IH. by rewrite take_0.
      * by rewrite E, IH.
    + simpl. rewrite E. apply IH.
Qed.

Lemma keep_recent_other (user_id other : Z) (n : nat) (l : list turn) :
  other <> user_id ->
  List.filter (fun t => turn_user t =? other) (keep_recent user_id n l)
  = List.filter (fun t => turn_user t =? other) l.
Proof.
  intros Hne. revert n. induction l as [|t l IH]; intros n; simpl; [done |].
  destruct (turn_user t =? user_id) eqn:E.
  - apply Z.eqb_eq in E.
    replace (turn_user t =? other) with false by (symmetry; apply Z.eqb_neq; lia).
    destruct n; simpl; rewrite ?IH;
      replace (turn_user t =? other) with false by (symmetry; apply Z.eqb_neq; lia);
      done.
  - simpl. by rewrite IH.
Qed.

Lemma filter_insert_own (user_id : Z) (r : role) (content : pystr) (turns : list turn) :
  List.filter (fun t => turn_user t =? user_id)
    (rev (insert_message user_id r content turns))
  = take CONVERSATION_HISTORY_LIMIT
      ({| turn_user := user_id; turn_role := r; turn_content := content |}
       :: List.filter (fun t => turn_user t =? user_id) (rev turns)).
Proof.
  unfold insert_message. rewrite rev_involutive, keep_recent_own, rev_app_distr.
  simpl. by rewrite Z.eqb_refl.
Qed.

Lemma filter_insert_other (user_id other : Z) (r : role) (content : pystr)
    (turns : list turn) :
  other <> user_id ->
  List.filter (fun t => turn_user t =? other)
    (rev (insert_message user_id r content turns))
  = List.filter (fun t => turn_user t =? other) (rev turns).
Proof.
  intros Hne. unfold insert_message.
  rewrite rev_involutive, keep_recent_other by done. rewrite rev_app_distr. simpl.
  by replace (user_id =? other) with false by (symmetry; apply Z.eqb_neq; lia).
Qed.

Lemma insert_message_other (user_id other : Z) (r : role) (content : pystr)
    (turns : list turn) :
  other <> user_id ->
  List.filter (fun t => turn_user t =? other) (insert_message user_id r content turns)
  = List.filter (fun t => turn_user t =? other) turns.
Proof.
  intros Hne. rewrite <- (rev_involutive (insert_message user_id r content turns)).
  rewrite List.filter_rev, filter_insert_other by done.
  by rewrite <- List.filter_rev, rev_involutive.
Qed.

(** X14: storing a message of [user_id] leaves that user with at most
    five stored turns, however many there were before, and changes
    nothing of what any other user has stored or gets to read back. *)
Theorem insert_message_trims_own_history (user_id other : Z) (r : role)
    (content : pystr) (turns : list turn) :
  other <> user_id ->
  (length (List.filter (fun t => (turn_user t =? user_id)%Z)
             (insert_message user_id r content turns)) <= 5)%nat /\
  List.filter (fun t => turn_user t =? other) (insert_message user_id r content turns)
  = List.filter (fun t => turn_user t =? other) turns /\
  forall limit,
    last_messages other limit (insert_message user_id r content turns)
    = last_messages other limit turns.
Proof.
  intros Hne. split; [| split].
  - rewrite <- (rev_involutive (insert_message user_id r content turns)).
    rewrite List.filter_rev, length_rev, filter_insert_own.
    rewrite length_take. unfold CONVERSATION_HISTORY_LIMIT. lia.
  - by apply insert_message_other.
  - intros limit. unfold last_messages. by rewrite filter_insert_other.
Qed.

(** Seven turns of user 7 and one of user 8 before the insertion. *)
Lemma insert_message_trims_own_history_witness :
  let mine := {| turn_user := 7; turn_role := role_user; turn_content := str "a" |} in
  let theirs := {| turn_user := 8; turn_role := role_user; turn_content := str "x" |} in
  let turns := [mine; mine; mine; theirs; mine; mine; mine; mine] in
  8 <> 7 /\
  (length (List.filter (fun t => (turn_user t =? 7)%Z)
             (insert_message 7 role_assistant (str "b") turns)) <= 5)%nat /\
  List.filter (fun t => turn_user t =? 8) (insert_message 7 role_assistant (str "b") turns)
  = List.filter (fun t => turn_user t =? 8) turns /\
  forall limit,
    last_messages 8 limit (insert_message 7 role_assistant (str "b") turns)
    = last_messages 8 limit turns.
Proof.
  cbv zeta.
  assert (H : 8 <> 7) by lia.
  split; [exact H |].
  exact (insert_message_trims_own_history 7 8 role_assistant (str "b") _ H).
Defined.

End HistoryFacts.

(** ** The handlers and the other users *)

Module HandlerFacts.
Import Quota Bot Per BotFacts.
Local Open Scope coroutine_scope.
Local Open Scope Z_scope.

(** *** More rules for [keeps] *)

Lemma keeps_raise {A B} (f : world -> B) e : keeps f (@raise A e).
Proof. done. Qed.

Lemma keeps_early_return {A B} (f : world -> B) : keeps f (@early_return A).
Proof. done. Qed.

Lemma keeps_gets {A B} (f : world -> B) (g : world -> A) : keeps f (gets g).
Proof. done. Qed.

Lemma keeps_modify {B} (f : world -> B) (g : world -> world) :
  (forall w, f (g w) = f w) -> keeps f (modify g).
Proof. intros H w. apply H. Qed.

Lemma keeps_monotonic {B} (f : world -> B) :
  (forall l w, f (set_clock l w) = f w) -> keeps f monotonic.
Proof. intros H w. unfold monotonic. destruct (clock w); simpl; [done | apply H]. Qed.

Lemma keeps_await_with {A B} (f : world -> B) c (effect : world -> A * world) :
  (forall c o w, f (answered c o w) = f w) ->
  (forall w, f (snd (effect w)) = f w) ->
  keeps f (await_with c effect).
Proof.
  intros Ha He w. unfold await_with.
  destruct (script w) as [|[|e] rest]; simpl; try apply Ha;
    specialize (He (answered c succeeds w));
    destruct (effect (answered c succeeds w)) as [a w']; simpl in *;
    by rewrite He, Ha.
Qed.

Lemma keeps_send {B} (f : world -> B) c :
  (forall c o w, f (answered c o w) = f w) ->
  (forall p w, f (set_next_message_id p w) = f w) ->
  keeps f (send c).
Proof. intros Ha Hn. apply keeps_await_with; [done |]. intros w. apply Hn. Qed.

Lemma keeps_perform {B} (f : world -> B) c :
  (forall w, f (snd (perform c w)) = f w) -> keeps f (perform c).
Proof. intros H w. apply H. Qed.

Lemma keeps_try_finally {A B} (f : world -> B) (body : M A) cleanup :
  keeps f body -> keeps f cleanup -> keeps f (try_finally body cleanup).
Proof.
  intros Hb Hc w. unfold try_finally. specialize (Hb w).
  destruct (body w) as [r w1]. specialize (Hc w1).
  destruct (cleanup w1) as [[a| |e] w2]; simpl in *; congruence.
Qed.

Lemma keeps_pop_active_request {B} (f : world -> B) user_id :
  (forall m w, f (set_active_requests (delete user_id m) w) = f (set_active_requests m w)) ->
  (forall w, f (set_active_requests (active_requests w) w) = f w) ->
  keeps f (pop_active_request user_id).
Proof. intros H1 H2 w. unfold pop_active_request. simpl. by rewrite H1, H2. Qed.

Lemma keeps_except_TelegramAPIError {A B} (f : world -> B) (h : M A) e h' :
  keeps f h -> except_TelegramAPIError h e = Some h' -> keeps f h'.
Proof.
  unfold except_TelegramAPIError. destruct (is_TelegramAPIError e); [| done].
  by intros ? [= <-].
Qed.

Lemma keeps_except_Exception {A B} (f : world -> B) (h : M A) e h' :
  keeps f h -> except_Exception h e = Some h' -> keeps f h'.
Proof.
  unfold except_Exception. destruct (is_Exception e); [| done].
  by intros ? [= <-].
Qed.

Ltac keep_handler_case :=
  match goal with
  | H : except_TelegramAPIError ?x ?e = Some ?h |- keeps _ ?h =>
      eapply (keeps_except_TelegramAPIError _ x e h); [| exact H]
  | H : except_Exception ?x ?e = Some ?h |- keeps _ ?h =>
      eapply (keeps_except_Exception _ x e h); [| exact H]
  | H : match ?e with TelegramRetryAfter _ => _ | _ => _ end = Some ?h |- keeps _ ?h =>
      destruct e; simplify_eq
  end.

(** Walks a coroutine down to its steps; [tac] shows that a step keeps
    the component. *)
Ltac keep_step tac :=
  lazymatch goal with
  | |- keeps _ (ret _) => apply keeps_ret
  | |- keeps _ (raise _) => apply keeps_raise
  | |- keeps _ (@early_return _) => apply keeps_early_return
  | |- keeps _ (gets _) => apply keeps_gets
  | |- keeps _ monotonic => apply keeps_monotonic; tac
  | |- keeps _ (modify _) => apply keeps_modify; tac
  | |- keeps _ (pop_active_request _) => apply keeps_pop_active_request; tac
  | |- keeps _ (await _) => apply keeps_await; tac
  | |- keeps _ (send _) => apply keeps_send; tac
  | |- keeps _ (await_with _ _) => apply keeps_await_with; tac
  | |- keeps _ (perform _) => apply keeps_perform; tac
  | |- keeps _ (try_except _ _) => apply keeps_try_except; [| intros ? ? ?]
  | |- keeps _ (try_finally _ _) => apply keeps_try_finally
  | |- keeps _ (bind _ _) => apply keeps_bind; [| intros ?]
  | |- keeps _ (match ?x with _ => _ end) => destruct x eqn:?
  | |- keeps _ _ =>
      first [ keep_handler_case
            | match goal with
              | H : forall _, _ |- _ => apply H
              | H : keeps _ _ |- _ => apply H
              end ]
  end.

Ltac keep_with tac := repeat (keep_step tac).

(** *** What a step does to another user *)

Lemma check_other USE_SQLITE isoformat fromisoformat now user_id other
    (users : gmap Z user) :
  other <> user_id ->
  snd (check_and_consume_limit USE_SQLITE isoformat fromisoformat now user_id users)
    !! other = users !! other.
Proof.
  intros Hne. unfold check_and_consume_limit.
  destruct (users !! user_id) as [u|]; [| done].
  destruct (is_admin u); [done |].
  destruct (subscription_status u), (subscription_expires u) as [t0|]; simpl;
    try destruct (t0 >? now); simpl;
    repeat match goal with
           | |- context [if ?b then _ else _] => destruct b; simpl
           | |- context [match ?x with reset_on _ => _ | _ => _ end] => destruct x; simpl
           | |- context [match ?x with Some _ => _ | None => _ end] => destruct x; simpl
           end;
    unfold update_user_limits, deactivate_subscription;
    by rewrite ?lookup_alter_ne by congruence.
Qed.

Lemma pending_other (user_id other : Z) (s : gset Z) :
  other <> user_id ->
  bool_decide (other ∈ s ∖ {[user_id]}) = bool_decide (other ∈ s).
Proof.
  intros Hne. apply bool_decide_ext.
  rewrite elem_of_difference, not_elem_of_singleton. tauto.
Qed.

Ltac other_user Hne :=
  intros; unfold foreign; simpl;
  repeat match goal with
         | |- context [let '(_, _) := ?x in _] => destruct x eqn:?; simpl
         | |- context [match ?x with Some _ => _ | None => _ end] => destruct x; simpl
         end;
  rewrite ?lookup_alter_ne, ?lookup_insert_ne, ?lookup_delete_ne by congruence;
  rewrite ?(HistoryFacts.insert_message_other _ _ _ _ _ Hne);
  rewrite ?(pending_other _ _ _ Hne);
  try reflexivity.

Section Others.

Variable USE_SQLITE : bool.
Variable isoformat : Z -> pystr.
Variable fromisoformat : pystr -> option Z.
Variable transcode : pystr -> option pystr.
Variables user_id other : Z.
Hypothesis Hne : other <> user_id.

Lemma check_step_other :
  keeps (foreign other)
    (await_check_and_consume_limit USE_SQLITE isoformat fromisoformat user_id).
Proof.
  unfold await_check_and_consume_limit. apply keeps_await_with; [by other_user Hne |].
  intros w. unfold foreign.
  pose proof (check_other USE_SQLITE isoformat fromisoformat (utc_now w) user_id other
                (users w) Hne) as H.
  destruct (check_and_consume_limit _ _ _ _ _ _) as [ok users']. simpl in *.
  by rewrite H.
Qed.

Lemma get_or_create_user_other :
  keeps (foreign other) (get_or_create_user USE_SQLITE isoformat user_id).
Proof.
  unfold get_or_create_user, update_user_last_active, add_user, get_user.
  keep_with ltac:(other_user Hne).
Qed.

Lemma stream_loop_other (stream : list fragment_event) :
  forall st, keeps (foreign other) (stream_loop transcode user_id stream st).
Proof.
  induction stream as [|[chunk|e] later IH]; intros st; simpl.
  - apply keeps_ret.
  - apply keeps_bind.
    + unfold stream_body, finalize_overflowing, open_next_message, edit_in_place, render.
      keep_with ltac:(other_user Hne).
    + intros [st'|st']; [apply IH | apply keeps_ret].
  - apply keeps_raise.
Qed.

Lemma photo_loop_other current_msg_id (stream : list fragment_event) :
  forall full, keeps (foreign other)
                 (photo_loop transcode user_id current_msg_id stream full).
Proof.
  induction stream as [|[chunk|e] later IH]; intros full; simpl.
  - apply keeps_ret.
  - unfold photo_preview, last_edit_of, set_last_edit_of.
    keep_with ltac:(other_user Hne).
  - apply keeps_raise.
Qed.

(** X16: [message_handler] minds its own user.  Whatever the world and
    whatever the awaits answer, nothing that the world holds of another
    user changes: not the row, the slot, the stored turns, a pending
    picture prompt or the preview clock. *)
Theorem message_handler_minds_its_own_user (me : task) (user_text : pystr) (w : world) :
  foreign other
    (snd (message_handler USE_SQLITE isoformat fromisoformat transcode
            me user_id user_text w))
  = foreign other w.
Proof.
  revert w. change (keeps (foreign other)
    (message_handler USE_SQLITE isoformat fromisoformat transcode me user_id user_text)).
  pose proof stream_loop_other as Hloop.
  pose proof get_or_create_user_other as Huser.
  pose proof check_step_other as Hcheck.
  unfold message_handler, photo_prompt, has_workflow_data, generation,
    add_message_to_db, get_last_messages, stream_and_finish, finalize_last,
    persist_answer, report_failure, add_message_to_db, render.
  keep_with ltac:(other_user Hne).
Qed.

(** X17: [photo_handler] minds its own user in the same way. *)
Theorem photo_handler_minds_its_own_user (me : task) (caption : option pystr)
    (w : world) :
  foreign other
    (snd (photo_handler USE_SQLITE isoformat fromisoformat transcode
            me user_id caption w))
  = foreign other w.
Proof.
  revert w. change (keeps (foreign other)
    (photo_handler USE_SQLITE isoformat fromisoformat transcode me user_id caption)).
  pose proof photo_loop_other as Hloop.
  pose proof get_or_create_user_other as Huser.
  pose proof check_step_other as Hcheck.
  unfold photo_handler, has_workflow_data, photo_generation, photo_finalize,
    add_message_to_db, get_last_messages.
  keep_with ltac:(other_user Hne).
Qed.

(** X18: a cancellation for [user_id] gives back quota to nobody else and
    frees nobody else's slot. *)
Theorem cancel_minds_its_own_user (w : world) :
  foreign other (snd (cancel_generation_callback (Some user_id) w)) = foreign other w.
Proof.
  revert w. change (keeps (foreign other) (cancel_generation_callback (Some user_id))).
  unfold cancel_generation_callback, has_workflow_data, restore_limit.
  keep_with ltac:(other_user Hne).
Qed.

End Others.

End HandlerFacts.

(** ** The slot of the sender *)

Module SlotFacts.
Import Quota Bot Per BotFacts HandlerFacts.
Local Open Scope coroutine_scope.
Local Open Scope Z_scope.

Lemma bind_after_keeps {A B} (c : M A) (k : A -> M B) (w : world)
    (m : gmap Z task) (Post : res B * world -> Prop) :
  active_requests w = m ->
  keeps active_requests c ->
  (forall w1, active_requests w1 = m -> Post (Return, w1)) ->
  (forall e w1, active_requests w1 = m -> Post (Raise e, w1)) ->
  (forall a w1, active_requests w1 = m -> Post (k a w1)) ->
  Post (bind c k w).
Proof.
  intros Hm Hc Hret Hraise Hk. unfold bind. specialize (Hc w).
  destruct (c w) as [[a| |e] w1]; simpl in Hc;
    [apply Hk | apply Hret | apply Hraise]; congruence.
Qed.

Lemma after_keeps {A} (c : M A) (w : world) (m : gmap Z task)
    (Post : res A * world -> Prop) :
  active_requests w = m ->
  keeps active_requests c ->
  (forall r w1, active_requests w1 = m -> Post (r, w1)) ->
  Post (c w).
Proof.
  intros Hm Hc HP. specialize (Hc w). destruct (c w) as [r w1]. simpl in Hc.
  apply HP. congruence.
Qed.

Lemma bind_modify {B} (g : world -> world) (k : unit -> M B) (w : world) :
  bind (modify g) k w = k tt (g w).
Proof. reflexivity. Qed.

Lemma bind_await {B} (c : call) (k : unit -> M B) (w : world) :
  bind (await c) k w
  = match script w with
    | fails e :: _ => (Raise e, answered c (fails e) w)
    | _ => k tt (answered c succeeds w)
    end.
Proof.
  unfold bind, await, await_with. by destruct (script w) as [|[|e] rest].
Qed.

Lemma bind_gets {A B} (g : world -> A) (k : A -> M B) (w : world) :
  bind (gets g) k w = k (g w) w.
Proof. reflexivity. Qed.

Ltac slot_side :=
  intros; simpl;
  repeat match goal with
         | |- context [let '(_, _) := ?x in _] => destruct x eqn:?; simpl
         | |- context [match ?x with Some _ => _ | None => _ end] => destruct x; simpl
         end;
  try reflexivity.

Section Slot.

Variable USE_SQLITE : bool.
Variable isoformat : Z -> pystr.
Variable fromisoformat : pystr -> option Z.
Variable transcode : pystr -> option pystr.
Variable user_id : Z.

Lemma get_or_create_user_slot :
  keeps active_requests (get_or_create_user USE_SQLITE isoformat user_id).
Proof.
  unfold get_or_create_user, update_user_last_active, add_user, get_user.
  keep_with slot_side.
Qed.

Lemma check_step_slot :
  keeps active_requests
    (await_check_and_consume_limit USE_SQLITE isoformat fromisoformat user_id).
Proof. unfold await_check_and_consume_limit. keep_with slot_side. Qed.

(** X19: the slot of the sender after [message_handler].  Whatever the
    world and whatever the awaits answer, the sender's entry in
    [active_requests] is afterwards what it was before, with one
    exception: the handler ends with the exception that
    [send_chat_action] raised, and the entry holds the task of this very
    handler. *)
Theorem message_handler_slot (me : task) (user_text : pystr) (w : world) :
  let run := message_handler USE_SQLITE isoformat fromisoformat transcode
               me user_id user_text w in
  active_requests (snd run) !! user_id = active_requests w !! user_id \/
  exists e,
    fst run = Raise e /\
    last (calls (snd run)) = Some (send_chat_action, fails e) /\
    active_requests (snd run) !! user_id = Some me.
Proof.
  cbv zeta.
  set (Post := fun r : res unit * world =>
    active_requests (snd r) !! user_id = active_requests w !! user_id \/
    exists e,
      fst r = Raise e /\
      last (calls (snd r)) = Some (send_chat_action, fails e) /\
      active_requests (snd r) !! user_id = Some me).
  change (Post (message_handler USE_SQLITE isoformat fromisoformat transcode
                  me user_id user_text w)).
  assert (Hsame : forall r w1, active_requests w1 = active_requests w -> Post (r, w1)).
  { intros r w1 H. left. simpl. by rewrite H. }
  unfold message_handler.
  rewrite bind_gets. destruct (bool_decide _).
  { eapply after_keeps; [reflexivity | | exact Hsame].
    unfold photo_prompt. keep_with slot_side. }
  unfold has_workflow_data. rewrite bind_gets. destruct (negb _).
  { eapply after_keeps; [reflexivity | | exact Hsame]. keep_with slot_side. }
  eapply bind_after_keeps; [reflexivity | apply get_or_create_user_slot | auto | auto |].
  intros [u|] w1 H1.
  2:{ eapply after_keeps; [exact H1 | | exact Hsame]. keep_with slot_side. }
  rewrite bind_gets. case_bool_decide as Hbusy.
  { eapply after_keeps; [exact H1 | | exact Hsame]. keep_with slot_side. }
  assert (Hfree : active_requests w !! user_id = None).
  { rewrite <- H1. by apply eq_None_not_Some. }
  rewrite bind_modify, bind_await.
  destruct (script _) as [|[|e] rest] eqn:Hscript.
  - rewrite bind_modify. left. rewrite Hfree.
    apply finally_releases_slot. apply keeps_ret.
  - rewrite bind_modify. left. rewrite Hfree.
    apply finally_releases_slot. apply keeps_ret.
  - right. exists e. simpl. split; [done |]. split; [apply last_snoc |].
    apply lookup_insert_eq.
Qed.

(** X20: the slot of the sender after [photo_handler].  Either the whole
    of [active_requests] is as it was, or the sender has no entry: the
    handler never leaves an entry of its own behind, however it ends. *)
Theorem photo_handler_slot (me : task) (caption : option pystr) (w : world) :
  let run := photo_handler USE_SQLITE isoformat fromisoformat transcode
               me user_id caption w in
  active_requests (snd run) = active_requests w \/
  active_requests (snd run) !! user_id = None.
Proof.
  cbv zeta.
  set (Post := fun r : res unit * world =>
    active_requests (snd r) = active_requests w \/
    active_requests (snd r) !! user_id = None).
  change (Post (photo_handler USE_SQLITE isoformat fromisoformat transcode
                  me user_id caption w)).
  assert (Hsame : forall r w1, active_requests w1 = active_requests w -> Post (r, w1)).
  { intros r w1 H. by left. }
  unfold photo_handler, has_workflow_data.
  rewrite bind_gets. destruct (negb _).
  { eapply after_keeps; [reflexivity | | exact Hsame]. keep_with slot_side. }
  eapply bind_after_keeps; [reflexivity | apply get_or_create_user_slot | auto | auto |].
  intros [u|] w1 H1.
  2:{ eapply after_keeps; [exact H1 | | exact Hsame]. keep_with slot_side. }
  eapply bind_after_keeps; [exact H1 | apply check_step_slot | auto | auto |].
  intros [|] w2 H2; cbn [negb].
  - right. apply finally_releases_slot. keep_with slot_side.
  - eapply after_keeps; [exact H2 | | exact Hsame]. keep_with slot_side.
Qed.

End Slot.

End SlotFacts.

(** ** Refusal, and the answer to a photo *)

Module AdmissionFacts.
Import Quota Bot Per BotFacts.
Local Open Scope coroutine_scope.
Local Open Scope Z_scope.

Section Admission.

Variable USE_SQLITE : bool.
Variable isoformat : Z -> pystr.
Variable fromisoformat : pystr -> option Z.
Variable transcode : pystr -> option pystr.
Variable user_id : Z.

(** X21: a refused request costs no generation.  The sender is no
    administrator, has no running subscription, and the counter of today
    is used up.  Then the body of the [try] of [message_handler] does not
    run to its end, and all it does is query the database (the message of
    the user is stored before the quota is asked) and, at most, send the
    notice of the exhausted quota: no placeholder, no call of the
    provider. *)
Theorem refused_request_costs_no_generation (user_text : pystr) (w : world) (u : user) :
  users w !! user_id = Some u ->
  is_admin u = false ->
  subscribed (utc_now w) u = false ->
  stale fromisoformat (utc_now w) u = false ->
  free_messages_today u <= 0 ->
  let run := generation USE_SQLITE isoformat fromisoformat transcode
               user_id user_text w in
  (forall a, fst run <> Val a) /\
  exists new, calls (snd run) = calls w ++ new /\ Forall query_or_refusal new.
Proof.
  intros Hu Hadm Hsub Hstale Hfree.
  destruct w as [requests pending flags table turns edits stream now ticks outcomes
                   record next current].
  simpl in *.
  destruct (QuotaMore.check_unsubscribed USE_SQLITE isoformat fromisoformat
              now user_id table u Hu Hadm Hsub) as (Hok & _).
  rewrite Hstale in Hok.
  replace (0 <? free_messages_today u) with false in Hok
    by (symmetry; apply Z.ltb_ge; lia).
  assert (Hq : forall q o, query_or_refusal (database q, o))
    by (intros q o; left; by exists q).
  assert (Hr : forall o,
            query_or_refusal (message_reply (fixed quota_notice) subscribe_button, o))
    by (intros o; by right).
  unfold generation, add_message_to_db, get_last_messages,
    await_check_and_consume_limit, bind, await, await_with, try_except,
    early_return, ret, except_Exception.
  cbn -[check_and_consume_limit insert_message last_messages].
  destruct outcomes as [|[|e1] [|[|e2] [|[|e3] [|[|e4] rest]]]];
    cbn -[check_and_consume_limit insert_message last_messages];
    repeat match goal with
           | |- context [is_Exception ?e] =>
               destruct e; cbn -[check_and_consume_limit insert_message last_messages]
           end;
    try (destruct (check_and_consume_limit USE_SQLITE isoformat fromisoformat
                     now user_id table) as [ok table'];
         simpl in Hok; subst ok;
         cbn -[insert_message last_messages]);
    (split; [done |]);
    eexists; (split; [rewrite <- ?app_assoc; reflexivity |]);
    simpl;
    repeat (apply List.Forall_cons; [first [apply Hq | apply Hr] |]);
    apply List.Forall_nil.
Qed.

(** X22: the answer to a photo is made of the fragments read.  When the
    loop of [photo_handler] over the fragments of the provider comes to
    an end, the text it hands on is the concatenation of a prefix of the
    fragments; and of all of them when no await of the run fails. *)
Theorem photo_answer_is_made_of_fragments (current_msg_id : positive)
    (frags : list pystr) (w w' : world) (full_response : pystr) :
  photo_loop transcode user_id current_msg_id (List.map fragment frags) [] w
    = (Val full_response, w') ->
  (exists k, full_response = concat (take k frags)) /\
  (script w = [] -> full_response = concat frags).
Proof.
  assert (Hprefix : forall init,
    yields (fun full => exists k, full = init ++ concat (take k frags))
      (photo_loop transcode user_id current_msg_id (List.map fragment frags) init)).
  { induction frags as [|chunk later IH]; intros init; simpl.
    - apply yields_ret. exists O. by rewrite app_nil_r.
    - assert (Hrest : yields
        (fun full => exists k, full = init ++ concat (take k (chunk :: later)))
        (photo_loop transcode user_id current_msg_id (List.map fragment later)
           (init ++ chunk))).
      { eapply yields_weaken; [apply IH |]. intros full [k ->]. exists (S k).
        simpl. by rewrite app_assoc. }
      apply yields_seq. intros now. apply yields_seq. intros last_edit_time.
      destruct (now - last_edit_time >? edit_interval); [| exact Hrest].
      apply yields_seq. intros [|]; [| exact Hrest].
      apply yields_ret. exists 1%nat. simpl. by rewrite app_nil_r. }
  assert (Hall : forall init w0 full w1,
    script w0 = [] ->
    photo_loop transcode user_id current_msg_id (List.map fragment frags) init w0
      = (Val full, w1) ->
    full = init ++ concat frags).
  { clear Hprefix. induction frags as [|chunk later IH]; intros init w0 full w1 Hs; simpl.
    - intros [= <- _]. by rewrite app_nil_r.
    - rewrite app_assoc.
      destruct w0 as [requests pending flags table turns edits stream now ticks
                        outcomes record next current].
      simpl in Hs. subst outcomes.
      unfold bind at 1. unfold monotonic at 1. simpl.
      destruct ticks as [|t later_ticks]; simpl;
        (unfold bind at 1; unfold last_edit_of at 1; unfold gets at 1; simpl;
         match goal with
         | |- context [if ?b then _ else _] => destruct b
         end;
         [ unfold photo_preview, bind at 1, try_except;
           destruct (transcode ((init ++ chunk) ++ ELLIPSIS)) as [html|]; simpl;
           [ apply IH; reflexivity | done ]
         | apply IH; reflexivity ]). }
  intros Hrun. split.
  - exact (Hprefix [] w full_response w' Hrun).
  - intros Hs. exact (Hall [] w full_response w' Hs Hrun).
Qed.

End Admission.

Import Samples.

Lemma refused_request_costs_no_generation_witness :
  let w := quiet (free_user 0) in
  users w !! alice = Some (free_user 0) /\
  is_admin (free_user 0) = false /\
  subscribed (utc_now w) (free_user 0) = false /\
  stale from_iso (utc_now w) (free_user 0) = false /\
  free_messages_today (free_user 0) <= 0 /\
  let run := generation false iso from_iso html alice (Py.str "hi") w in
  (forall a, fst run <> Val a) /\
  exists new, calls (snd run) = calls w ++ new /\ Forall query_or_refusal new.
Proof.
  cbv zeta.
  assert (H1 : users (quiet (free_user 0)) !! alice = Some (free_user 0)) by reflexivity.
  assert (H2 : is_admin (free_user 0) = false) by reflexivity.
  assert (H3 : subscribed (utc_now (quiet (free_user 0))) (free_user 0) = false)
    by reflexivity.
  assert (H4 : stale from_iso (utc_now (quiet (free_user 0))) (free_user 0) = false)
    by reflexivity.
  assert (H5 : free_messages_today (free_user 0) <= 0) by (simpl; lia).
  split; [exact H1 |]. split; [exact H2 |]. split; [exact H3 |].
  split; [exact H4 |]. split; [exact H5 |].
  exact (refused_request_costs_no_generation false iso from_iso html alice
           (Py.str "hi") (quiet (free_user 0)) (free_user 0) H1 H2 H3 H4 H5).
Defined.

Lemma photo_answer_is_made_of_fragments_witness :
  let w := quiet (free_user 3) in
  let frags := [Py.str "ab"; Py.str "cd"] in
  photo_loop html alice 1%positive (List.map fragment frags) [] w
    = (Val (Py.str "abcd"), w) /\
  (exists k, Py.str "abcd" = concat (take k frags)) /\
  (script w = [] -> Py.str "abcd" = concat frags).
Proof.
  cbv zeta.
  assert (H : photo_loop html alice 1%positive
                (List.map fragment [Py.str "ab"; Py.str "cd"]) []
                (quiet (free_user 3))
              = (Val (Py.str "abcd"), quiet (free_user 3))) by reflexivity.
  split; [exact H |].
  exact (photo_answer_is_made_of_fragments html alice 1%positive
           [Py.str "ab"; Py.str "cd"] (quiet (free_user 3)) (quiet (free_user 3))
           (Py.str "abcd") H).
Defined.

End AdmissionFacts.

(** ** Examples for the statements about other users *)

Module HandlerExamples.
Import Quota Bot Per Samples.

(** Two users: [alice], and user 8 with one message left. *)
Lemma message_handler_minds_its_own_user_witness :
  let w := set_users (<[8 := free_user 1]> (users (quiet (free_user 3))))
             (quiet (free_user 3)) in
  8 <> alice /\
  foreign 8 (snd (message_handler false iso from_iso html 1%nat alice (Py.str "hi") w))
  = foreign 8 w.
Proof.
  cbv zeta.
  assert (H : 8 <> alice) by (unfold alice; lia).
  split; [exact H |].
  exact (HandlerFacts.message_handler_minds_its_own_user false iso from_iso html
           alice 8 H 1%nat (Py.str "hi") _).
Defined.

Lemma photo_handler_minds_its_own_user_witness :
  let w := set_users (<[8 := free_user 1]> (users (quiet (free_user 3))))
             (quiet (free_user 3)) in
  8 <> alice /\
  foreign 8 (snd (photo_handler false iso from_iso html 1%nat alice None w))
  = foreign 8 w.
Proof.
  cbv zeta.
  assert (H : 8 <> alice) by (unfold alice; lia).
  split; [exact H |].
  exact (HandlerFacts.photo_handler_minds_its_own_user false iso from_iso html
           alice 8 H 1%nat None _).
Defined.

Lemma cancel_minds_its_own_user_witness :
  let w := set_active_requests (<[8 := 2%nat]> (active_requests (in_flight (free_user 3))))
             (in_flight (free_user 3)) in
  8 <> alice /\
  foreign 8 (snd (cancel_generation_callback (Some alice) w)) = foreign 8 w.
Proof.
  cbv zeta.
  assert (H : 8 <> alice) by (unfold alice; lia).
  split; [exact H |].
  exact (HandlerFacts.cancel_minds_its_own_user alice 8 H _).
Defined.

End HandlerExamples.

(** ** A user met for the first time *)

Module NewcomerFacts.
Import Quota Grants Bot.
Local Open Scope Z_scope.

(** X23: the row that [add_user_sqlite] and [add_user_postgres] write for
    a user met at [now] lets exactly the first seven requests of that day
    through.  Under SQLite this needs that the text written for today
    reads back as today. *)
Theorem newcomer_gets_seven_requests USE_SQLITE isoformat fromisoformat
    (now : Z) (instants : list Z) (user_id : Z) (users : gmap Z user) :
  (USE_SQLITE = true -> fromisoformat (isoformat (date_of now)) = Some (date_of now)) ->
  Forall (fun t => date_of t = date_of now) instants ->
  fst (serve USE_SQLITE isoformat fromisoformat instants user_id
         (<[user_id := new_user USE_SQLITE isoformat now]> users))
  = List.map (fun k => Z.of_nat k <? 7) (seq 0 (length instants)).
Proof.
  intros Hround Hday.
  destruct (QuotaMore.serve_fresh USE_SQLITE isoformat fromisoformat user_id instants
              (<[user_id := new_user USE_SQLITE isoformat now]> users)
              (new_user USE_SQLITE isoformat now)) as [H _].
  - apply lookup_insert_eq.
  - reflexivity.
  - eapply Forall_impl; [exact Hday |]. intros t Ht. split; [reflexivity |].
    unfold stale, new_user, stored_date. simpl. rewrite Ht.
    destruct USE_SQLITE.
    + rewrite Hround by done. apply Z.ltb_irrefl.
    + apply Z.ltb_irrefl.
  - exact H.
Qed.

Lemma newcomer_gets_seven_requests_witness :
  let now := Samples.noon in
  let instants := [now; now + 1; now + 2; now + 3; now + 4; now + 5; now + 6; now + 7] in
  (true = true ->
   calendar_fromisoformat (calendar_isoformat (date_of now)) = Some (date_of now)) /\
  Forall (fun t => date_of t = date_of now) instants /\
  fst (serve true calendar_isoformat calendar_fromisoformat instants Samples.alice
         (<[Samples.alice := new_user true calendar_isoformat now]> ∅))
  = List.map (fun k => Z.of_nat k <? 7) (seq 0 (length instants)).
Proof.
  cbv zeta.
  assert (H1 : true = true ->
               calendar_fromisoformat (calendar_isoformat (date_of Samples.noon))
               = Some (date_of Samples.noon)) by (intros _; reflexivity).
  assert (H2 : Forall (fun t => date_of t = date_of Samples.noon)
                 [Samples.noon; Samples.noon + 1; Samples.noon + 2; Samples.noon + 3;
                  Samples.noon + 4; Samples.noon + 5; Samples.noon + 6;
                  Samples.noon + 7]) by (repeat constructor).
  split; [exact H1 |]. split; [exact H2 |].
  exact (newcomer_gets_seven_requests true calendar_isoformat calendar_fromisoformat
           Samples.noon _ Samples.alice ∅ H1 H2).
Defined.

End NewcomerFacts.

(** ** The flag [formatting_failed], from the moment it is raised *)

Module StickyFacts.
Import Quota Bot Degrade BotFacts.
Local Open Scope coroutine_scope.
Local Open Scope Z_scope.

Lemma raises_cleanly_weaken {A} (P P' : call * outcome -> Prop) rin fin
    (fout : A -> bool) (c : M A) :
  raises_cleanly P rin fin fout c -> (forall ev, P ev -> P' ev) ->
  raises_cleanly P' rin fin fout c.
Proof.
  intros H HP w. destruct (H w) as (new & Hn & Ht & Ha & Hf).
  exists new. split; [done |]. split; [by eapply Forall_impl |].
  split; [| done]. intros Hin. eapply Forall_impl; eauto.
Qed.

(** A step entered with the flag up, seen from a state in which it may
    have been down. *)
Lemma raises_cleanly_raised {A} P fin (fout : A -> bool) (c : M A) :
  raises_cleanly P true true fout c -> raises_cleanly P true fin fout c.
Proof.
  intros H w. destruct (H w) as (new & Hn & Ht & Ha & Hf).
  exists new. split; [done |]. split; [done |]. split; [done |].
  intros a Ea. destruct (Hf a Ea) as [Hup _]. split; [auto |]. by left.
Qed.

Lemma Forall_tail_app {X} (P : X -> Prop) (l1 l2 : list X) :
  Forall P (tail l1) -> Forall P l2 -> Forall P (tail (l1 ++ l2)).
Proof.
  intros H1 H2. destruct l1 as [|x l1]; simpl in *.
  - destruct l2; [done |]. by inversion H2.
  - by apply Forall_app.
Qed.

(** A step that raises cleanly, followed by steps that satisfy [P] and
    hand the flag on. *)
Lemma raises_cleanly_bind {A B} P rin fin (fmid : A -> bool) (fout : B -> bool)
    (c : M A) (k : A -> M B) :
  raises_cleanly P rin fin fmid c ->
  (forall a, emits P (k a)) ->
  (forall a, yields (fun b => fout b = fmid a) (k a)) ->
  raises_cleanly P rin fin fout (bind c k).
Proof.
  intros Hc Hk Hy w. destruct (Hc w) as (n1 & H1 & T1 & A1 & F1). unfold bind.
  destruct (c w) as [[a| |e] w1] eqn:E; simpl in *.
  - destruct (Hk a w1) as (n2 & H2 & F2). exists (n1 ++ n2).
    rewrite H2, H1, app_assoc. split; [done |].
    split; [by apply Forall_tail_app |].
    split; [intros Hin; apply Forall_app; auto |].
    intros b Hb. destruct (k a w1) as [r w2] eqn:Ek. simpl in Hb. subst r.
    rewrite (Hy a _ _ _ Ek). destruct (F1 a eq_refl) as [Hup Hraise].
    split; [done |]. intros Hin Hout.
    destruct (Hraise Hin Hout) as [Hraw | (c0 & e0 & rest & ->)]; [by left |].
    right. by exists c0, e0, (rest ++ n2).
  - exists n1. split; [done |]. split; [done |]. split; [done |]. by intros b [=].
  - exists n1. split; [done |]. split; [done |]. split; [done |]. by intros b [=].
Qed.

(** Steps that add nothing to the record, in front. *)
Lemma raises_cleanly_after {A B} P rin fin (fout : B -> bool) (c : M A) (k : A -> M B) :
  keeps calls c ->
  (forall a, raises_cleanly P rin fin fout (k a)) ->
  raises_cleanly P rin fin fout (bind c k).
Proof.
  intros Hc Hk w. specialize (Hc w). unfold bind.
  destruct (c w) as [[a| |e] w1] eqn:E; simpl in *.
  - destruct (Hk a w1) as (new & Hn & rest). exists new. by rewrite Hn, Hc.
  - exists []. rewrite Hc, app_nil_r.
    split; [done |]. split; [done |]. split; [done |]. by intros b [=].
  - exists []. rewrite Hc, app_nil_r.
    split; [done |]. split; [done |]. split; [done |]. by intros b [=].
Qed.

Lemma raises_cleanly_ret {A} P rin fin (fout : A -> bool) (a : A) :
  fout a = fin -> raises_cleanly P rin fin fout (ret a).
Proof.
  intros Hsame w. exists []. simpl. rewrite app_nil_r.
  split; [done |]. split; [done |]. split; [done |].
  intros b [= <-]. rewrite Hsame. split; [done |]. intros Hin Hout. congruence.
Qed.

Section Sticky.

Variable transcode : pystr -> option pystr.
Variable user_id : Z.

Ltac settle :=
  eexists;
  (split; [first [ reflexivity
                 | rewrite <- !app_assoc; reflexivity
                 | symmetry; apply app_nil_r ] |]);
  simpl;
  (split; [repeat (apply List.Forall_cons; [unfold shows_raw; simpl; auto |]);
           apply List.Forall_nil |]);
  (split; [intros; try discriminate;
           repeat (apply List.Forall_cons; [unfold shows_raw; simpl; auto |]);
           apply List.Forall_nil |]);
  intros ? [= <-]; simpl; (split; [auto |]); intros; try congruence;
  right; repeat eexists.

Lemma finalize_overflowing_raises_cleanly message_id st :
  raises_cleanly (shows_raw (fun s => s = current_message_text st))
    (formatting_failed st) (formatting_failed st) formatting_failed
    (finalize_overflowing transcode user_id message_id st).
Proof.
  intros w.
  destruct w as [requests pending flags table turns edits stream now ticks outcomes
                   record next current].
  destruct st as [full cur count last flag fin].
  unfold finalize_overflowing, render, mode_of, bind, await, await_with, try_except,
    except_TelegramAPIError, ret, raise, modify.
  simpl.
  destruct flag; simpl.
  - destruct cur as [|c0 cur]; simpl; [settle |].
    destruct outcomes as [|[|e1] rest]; simpl; try settle.
    destruct e1; simpl; settle.
  - destruct (transcode cur) as [[|h html]|]; simpl; try settle.
    destruct outcomes as [|[|e1] [|[|e2] rest]]; simpl; try settle;
      destruct e1; simpl; try settle;
      destruct cur as [|c0 cur]; simpl; try settle;
      try (destruct e2; simpl; settle).
Qed.

Lemma edit_in_place_raises_cleanly message_id now st :
  raises_cleanly (shows_raw (fun s => s = current_message_text st ++ ELLIPSIS))
    (formatting_failed st) (formatting_failed st) formatting_failed
    (edit_in_place transcode user_id message_id now st).
Proof.
  intros w.
  destruct w as [requests pending flags table turns edits stream utc ticks outcomes
                   record next current].
  destruct st as [full cur count last flag fin].
  unfold edit_in_place, render, mode_of, bind, await, await_with, try_except,
    ret, raise, modify, monotonic.
  simpl.
  destruct (now - last >? edit_interval); simpl; [| settle].
  destruct flag; simpl.
  - destruct outcomes as [|[|e1] [|[|e2] rest]]; simpl; try settle;
      destruct e1 as [retry | message | |]; simpl; try settle;
      try (destruct (no_longer_editable message); simpl; settle);
      destruct ticks; simpl; settle.
  - destruct (transcode cur) as [html|]; simpl; [| settle].
    destruct outcomes as [|[|e1] [|[|e2] rest]]; simpl; try settle;
      destruct e1 as [retry | message | |]; simpl; try settle;
      try (destruct (no_longer_editable message); simpl; settle);
      destruct ticks; simpl; settle.
Qed.

Lemma open_next_message_flag chunk st :
  yields (fun s => formatting_failed (state_of s) = formatting_failed st)
    (open_next_message user_id chunk st).
Proof. unfold open_next_message. yield_with ltac:(reflexivity). Qed.

Lemma open_next_message_fixed P chunk st :
  (forall ev, (forall m s md mk, fst ev <> edit_message_text m (text s) md mk) ->
              (forall s md mk, fst ev <> message_answer (text s) md mk) ->
              (forall s mk, fst ev <> message_reply (text s) mk) -> P ev) ->
  emits P (open_next_message user_id chunk st).
Proof.
  intros HP. unfold open_next_message.
  emit_with ltac:(apply HP; simpl; intros; discriminate).
Qed.

Lemma shows_raw_fixed texts (ev : call * outcome) :
  (forall m s md mk, fst ev <> edit_message_text m (text s) md mk) ->
  (forall s md mk, fst ev <> message_answer (text s) md mk) ->
  (forall s mk, fst ev <> message_reply (text s) mk) ->
  shows_raw texts ev.
Proof.
  intros H1 H2 H3. unfold shows_raw.
  destruct (fst ev) as [| [s|] ? ? | [s|] ? | | ? [s|] ? ? | | | | | | | | | |] eqn:E;
    try done.
  - by destruct (H2 s mode markup).
  - by destruct (H3 s markup).
  - by destruct (H1 message_id s mode markup).
Qed.

Lemma keeps_calls_gets {A} (g : world -> A) : keeps calls (gets g).
Proof. done. Qed.

Lemma keeps_calls_monotonic : keeps calls monotonic.
Proof. intros w. unfold monotonic. by destruct (clock w). Qed.

(** One fragment.  All the calls are raw when the flag is up on entry or
    the longer text does not transcode (line 933). *)
Lemma stream_body_raises_cleanly chunk st :
  raises_cleanly
    (shows_raw (fun s => s = current_message_text st \/
                         s = (current_message_text st ++ chunk) ++ ELLIPSIS))
    (match transcode (current_message_text st ++ chunk) with
     | Some _ => formatting_failed st
     | None => true
     end)
    (formatting_failed st)
    (fun s => formatting_failed (state_of s))
    (stream_body transcode user_id chunk st).
Proof.
  unfold stream_body.
  apply raises_cleanly_after; [apply keeps_calls_gets |]. intros [message_id|].
  2:{ by apply raises_cleanly_ret. }
  apply raises_cleanly_after; [apply keeps_calls_monotonic |]. intros now.
  set (shown := fun s => s = current_message_text st \/
                         s = (current_message_text st ++ chunk) ++ ELLIPSIS).
  assert (Hshown : forall (texts : pystr -> Prop) ev,
            (forall s, texts s -> shown s) -> shows_raw texts ev -> shows_raw shown ev).
  { intros texts [c o] Hsub. unfold shows_raw. simpl.
    destruct c as [| [s|] ? ? | [s|] ? | | ? [s|] ? ? | | | | | | | | | |]; simpl;
      try done; intros [Hm Hs]; auto. }
  cbn [current_message_text set_full_raw_response].
  destruct (transcode (current_message_text st ++ chunk)) as [html|];
    match goal with
    | |- raises_cleanly _ _ _ _ (if ?b then _ else _) => destruct b
    end.
  - eapply raises_cleanly_bind.
    + eapply raises_cleanly_weaken;
        [exact (finalize_overflowing_raises_cleanly (Some message_id)
                  (set_full_raw_response (full_raw_response st ++ chunk) st)) |].
      intros ev. apply Hshown. intros s ->. by left.
    + intros st3. apply open_next_message_fixed. apply shows_raw_fixed.
    + intros st3. apply open_next_message_flag.
  - eapply raises_cleanly_bind.
    + eapply raises_cleanly_weaken;
        [exact (edit_in_place_raises_cleanly (Some message_id) now
                  (set_current_message_text (current_message_text st ++ chunk)
                     (set_full_raw_response (full_raw_response st ++ chunk) st))) |].
      intros ev. apply Hshown. intros s ->. by right.
    + intros st3. apply emits_ret.
    + intros st3. by apply yields_ret.
  - apply raises_cleanly_raised. eapply raises_cleanly_bind.
    + eapply raises_cleanly_weaken;
        [exact (finalize_overflowing_raises_cleanly (Some message_id)
                  (set_formatting_failed true
                     (set_full_raw_response (full_raw_response st ++ chunk) st))) |].
      intros ev. apply Hshown. intros s ->. by left.
    + intros st3. apply open_next_message_fixed. apply shows_raw_fixed.
    + intros st3. apply open_next_message_flag.
  - apply raises_cleanly_raised. eapply raises_cleanly_bind.
    + eapply raises_cleanly_weaken;
        [exact (edit_in_place_raises_cleanly (Some message_id) now
                  (set_current_message_text (current_message_text st ++ chunk)
                     (set_formatting_failed true
                        (set_full_raw_response (full_raw_response st ++ chunk) st)))) |].
      intros ev. apply Hshown. intros s ->. by right.
    + intros st3. apply emits_ret.
    + intros st3. by apply yields_ret.
Qed.

(** C7: the flag stays up, and whatever is shown after it went up is
    raw.  First, one fragment, from any state: of the calls of that
    iteration all but the first show the answer as raw text with parse
    mode [None], and all of them do when the flag is up on entry or the
    longer text does not transcode (line 933); a flag that is up on entry
    is up in the state handed on; and when the flag goes up in the
    iteration otherwise, the first call of the iteration is one that
    failed.  So whatever the iteration shows after the flag was raised
    (lines 939-947 and 986-995 after line 933, line 955 after line 951)
    is raw.  Second, from a state with the flag up: the flag is up when
    the loop is left, and every text shown from there on, in the loop and
    for the last unit, is raw. *)
Theorem formatting_failed_is_sticky (chunk : pystr) (stream : list fragment_event)
    (st : loop_state) :
  let shown := fun s => s = current_message_text st \/
                        s = (current_message_text st ++ chunk) ++ ELLIPSIS in
  let raw_in :=
    match transcode (current_message_text st ++ chunk) with
    | Some _ => formatting_failed st
    | None => true
    end in
  (forall w, exists new,
     calls (snd (stream_body transcode user_id chunk st w)) = calls w ++ new /\
     Forall (shows_raw shown) (tail new) /\
     (raw_in = true -> Forall (shows_raw shown) new) /\
     forall s, fst (stream_body transcode user_id chunk st w) = Val s ->
       (formatting_failed st = true -> formatting_failed (state_of s) = true) /\
       (formatting_failed st = false -> formatting_failed (state_of s) = true ->
        raw_in = true \/ exists c0 e rest, new = (c0, fails e) :: rest)) /\
  (formatting_failed st = true ->
   (forall w exit st' w',
      stream_loop transcode user_id stream st w = (Val (exit, st'), w') ->
      formatting_failed st' = true) /\
   (forall w, exists new,
      calls (snd (stream_and_finish transcode user_id stream st w)) = calls w ++ new /\
      Forall (shows_raw (raw_texts (current_message_text st) stream)) new)).
Proof.
  split.
  - exact (stream_body_raises_cleanly chunk st).
  - apply raw_once_degraded.
Qed.

End Sticky.

Import Samples Cases.

(** Two inputs.  In the first the flag is up from the start.  In the
    second it is down, the unit holds [a], the fragment is [b], and
    Telegram refuses the edit: the flag goes up in that iteration. *)
Lemma formatting_failed_is_sticky_witness :
  (formatting_failed degraded = true /\
   forall w, exists new,
     calls (snd (stream_and_finish html alice [fragment (Py.str "b")] degraded w))
       = calls w ++ new /\
     Forall (shows_raw (raw_texts (current_message_text degraded)
                          [fragment (Py.str "b")])) new) /\
  (let run := stream_body html alice (Py.str "b") one_unit edit_refused in
   exists s,
     fst run = Val s /\
     formatting_failed one_unit = false /\
     formatting_failed (state_of s) = true /\
     exists new,
       calls (snd run) = calls edit_refused ++ new /\
       Forall (shows_raw (fun s => s = Py.str "a" \/ s = Py.str "ab...")) (tail new) /\
       exists c0 e rest, new = (c0, fails e) :: rest).
Proof.
  split.
  - split; [reflexivity |].
    destruct (formatting_failed_is_sticky html alice (Py.str "b")
                [fragment (Py.str "b")] degraded) as [_ H].
    destruct (H eq_refl) as [_ Hraw]. exact Hraw.
  - cbv zeta.
    destruct (formatting_failed_is_sticky html alice (Py.str "b") [] one_unit)
      as [H _].
    destruct (H edit_refused) as (new & Hnew & Htail & _ & Hflag).
    destruct (stream_body html alice (Py.str "b") one_unit edit_refused)
      as [[s| |e] w'] eqn:E; try (vm_compute in E; discriminate).
    exists s. split; [reflexivity |]. split; [reflexivity |].
    assert (Hup : formatting_failed (state_of s) = true).
    { vm_compute in E. by injection E as <- _. }
    split; [exact Hup |]. exists new. split; [exact Hnew |]. split; [exact Htail |].
    destruct (Hflag s eq_refl) as [_ Hraise].
    destruct (Hraise eq_refl Hup) as [Hraw | Hfirst]; [| exact Hfirst].
    vm_compute in Hraw. discriminate.
Defined.

End StickyFacts.

(** ** A fragment that is dropped, and a subscription that is not seen *)

Module FailureFacts.
Import Quota Bot Grants Samples Cases.
Local Open Scope Z_scope.

(** C1 fails on the code.  When Telegram answers an edit with "message
    to edit not found", line 1006 sets [current_message_id] to [None] and
    the comment of line 1007 says that the loop goes on, since the next
    fragment may open a new message.  But the loop tests [current_message_id] first
    thing (lines 916-918) and leaves before line 920 takes the fragment
    in.  Here the provider has [a], [b] and [c] to give and the first
    edit is refused in that way: the handler ends normally, [b] is taken
    from the provider and dropped, [c] is never asked for, and the answer
    that is stored is [a].  The segments still add up to what was
    accumulated. *)
Theorem yielded_fragment_is_dropped :
  let w := three_fragments in
  let run := message_handler false iso from_iso html 1%nat alice (Py.str "hi") w in
  provider w = List.map fragment [Py.str "a"; Py.str "b"; Py.str "c"] /\
  fst run = Val tt /\
  drop 8 (calls (snd run)) =
    [ (edit_message_text (Some 1%positive) (text (Py.str "a...")) mode_html
         (progress_keyboard alice), fails not_found);
      (database (q_add_message alice role_assistant (Py.str "a")), succeeds) ] /\
  exists st,
    fst (stream_loop html alice (provider w) (initial_loop_state 0) placeholder_gone)
      = Val (broke, st) /\
    full_raw_response st = Py.str "a" /\
    concat (finalized st ++ [current_message_text st]) = Py.str "a" /\
    full_raw_response st <> concat [Py.str "a"; Py.str "b"; Py.str "c"] /\
    full_raw_response st <> concat [Py.str "a"; Py.str "b"].
Proof.
  cbv zeta. split; [reflexivity |]. split; [vm_compute; reflexivity |].
  split; [vm_compute; reflexivity |].
  eexists. split; [vm_compute; reflexivity |].
  split; [reflexivity |]. split; [reflexivity |]. split; discriminate.
Qed.

(** C5 fails on the code under SQLite.  [update_user_subscription]
    stores the text of [date('now', '+N days')] (line 3633), [get_user]
    reads it back as a text, and line 569 takes only a [datetime] for an
    expiry (line 579 logs the text as a wrong format).  So a user whose
    subscription was granted the second before, for thirty days, is
    charged from the daily counter (3 goes to 2), is refused when the
    counter is at 0, and a year later the row is still active: it is
    never deactivated.  Under PostgreSQL the same grant is honoured and
    runs out. *)
Theorem sqlite_subscriber_pays_from_the_counter :
  let check := check_and_consume_limit true calendar_isoformat calendar_fromisoformat in
  let subscribe := update_user_subscription true (noon - 1) alice 30 in
  let paying : gmap Z user := subscribe {[ alice := sqlite_row 3 ]} in
  let refused : gmap Z user := subscribe {[ alice := sqlite_row 0 ]} in
  let a_year_later := noon + 365 * MICROSECONDS_PER_DAY in
  let check_pg := check_and_consume_limit false calendar_isoformat calendar_fromisoformat in
  let subscribe_pg := update_user_subscription false (noon - 1) alice 30 in
  let honoured : gmap Z user := subscribe_pg {[ alice := free_user 0 ]} in
  (subscription_status <$> paying !! alice = Some active /\
   is_admin <$> paying !! alice = Some false) /\
  (fst (check noon alice paying) = true /\
   free_messages_today <$> snd (check noon alice paying) !! alice = Some 2) /\
  check noon alice refused = (false, refused) /\
  subscription_status <$> snd (check a_year_later alice paying) !! alice = Some active /\
  check_pg noon alice honoured = (true, honoured) /\
  subscription_status <$> snd (check_pg a_year_later alice honoured) !! alice
    = Some inactive.
Proof. vm_compute. repeat split; reflexivity. Qed.

End FailureFacts.

(** ** A link *)

Module LinkFacts.
Import Re Transcoder Plain Span TranscoderMore TranscoderSpans.

Lemma link_char_markup_free (c : char) : link_char c = true -> markup_free c = true.
Proof. unfold link_char. by intros [H _]%andb_true_iff. Qed.

Lemma link_char_neq (c t : char) :
  link_char c = true -> List.In t (str "])'") -> c <> t.
Proof.
  unfold link_char. intros [_ H]%andb_true_iff Hin ->. apply negb_true_iff in H.
  assert (existsb (char_eqb t) (str "])'") = true); [| congruence].
  apply List.existsb_exists. exists t. split; [done |]. apply N.eqb_refl.
Qed.

Lemma escape_char_link_char (q : bool) (c : char) :
  link_char c = true -> Forall (fun d => link_char d = true) (escape_char q c).
Proof.
  intros H. unfold escape_char.
  destruct (char_eqb c (chr "&")); [by repeat constructor |].
  destruct (char_eqb c (chr "<")); [by repeat constructor |].
  destruct (char_eqb c (chr ">")); [by repeat constructor |].
  destruct (q && char_eqb c DQUOTE); [by repeat constructor |].
  destruct (q && char_eqb c (chr "'")) eqn:E; [| by repeat constructor].
  apply andb_true_iff in E as [_ E]. apply char_eqb_eq in E. subst c.
  by vm_compute in H.
Qed.

Lemma html_escape_app (q : bool) (s1 s2 : pystr) :
  html_escape (s1 ++ s2) q = html_escape s1 q ++ html_escape s2 q.
Proof. unfold html_escape. apply flat_map_app. Qed.

Lemma html_escape_nonempty (q : bool) (s : pystr) : s <> [] -> html_escape s q <> [].
Proof.
  destruct s as [|c s]; [done |]. intros _. simpl.
  pose proof (escape_char_nonempty q c). by destruct (escape_char q c).
Qed.

Lemma link_pass (label url : pystr) :
  label <> [] -> url <> [] ->
  Forall (fun c => c <> chr "]") label ->
  Forall (fun c => c <> chr ")") url ->
  re_sub link_re replace_link (str "[" ++ label ++ str "](" ++ url ++ str ")")
  = replace_link [label; url].
Proof.
  intros Hl Hu Hlabel Hurl. unfold re_sub, re_sub_state.
  change (str "[" ++ label ++ str "](" ++ url ++ str ")")
    with (chr "[" :: (label ++ chr "]" :: chr "(" :: url ++ [chr ")"])).
  assert (Hm : link_re None (chr "[" :: (label ++ chr "]" :: chr "(" :: url ++ [chr ")"]))
               = Some ([label; url],
                       (1 + length label + 2 + length url + 1)%nat)).
  { unfold link_re. change (char_eqb (chr "[") (chr "[")) with true. cbv iota.
    rewrite span_until.
    - change (char_eqb (chr "(") (chr "(")) with true.
      destruct label as [|l0 label]; [done |]. cbv iota.
      rewrite span_until.
      + destruct url as [|u0 url]; [done |]. done.
      + eapply Forall_impl; [exact Hurl |]. intros c Hc. unfold not_char.
        by rewrite char_eqb_neq.
      + done.
    - eapply Forall_impl; [exact Hlabel |]. intros c Hc. unfold not_char.
      by rewrite char_eqb_neq.
    - done. }
  rewrite (re_sub_scan_hit _ _ _ _ _ _ _ _ Hm).
  rewrite re_sub_scan_skip_all by (rewrite length_app; simpl; rewrite length_app; simpl; lia).
  cbn [fst snd]. apply app_nil_r.
Qed.

Ltac trigger := vm_compute; tauto.

(** X7: a text that is one link, [[label](address)], with a label and
    an address that are not empty and hold no markup character, no
    closing bracket or parenthesis and no apostrophe, becomes one anchor.
    The label is HTML-escaped once; the address is escaped twice, by
    line 684 with the rest of the text and again by line 690, so that an
    ampersand of the address reaches [href] as [&amp;amp;]. *)
Theorem link_is_rendered (unicode_alnum : char -> bool) (label url : pystr) :
  label <> [] -> url <> [] ->
  Forall (fun c => link_char c = true) label ->
  Forall (fun c => link_char c = true) url ->
  markdown_to_telegram_html unicode_alnum
    (str "[" ++ label ++ str "](" ++ url ++ str ")")
  = str "<a href=" ++ [DQUOTE] ++ html_escape (html_escape url false) true
      ++ [DQUOTE] ++ str ">" ++ html_escape label false ++ str "</a>".
Proof.
  intros Hl Hu Hlabel Hurl.
  remember (str "[" ++ label ++ str "](" ++ url ++ str ")") as text0 eqn:Etext.
  assert (Hfree : forall l, Forall (fun c => link_char c = true) l ->
                            Forall (fun c => markup_free c = true) l).
  { intros l Hall. eapply Forall_impl; [exact Hall |]. apply link_char_markup_free. }
  assert (Hoff : forall t, List.In t (str "`#*_~|" ++ [NL]) ->
                           Forall (fun c => c <> t) text0).
  { intros t Ht.
    assert (Ht' : List.In t TRIGGERS) by (vm_compute in Ht |- *; tauto).
    assert (Hclosed : forall c, List.In c (str "[]()") -> c <> t).
    { intros c Hc ->. vm_compute in Hc, Ht. intuition congruence. }
    assert (Hpart : forall l, Forall (fun c => link_char c = true) l ->
                              Forall (fun c => c <> t) l).
    { intros l Hall. eapply Forall_impl; [exact (Hfree l Hall) |].
      intros c Hc. by apply markup_free_neq. }
    rewrite Etext, !Forall_app. repeat split; auto;
      repeat (apply List.Forall_cons; [apply Hclosed; vm_compute; tauto |]);
      apply List.Forall_nil. }
  unfold markdown_to_telegram_html.
  destruct text0 as [|c0 rest0]; [done |].
  unfold re_sub_state.
  rewrite (re_sub_scan_quiet _ _ _ _ (code_block_re_start unicode_alnum)
             (Hoff (chr "`") ltac:(trigger))).
  rewrite (re_sub_scan_quiet _ _ _ _ inline_code_re_start
             (Hoff (chr "`") ltac:(trigger))).
  rewrite Etext, !html_escape_app.
  change (html_escape (str "[") false) with (str "[").
  change (html_escape (str "](") false) with (str "](").
  change (html_escape (str ")") false) with (str ")").
  set (label' := html_escape label false).
  set (url' := html_escape url false).
  assert (Hlabel' : Forall (fun c => link_char c = true) label')
    by (apply html_escape_Forall; [apply escape_char_link_char | done]).
  assert (Hurl' : Forall (fun c => link_char c = true) url')
    by (apply html_escape_Forall; [apply escape_char_link_char | done]).
  rewrite link_pass.
  2:{ by apply html_escape_nonempty. }
  2:{ by apply html_escape_nonempty. }
  2:{ eapply Forall_impl; [exact Hlabel' |]. intros c Hc.
      apply link_char_neq; [done | vm_compute; tauto]. }
  2:{ eapply Forall_impl; [exact Hurl' |]. intros c Hc.
      apply link_char_neq; [done | vm_compute; tauto]. }
  set (out := str "<a href=" ++ [DQUOTE] ++ html_escape url' true
                ++ [DQUOTE] ++ str ">" ++ label' ++ str "</a>").
  change (replace_link [label'; url']) with out.
  assert (Hout : Forall (fun c => markup_free c = true) out).
  { unfold out. rewrite !Forall_app. repeat split;
      try (by repeat constructor); apply Hfree; [| done].
    apply html_escape_Forall; [apply escape_char_link_char | done]. }
  assert (Hoff' : forall t, List.In t TRIGGERS -> Forall (fun c => c <> t) out).
  { intros t Ht. eapply Forall_impl; [exact Hout |]. intros c Hc.
    by apply markup_free_neq. }
  rewrite (re_sub_quiet _ _ _ out heading_re_start (Hoff' (chr "#") ltac:(trigger))).
  rewrite (re_sub_quiet _ _ _ out (doubled_re_start _) (Hoff' (chr "*") ltac:(trigger))).
  rewrite (re_sub_quiet _ _ _ out (doubled_re_start _) (Hoff' (chr "_") ltac:(trigger))).
  rewrite (re_sub_quiet _ _ _ out (single_re_start _) (Hoff' (chr "*") ltac:(trigger))).
  rewrite (re_sub_quiet _ _ _ out (single_re_start _) (Hoff' (chr "_") ltac:(trigger))).
  rewrite (re_sub_quiet _ _ _ out (lazy_pair_re_start _)
             (Hoff' (chr "~") ltac:(trigger))).
  rewrite (re_sub_quiet _ _ _ out (lazy_pair_re_start _)
             (Hoff' (chr "|") ltac:(trigger))).
  simpl restore_code.
  rewrite (re_sub_quiet _ _ _ out blank_lines_re_start (Hoff' NL ltac:(trigger))).
  rewrite strip_id.
  2:{ split.
      - unfold out. simpl. by intros c [= <-].
      - unfold out. rewrite !app_assoc, last_app_nonempty by done. simpl.
        by intros c [= <-]. }
  rewrite marker_pass.
  apply List.forallb_filter_id. apply List.forallb_forall. intros c Hc.
  apply negb_true_iff. unfold is_marker.
  pose proof (proj1 (List.Forall_forall _ _) (Hoff' (chr "*") ltac:(trigger)) c Hc).
  pose proof (proj1 (List.Forall_forall _ _) (Hoff' (chr "_") ltac:(trigger)) c Hc).
  pose proof (proj1 (List.Forall_forall _ _) (Hoff' (chr "~") ltac:(trigger)) c Hc).
  by rewrite !char_eqb_neq.
Qed.

Lemma link_is_rendered_witness :
  str "Q&A" <> [] /\ str "http://x.org/?a=1&b=2" <> [] /\
  Forall (fun c => link_char c = true) (str "Q&A") /\
  Forall (fun c => link_char c = true) (str "http://x.org/?a=1&b=2") /\
  markdown_to_telegram_html (fun _ => false)
    (str "[" ++ str "Q&A" ++ str "](" ++ str "http://x.org/?a=1&b=2" ++ str ")")
  = str "<a href=" ++ [DQUOTE]
      ++ html_escape (html_escape (str "http://x.org/?a=1&b=2") false) true
      ++ [DQUOTE] ++ str ">" ++ html_escape (str "Q&A") false ++ str "</a>".
Proof.
  assert (H1 : str "Q&A" <> []) by discriminate.
  assert (H2 : str "http://x.org/?a=1&b=2" <> []) by discriminate.
  assert (H3 : Forall (fun c => link_char c = true) (str "Q&A"))
    by (repeat constructor).
  assert (H4 : Forall (fun c => link_char c = true) (str "http://x.org/?a=1&b=2"))
    by (repeat constructor).
  split; [exact H1 |]. split; [exact H2 |]. split; [exact H3 |]. split; [exact H4 |].
  exact (link_is_rendered (fun _ => false) (str "Q&A") (str "http://x.org/?a=1&b=2")
           H1 H2 H3 H4).
Defined.

End LinkFacts.
